(** * ThinkPod: document ingestion and retrieval pipeline

    A shallow embedding of the ingestion-and-retrieval core of the ThinkPod
    API (text chunking, batched embedding generation, content-hash
    deduplication, semantic and hybrid search) together with the properties
    its specification states about it.

    Conventions.
    - A JavaScript string is the list of its UTF-16 code units ([jsstring]).
    - A JavaScript [number] holding a length, a position or a size option is
      an integer ([Z]; [nat] where the value is an array index or length);
      numbers holding scores, thresholds and costs are exact rationals
      ([Qc]), so the rounding of IEEE doubles is outside the model.
    - Asynchronous code that threads the database and the embedding provider
      is written in a state-and-exception monad over [World].
    - The database is reliable: a query that reaches it returns, unless
      the database refuses a parameter, as it does for a JavaScript array
      bound to a column of type [vector].  The order in which it visits
      the rows of a table is not fixed by SQL; the lists of the store
      give one such order. *)

From Stdlib Require Import ZArith List String Ascii Lia QArith Qcanon Qround.
From Stdlib Require Import Sorting.Sorted Permutation.
From stdpp Require Import base tactics option list numbers relations sorting.

Local Open Scope Z_scope.

(** ** JavaScript strings *)

Module JS.

Definition jsstring := list N.

(** A literal: the code units of an ASCII string. *)
Definition lit (s : string) : jsstring :=
  map N_of_ascii (list_ascii_of_string s).

Definition len (s : jsstring) : Z := Z.of_nat (length s).

(** The class [\s] of regular expressions, which is also what
    [String.prototype.trim] strips: WhiteSpace and LineTerminator. *)
Definition isWhiteSpace (c : N) : bool :=
  ((9 <=? c) && (c <=? 13) || (c =? 32) || (c =? 160) || (c =? 5760)
   || ((8192 <=? c) && (c <=? 8202)) || (c =? 8232) || (c =? 8233)
   || (c =? 8239) || (c =? 8287) || (c =? 12288) || (c =? 65279))%N.

(** [/[A-Z]/] and [/[a-zA-Z]/] on one code unit. *)
Definition isUpper (c : N) : bool := ((65 <=? c) && (c <=? 90))%N.
Definition isAlpha (c : N) : bool :=
  (isUpper c || ((97 <=? c) && (c <=? 122)))%N.

Fixpoint dropWhile (p : N -> bool) (s : jsstring) : jsstring :=
  match s with
  | [] => []
  | c :: s' => if p c then dropWhile p s' else s
  end.

Fixpoint takeWhile (p : N -> bool) (s : jsstring) : jsstring :=
  match s with
  | [] => []
  | c :: s' => if p c then c :: takeWhile p s' else []
  end.

Definition trimStart (s : jsstring) : jsstring := dropWhile isWhiteSpace s.
Definition trimEnd (s : jsstring) : jsstring := rev (trimStart (rev s)).
Definition trim (s : jsstring) : jsstring := trimEnd (trimStart s).

(** [s.substring(a, b)]: both ends are clamped to [0, length] and swapped
    when they come in the wrong order. *)
Definition clamp (n x : Z) : Z := Z.max 0 (Z.min x n).

Definition substring (s : jsstring) (a b : Z) : jsstring :=
  let a' := clamp (len s) a in
  let b' := clamp (len s) b in
  let lo := Z.min a' b' in
  let hi := Z.max a' b' in
  take (Z.to_nat (hi - lo)) (drop (Z.to_nat lo) s).

(** [s.substring(a)] *)
Definition substringFrom (s : jsstring) (a : Z) : jsstring :=
  substring s a (len s).

Fixpoint startsWith (p s : jsstring) : bool :=
  match p, s with
  | [], _ => true
  | _ :: _, [] => false
  | a :: p', b :: s' => (a =? b)%N && startsWith p' s'
  end.

Fixpoint indexOf_from (s p : jsstring) (i : Z) : Z :=
  if startsWith p s then i
  else match s with
       | [] => -1
       | _ :: s' => indexOf_from s' p (i + 1)
       end.

(** [s.indexOf(p)] *)
Definition indexOf (s p : jsstring) : Z := indexOf_from s p 0.

Fixpoint lastIndexOf_down (s p : jsstring) (k : nat) : Z :=
  if startsWith p (drop k s) then Z.of_nat k
  else match k with
       | O => -1
       | S k' => lastIndexOf_down s p k'
       end.

(** [s.lastIndexOf(p, pos)]: the last occurrence that starts at or before
    [pos] (clamped to [0, length]). *)
Definition lastIndexOf (s p : jsstring) (pos : Z) : Z :=
  lastIndexOf_down s p (Z.to_nat (clamp (len s) pos)).

(** [s.split(re)] for a regular expression without capture groups whose
    matches are never empty.  [m] gives the length of the match of [re]
    anchored at the head of its argument.  The ECMAScript algorithm walks a
    search position [q] through the string; after a match it emits the
    piece collected since the previous match and jumps behind the match:
    here [skip] counts the code units of the current match still to pass,
    and [cur] is the piece collected so far, reversed. *)
Fixpoint split_go (m : jsstring -> option nat) (s : jsstring)
    (skip : nat) (cur : jsstring) : list jsstring :=
  match s with
  | [] => [rev cur]
  | c :: s' =>
    match skip with
    | S k => split_go m s' k cur
    | O =>
      match m s with
      | Some (S n) => rev cur :: split_go m s' n []
      | _ => split_go m s' O (c :: cur)
      end
    end
  end.

Definition split (m : jsstring -> option nat) (s : jsstring) : list jsstring :=
  split_go m s O [].

(** [/\s+/] anchored at the head. *)
Definition re_spaces (s : jsstring) : option nat :=
  match length (takeWhile isWhiteSpace s) with
  | O => None
  | n => Some n
  end.

Fixpoint lastIndexWhere (p : N -> bool) (s : jsstring) (i : nat)
    (found : option nat) : option nat :=
  match s with
  | [] => found
  | c :: s' => lastIndexWhere p s' (S i) (if p c then Some i else found)
  end.

(** [/\n\s*\n/] anchored at the head: a line feed, then the greedy [\s*]
    gives back code units until a line feed follows it, so the match ends
    behind the last line feed of the white-space run after the first one. *)
Definition re_blank_line (s : jsstring) : option nat :=
  match s with
  | 10%N :: rest =>
    match lastIndexWhere (N.eqb 10) (takeWhile isWhiteSpace rest) O None with
    | Some j => Some (j + 2)%nat
    | None => None
    end
  | _ => None
  end.

(** [s.search(/[.!?]\s+/)] *)
Definition isSentencePunct (c : N) : bool :=
  ((c =? 46) || (c =? 33) || (c =? 63))%N.

Fixpoint search_punct_space (s : jsstring) (i : Z) : Z :=
  match s with
  | c :: ((d :: _) as s') =>
    if isSentencePunct c && isWhiteSpace d then i
    else search_punct_space s' (i + 1)
  | _ => -1
  end.

(** [s.replace(/\r\n/g, '\n')] *)
Fixpoint replace_crlf (s : jsstring) : jsstring :=
  match s with
  | 13%N :: ((10%N :: rest) as s') => 10%N :: replace_crlf rest
  | c :: s' => c :: replace_crlf s'
  | [] => []
  end.

(** [s.replace(/\r/g, '\n')] *)
Definition replace_cr (s : jsstring) : jsstring :=
  map (fun c => if (c =? 13)%N then 10%N else c) s.

(** [s.replace(/[ \t]+/g, ' ')]: [inRun] tells that the previous code unit
    belonged to the run being replaced. *)
Fixpoint collapse_blanks (s : jsstring) (inRun : bool) : jsstring :=
  match s with
  | [] => []
  | c :: s' =>
    if ((c =? 32) || (c =? 9))%N
    then (if inRun then collapse_blanks s' true
          else 32%N :: collapse_blanks s' true)
    else c :: collapse_blanks s' false
  end.

(** [s.replace(/\n{3,}/g, '\n\n')]: a run of three or more line feeds
    keeps two of them; [seen] counts the line feeds of the current run. *)
Fixpoint collapse_newlines (s : jsstring) (seen : nat) : jsstring :=
  match s with
  | [] => []
  | c :: s' =>
    if (c =? 10)%N
    then (if (seen <? 2)%nat then c :: collapse_newlines s' (S seen)
          else collapse_newlines s' (S seen))
    else c :: collapse_newlines s' O
  end.

End JS.

Import JS.

(** ** utils/textChunking.ts *)

Module TextChunker.

Inductive ChunkType := paragraph | sentence | arbitrary.

Record ChunkMetadata := {
  word_count : nat;
  character_count : Z;
  paragraph_index : option Z;
  section_title : option jsstring;
  chunk_type : ChunkType
}.

Record TextChunk := {
  content : jsstring;
  chunk_index : nat;
  start_position : Z;
  end_position : Z;
  content_tokens : Z;
  metadata : ChunkMetadata
}.

(** [ChunkOptions]: every field may be left out. *)
Record ChunkOptions := {
  maxChunkSize_opt : option Z;
  chunkOverlap_opt : option Z;
  preserveSentences_opt : option bool;
  preserveParagraphs_opt : option bool;
  minChunkSize_opt : option Z;
  separators_opt : option (list jsstring)
}.

Definition noOptions : ChunkOptions :=
  {| maxChunkSize_opt := None; chunkOverlap_opt := None;
     preserveSentences_opt := None; preserveParagraphs_opt := None;
     minChunkSize_opt := None; separators_opt := None |}.

(** [Required<ChunkOptions>] *)
Record Options := {
  maxChunkSize : Z;
  chunkOverlap : Z;
  preserveSentences : bool;
  preserveParagraphs : bool;
  minChunkSize : Z;
  separators : list jsstring
}.

Definition LF2 : jsstring := [10%N; 10%N].

Definition defaultOptions : Options :=
  {| maxChunkSize := 1000;
     chunkOverlap := 100;
     preserveSentences := true;
     preserveParagraphs := true;
     minChunkSize := 100;
     separators := [LF2; [10%N]; lit ". "; lit "! "; lit "? "; lit "; ";
                    lit ", "; lit " "] |}.

(** [{ ...base, ...options }] *)
Definition spread (base : Options) (o : ChunkOptions) : Options :=
  {| maxChunkSize := default (maxChunkSize base) (maxChunkSize_opt o);
     chunkOverlap := default (chunkOverlap base) (chunkOverlap_opt o);
     preserveSentences :=
       default (preserveSentences base) (preserveSentences_opt o);
     preserveParagraphs :=
       default (preserveParagraphs base) (preserveParagraphs_opt o);
     minChunkSize := default (minChunkSize base) (minChunkSize_opt o);
     separators := default (separators base) (separators_opt o) |}.

(** [text.trim().split(/\s+/).filter(word => word.length > 0).length] *)
Definition countWords (text : jsstring) : nat :=
  length (List.filter (fun w => (0 <? length w)%nat)
            (split re_spaces (trim text))).

(** [Math.ceil(text.length / 4)] *)
Definition estimateTokens (text : jsstring) : Z := (len text + 3) / 4.

Definition createChunk (content : jsstring) (index : nat) (start end_ : Z)
    (type : ChunkType) (extra_paragraph_index : option Z) : TextChunk :=
  {| content := content;
     chunk_index := index;
     start_position := start;
     end_position := end_;
     content_tokens := 0;
     metadata := {| word_count := countWords content;
                    character_count := len content;
                    paragraph_index := extra_paragraph_index;
                    section_title := None;
                    chunk_type := type |} |}.

Definition preprocessText (text : jsstring) : jsstring :=
  trim (collapse_newlines
          (collapse_blanks (replace_cr (replace_crlf text)) false) O).

Definition findTextPosition (fullText searchText : jsstring) : Z :=
  let index :=
    indexOf fullText (substring searchText 0 (Z.min 50 (len searchText))) in
  if index =? -1 then 0 else index.

Definition getOverlapText (text : jsstring) (overlapSize : Z) : jsstring :=
  if len text <=? overlapSize then text
  else
    let overlap := substringFrom text (len text - overlapSize) in
    let sentenceStart := search_punct_space overlap 0 in
    (* [sentenceStart < overlapSize / 2], the division being exact *)
    if negb (sentenceStart =? -1) && (2 * sentenceStart <? overlapSize)
    then substringFrom overlap (sentenceStart + 2)
    else
      let spaceIndex := indexOf overlap [32%N] in
      if negb (spaceIndex =? -1)
      then substringFrom overlap (spaceIndex + 1)
      else overlap.

(** The loop state shared by [chunkByParagraphs] and [chunkBySentences]. *)
Record Packing := {
  chunks : list TextChunk;
  currentChunk : jsstring;
  currentStart : Z;
  unitIndex : Z
}.

Definition packing0 : Packing :=
  {| chunks := []; currentChunk := []; currentStart := 0; unitIndex := 0 |}.

(** One turn of the [for ... of] loop of [chunkByParagraphs] ([glue] is
    ["\n\n"], [extra] is 2, the chunk carries the paragraph index) and of
    [chunkBySentences] ([glue] is [" "], [extra] is 1, no index). *)
Definition packStep (text : jsstring) (o : Options) (type : ChunkType)
    (glue : jsstring) (extra : Z) (withIndex : bool)
    (st : Packing) (unit : jsstring) : Packing :=
  let trimmed := trim unit in
  if (0 <? len (currentChunk st))
     && (maxChunkSize o <? len (currentChunk st) + len trimmed + extra)
  then
    let chunk :=
      createChunk (trim (currentChunk st)) (length (chunks st))
        (currentStart st) (currentStart st + len (currentChunk st)) type
        (if withIndex then Some (unitIndex st - 1) else None) in
    let overlap := getOverlapText (currentChunk st) (chunkOverlap o) in
    {| chunks := chunks st ++ [chunk];
       currentChunk :=
         (match overlap with
          | [] => trimmed
          | _ => overlap ++ glue ++ trimmed
          end);
       currentStart := findTextPosition text trimmed;
       unitIndex := unitIndex st + 1 |}
  else if 0 <? len (currentChunk st)
  then
    {| chunks := chunks st;
       currentChunk := currentChunk st ++ glue ++ trimmed;
       currentStart := currentStart st;
       unitIndex := unitIndex st + 1 |}
  else
    {| chunks := chunks st;
       currentChunk := trimmed;
       currentStart := findTextPosition text trimmed;
       unitIndex := unitIndex st + 1 |}.

(** The final chunk, kept when it reaches [minChunkSize]. *)
Definition packFinish (o : Options) (type : ChunkType) (withIndex : bool)
    (st : Packing) : list TextChunk :=
  if minChunkSize o <=? len (trim (currentChunk st))
  then chunks st ++
       [createChunk (trim (currentChunk st)) (length (chunks st))
          (currentStart st) (currentStart st + len (currentChunk st)) type
          (if withIndex then Some (unitIndex st - 1) else None)]
  else chunks st.

Definition chunkByParagraphs (text : jsstring) (o : Options)
    : list TextChunk :=
  let paragraphs :=
    List.filter (fun p => 0 <? len (trim p)) (split re_blank_line text) in
  packFinish o paragraph true
    (fold_left (packStep text o paragraph LF2 2 true) paragraphs packing0).

(** The abbreviations after which a full stop does not end a sentence. *)
Definition abbreviations : list jsstring :=
  map lit ["Dr"; "Mr"; "Mrs"; "Ms"; "Prof"; "Sr"; "Jr"; "vs"; "etc"; "Inc";
           "Ltd"; "Corp"]%string.

Definition jsstring_eqb (a b : jsstring) : bool :=
  (length a =? length b)%nat && startsWith a b.

(** [getWordBefore(text, position)] reads backwards from [position - 1]:
    it passes white space, then collects letters.  [before] is the text in
    front of [position], nearest code unit first. *)
Definition getWordBefore (text : jsstring) (position : nat) : jsstring :=
  let before := rev (take position text) in
  rev (takeWhile isAlpha (dropWhile isWhiteSpace before)).

Definition isSentenceEnd (text : jsstring) (position : nat) : bool :=
  match dropWhile isWhiteSpace (drop (S position) text) with
  | [] => true
  | c :: _ =>
    if negb (isUpper c) then false
    else negb (existsb (jsstring_eqb (getWordBefore text position))
                 abbreviations)
  end.

(** The [while (i < text.length)] loop of [splitIntoSentences]; [rest] is
    the text from index [i] on and [current] the sentence being read,
    reversed. *)
Fixpoint sentences_go (text rest : jsstring) (i : nat) (current : jsstring)
    : list jsstring :=
  match rest with
  | [] =>
    match trim (rev current) with
    | [] => []
    | s => [s]
    end
  | c :: rest' =>
    if isSentencePunct c && isSentenceEnd text i
    then trim (rev (c :: current)) :: sentences_go text rest' (S i) []
    else sentences_go text rest' (S i) (c :: current)
  end.

Definition splitIntoSentences (text : jsstring) : list jsstring :=
  List.filter (fun s => 0 <? len s) (sentences_go text text O []).

Definition chunkBySentences (text : jsstring) (o : Options)
    : list TextChunk :=
  packFinish o sentence false
    (fold_left (packStep text o sentence (lit " ") 1 false)
       (splitIntoSentences text) packing0).

Fixpoint findBestBreakpoint (text : jsstring) (start maxEnd : Z)
    (seps : list jsstring) : Z :=
  match seps with
  | [] => maxEnd
  | separator :: seps' =>
    let lastIndex := lastIndexOf text separator maxEnd in
    if start <? lastIndex then lastIndex + len separator
    else findBestBreakpoint text start maxEnd seps'
  end.

(** The [while (position < text.length)] loop of [chunkBySize].  Every
    turn moves [position] forward by at least one, so [fuel] = the number
    of code units still ahead is enough ([chunkBySize_fuel] below). *)
Fixpoint chunkBySize_go (fuel : nat) (text : jsstring) (o : Options)
    (position : Z) (acc : list TextChunk) : list TextChunk :=
  match fuel with
  | O => acc
  | S fuel' =>
    if position <? len text then
      let chunkEnd0 := Z.min (position + maxChunkSize o) (len text) in
      let chunkEnd :=
        if chunkEnd0 <? len text then
          let boundary :=
            findBestBreakpoint text position chunkEnd0 (separators o) in
          if position + minChunkSize o <? boundary then boundary
          else chunkEnd0
        else chunkEnd0 in
      let chunkContent := trim (substring text position chunkEnd) in
      let acc' :=
        if minChunkSize o <=? len chunkContent
        then acc ++ [createChunk chunkContent (length acc) position chunkEnd
                       arbitrary None]
        else acc in
      chunkBySize_go fuel' text o
        (Z.max (chunkEnd - chunkOverlap o) (position + 1)) acc'
    else acc
  end.

Definition chunkBySize (text : jsstring) (o : Options) : list TextChunk :=
  chunkBySize_go (length text) text o 0 [].

Definition setIndexContent (c : TextChunk) (index : nat) (s : jsstring)
    : TextChunk :=
  {| content := s; chunk_index := index;
     start_position := start_position c; end_position := end_position c;
     content_tokens := content_tokens c; metadata := metadata c |}.

Definition postProcessChunks (cs : list TextChunk) (o : Options)
    : list TextChunk :=
  imap (fun index c => setIndexContent c index (trim (content c)))
    (List.filter (fun c => minChunkSize o <=? len (trim (content c))) cs).

Definition setIndexTokens (c : TextChunk) (index : nat) : TextChunk :=
  {| content := content c; chunk_index := index;
     start_position := start_position c; end_position := end_position c;
     content_tokens := estimateTokens (content c); metadata := metadata c |}.

Definition chunkText (text : jsstring) (options : ChunkOptions)
    : list TextChunk :=
  let opts := spread defaultOptions options in
  if (len text =? 0) || (len (trim text) =? 0) then []
  else
    let cleanedText := preprocessText text in
    let chunks :=
      if preserveParagraphs opts then chunkByParagraphs cleanedText opts
      else if preserveSentences opts then chunkBySentences cleanedText opts
      else chunkBySize cleanedText opts in
    let chunks := postProcessChunks chunks opts in
    imap (fun index c => setIndexTokens c index) chunks.

End TextChunker.

(** ** Effects: the world, exceptions, the monad of asynchronous code *)

(** A thrown value: an [Error] with its message, or [null] (the value
    [processBatch] throws when its loop never ran). *)
Inductive Thrown :=
| JsError (message : jsstring)
| JsNull.

(** [error instanceof Error ? error.message : String(error)] *)
Definition errorMessage (e : Thrown) : jsstring :=
  match e with
  | JsError m => m
  | JsNull => lit "null"
  end.

Inductive Outcome (A : Type) :=
| Ok (a : A)
| Throw (e : Thrown)
| Diverge.
Arguments Ok {A} a.
Arguments Throw {A} e.
Arguments Diverge {A}.

Module Db.

Inductive ProcessingStatus := pending | processing | completed | failed.

Definition status_eqb (a b : ProcessingStatus) : bool :=
  match a, b with
  | pending, pending | processing, processing
  | completed, completed | failed, failed => true
  | _, _ => false
  end.

(** A row of [documents].  Primary keys are drawn from a counter of the
    store; the time stamps, which only the database writes, are left out. *)
Record Document := {
  id : nat;
  user_id : jsstring;
  title : jsstring;
  filename : jsstring;
  file_path : jsstring;
  file_type : jsstring;
  file_size : Z;
  content_hash : jsstring;
  processing_status : ProcessingStatus;
  chunk_count : Z
}.

(** The JSON column [metadata] of a chunk row. *)
Inductive Json :=
| JsonMetadata (m : TextChunker.ChunkMetadata)
| JsonEmptyObject
| JsonNull.

(** A row of [document_chunks]; [embedding] is [None] for SQL NULL. *)
Record DocumentChunk := {
  chunk_id : nat;
  document_id : nat;
  chunk_index : nat;
  content : jsstring;
  content_tokens : Z;
  embedding : option (list Qc);
  metadata : Json
}.

(** Both tables in insertion order, and the next primary key. *)
Record Store := {
  documents : list Document;
  document_chunks : list DocumentChunk;
  next_id : nat
}.

End Db.

(** What the outside sees of a run: calls to the embedding provider and
    the pauses of [delay]. *)
Inductive Event :=
| ProviderCall (model : jsstring) (input : list jsstring)
| Delay (ms : Z).

Record World := {
  store : Db.Store;
  trace : list Event
}.

Definition isProviderCall (e : Event) : bool :=
  match e with ProviderCall _ _ => true | Delay _ => false end.

Definition providerCalls (w : World) : nat :=
  length (List.filter isProviderCall (trace w)).

Definition delays (t : list Event) : list Z :=
  flat_map (fun e => match e with Delay ms => [ms] | _ => [] end) t.

Definition M (A : Type) : Type := World -> Outcome A * World.

Definition ret {A} (a : A) : M A := fun w => (Ok a, w).
Definition throw {A} (e : Thrown) : M A := fun w => (Throw e, w).
Definition diverge {A} : M A := fun w => (Diverge, w).

Definition bind {A B} (m : M A) (k : A -> M B) : M B :=
  fun w =>
    match m w with
    | (Ok a, w') => k a w'
    | (Throw e, w') => (Throw e, w')
    | (Diverge, w') => (Diverge, w')
    end.

(** [try { body } catch (error) { handler }] *)
Definition tryCatch {A} (body : M A) (handler : Thrown -> M A) : M A :=
  fun w =>
    match body w with
    | (Throw e, w') => handler e w'
    | r => r
    end.

Declare Scope js_scope.
Delimit Scope js_scope with js.
Notation "'do' x <- m ; k" := (bind m (fun x => k))
  (at level 10, x name, m at level 100, k at level 200) : js_scope.
Local Open Scope js_scope.

Definition emit (e : Event) : M unit :=
  fun w => (Ok tt, {| store := store w; trace := trace w ++ [e] |}).

Definition getStore : M Db.Store := fun w => (Ok (store w), w).

Definition putStore (s : Db.Store) : M unit :=
  fun w => (Ok tt, {| store := s; trace := trace w |}).

(** A computation that can only throw, run inside asynchronous code. *)
Definition liftE {A} (r : Thrown + A) : M A :=
  match r with
  | inl e => throw e
  | inr a => ret a
  end.

Fixpoint mapE {A B} (f : A -> Thrown + B) (l : list A) : Thrown + list B :=
  match l with
  | [] => inr []
  | x :: l' =>
    match f x with
    | inl e => inl e
    | inr y =>
      match mapE f l' with
      | inl e => inl e
      | inr ys => inr (y :: ys)
      end
    end
  end.

(** The operations of [utils/database.ts] this code uses, on the store. *)
Module DbOps.
Import Db.

Definition setStatus (d : Document) (s : ProcessingStatus) : Document :=
  {| id := id d; user_id := user_id d; title := title d;
     filename := filename d; file_path := file_path d;
     file_type := file_type d; file_size := file_size d;
     content_hash := content_hash d; processing_status := s;
     chunk_count := chunk_count d |}.

Definition setChunkCount (d : Document) (n : Z) : Document :=
  {| id := id d; user_id := user_id d; title := title d;
     filename := filename d; file_path := file_path d;
     file_type := file_type d; file_size := file_size d;
     content_hash := content_hash d;
     processing_status := processing_status d;
     chunk_count := n |}.

Definition setEmbedding (c : DocumentChunk) (e : option (list Qc))
    : DocumentChunk :=
  {| chunk_id := chunk_id c; document_id := document_id c;
     chunk_index := chunk_index c; content := content c;
     content_tokens := content_tokens c; embedding := e;
     metadata := metadata c |}.

Definition withId (d : Document) (i : nat) : Document :=
  {| id := i; user_id := user_id d; title := title d;
     filename := filename d; file_path := file_path d;
     file_type := file_type d; file_size := file_size d;
     content_hash := content_hash d;
     processing_status := processing_status d;
     chunk_count := chunk_count d |}.

Definition withChunkId (c : DocumentChunk) (i : nat) : DocumentChunk :=
  {| chunk_id := i; document_id := document_id c;
     chunk_index := chunk_index c; content := content c;
     content_tokens := content_tokens c; embedding := embedding c;
     metadata := metadata c |}.

(** [db.insert('documents', data)]: [INSERT ... RETURNING *]; the key of
    [data] is ignored, the database draws it. *)
Definition insertDocument (data : Document) : M Document :=
  do s <- getStore ;
  let row := withId data (next_id s) in
  do _ <- putStore {| documents := documents s ++ [row];
                   document_chunks := document_chunks s;
                   next_id := S (next_id s) |} ;
  ret row.

(** [db.update('documents', id, data)]: [UPDATE ... WHERE id = $1]. *)
Definition updateDocuments (docId : nat) (f : Document -> Document)
    : M unit :=
  do s <- getStore ;
  putStore {| documents :=
                map (fun d => if (id d =? docId)%nat then f d else d)
                  (documents s);
              document_chunks := document_chunks s;
              next_id := next_id s |}.

(** A JavaScript value bound to a parameter of the column [embedding],
    of type [vector].  [utils/database.ts] hands the values of a call to
    node-postgres as they are, and registers no type of its own. *)
Inductive VectorParam :=
| SqlNull
| JsArray (v : list Qc)
| JsonText (v : list Qc).

(** What the database makes of the parameter.  node-postgres sends an
    array as the array literal [{...}], which the input function of
    [vector] refuses; the text [[...]] that [JSON.stringify] gives (the
    searches send it for the query embedding) is taken.  The message of
    the database goes on with the literal it was sent. *)
Definition vector_in (p : VectorParam) : Thrown + option (list Qc) :=
  match p with
  | SqlNull => inr None
  | JsonText v => inr (Some v)
  | JsArray v => inl (JsError (lit "invalid input syntax for type vector"))
  end.

(** The parameter bound for [embedding] in an object of insert data:
    there [embedding] is [null] or, in [storeEmbeddings], the array
    [embeddings[index].embedding]. *)
Definition embeddingParam (c : DocumentChunk) : VectorParam :=
  match embedding c with
  | None => SqlNull
  | Some v => JsArray v
  end.

(** [db.update('document_chunks', id, { embedding })]:
    [UPDATE ... SET embedding = $2 WHERE id = $1]. *)
Definition updateChunkEmbedding (chunkId : nat) (p : VectorParam)
    : M unit :=
  do e <- liftE (vector_in p) ;
  do s <- getStore ;
  putStore {| documents := documents s;
              document_chunks :=
                map (fun c => if (chunk_id c =? chunkId)%nat
                              then setEmbedding c e else c)
                  (document_chunks s);
              next_id := next_id s |}.

(** [db.batchInsert('document_chunks', rows)]: nothing is sent for an
    empty array; otherwise one [INSERT] with all rows, which stores all
    of them or, when a parameter is refused, none. *)
Definition batchInsertChunks (rows : list DocumentChunk) : M unit :=
  match rows with
  | [] => ret tt
  | _ =>
    do _ <- liftE (mapE (fun c => vector_in (embeddingParam c)) rows) ;
    do s <- getStore ;
    putStore {| documents := documents s;
                document_chunks :=
                  document_chunks s ++
                  imap (fun i c => withChunkId c (next_id s + i)) rows;
                next_id := (next_id s + length rows)%nat |}
  end.

(** [db.findById('documents', id)] *)
Definition findDocumentById (docId : nat) : M (option Document) :=
  do s <- getStore ;
  ret (head (List.filter (fun d => (id d =? docId)%nat) (documents s))).

(** [SELECT * FROM documents WHERE id = $1 AND user_id = $2] *)
Definition selectDocumentOfUser (docId : nat) (userId : jsstring)
    : M (list Document) :=
  do s <- getStore ;
  ret (List.filter
         (fun d => (id d =? docId)%nat
                   && TextChunker.jsstring_eqb (user_id d) userId)
         (documents s)).

(** [SELECT * FROM documents WHERE content_hash = $1 AND user_id = $2] *)
Definition selectDocumentsByHash (hash userId : jsstring)
    : M (list Document) :=
  do s <- getStore ;
  ret (List.filter
         (fun d => TextChunker.jsstring_eqb (content_hash d) hash
                   && TextChunker.jsstring_eqb (user_id d) userId)
         (documents s)).

(** Insertion sort on [chunk_index], stable: [ORDER BY chunk_index]. *)
Fixpoint insertByIndex (c : DocumentChunk) (l : list DocumentChunk)
    : list DocumentChunk :=
  match l with
  | [] => [c]
  | d :: l' =>
    if (chunk_index c <=? chunk_index d)%nat then c :: l
    else d :: insertByIndex c l'
  end.

Definition orderByIndex (l : list DocumentChunk) : list DocumentChunk :=
  fold_right insertByIndex [] l.

(** [SELECT * FROM document_chunks WHERE document_id = $1
     ORDER BY chunk_index] *)
Definition chunksOf (s : Store) (docId : nat) : list DocumentChunk :=
  List.filter (fun c => (document_id c =? docId)%nat) (document_chunks s).

Definition selectChunksOfDocument (docId : nat) : M (list DocumentChunk) :=
  do s <- getStore ;
  ret (orderByIndex (chunksOf s docId)).

End DbOps.

(** ** services/EmbeddingService.ts *)

Module EmbeddingService.
Import Db DbOps.

(** What [openai.embeddings.create] answers: one vector per input and the
    tokens used, or a failure with its message. *)
Inductive ProviderOutcome :=
| ProviderOk (data : list (list Qc)) (total_tokens : Z)
| ProviderFail (message : jsstring).

(** The embedding provider is outside the repository.  Its answer may
    depend on how many calls were made before (so that it can fail twice
    and then succeed), on the model and on the input. *)
Definition Provider := nat -> jsstring -> list jsstring -> ProviderOutcome.

Record EmbeddingResult := {
  embedding : list Qc;
  tokens : Z;
  index : nat
}.

(** [BatchEmbeddingResult]; [processingTime], a difference of two readings
    of the clock, is left out. *)
Record BatchEmbeddingResult := {
  embeddings : list EmbeddingResult;
  totalTokens : Z;
  cost : Qc
}.

Record EmbeddingOptions := {
  batchSize : option Z;
  model : option jsstring;
  retryAttempts : option Z;
  retryDelay : option Z
}.

Definition noOptions : EmbeddingOptions :=
  {| batchSize := None; model := None; retryAttempts := None;
     retryDelay := None |}.

(** [{ content, chunk_index }] *)
Record ChunkInput := {
  input_content : jsstring;
  input_chunk_index : nat
}.

(** [{ content, chunk_index, content_tokens, metadata? }] *)
Record StoreInput := {
  store_content : jsstring;
  store_chunk_index : nat;
  store_content_tokens : Z;
  store_metadata : option TextChunker.ChunkMetadata
}.

Definition defaultModel : jsstring := lit "text-embedding-ada-002".
Definition maxBatchSize : Z := 100.
Definition maxInputLength : Z := 8191.

(** [0.0000001] *)
Definition costPerToken : Qc := Q2Qc (1 # 10000000).

Definition calculateCost (tokens : Z) : Qc :=
  (Q2Qc (inject_Z tokens) * costPerToken)%Qc.

Definition isBlank (text : jsstring) : bool :=
  (len text =? 0) || (len (trim text) =? 0).

Definition validateAndTruncateText (text : jsstring) : Thrown + jsstring :=
  if isBlank text
  then inl (JsError (lit "Text content cannot be empty"))
  else
    let estimatedTokens := (len text + 3) / 4 in
    if estimatedTokens <=? maxInputLength then inr (trim text)
    else
      let maxCharacters := maxInputLength * 4 in
      inr (trim (substring text 0 maxCharacters)).

Definition validateChunks (chunks : list ChunkInput)
    : Thrown + list ChunkInput :=
  mapE (fun chunk =>
          match validateAndTruncateText (input_content chunk) with
          | inl e => inl e
          | inr t => inr {| input_content := t;
                            input_chunk_index := input_chunk_index chunk |}
          end)
       (List.filter (fun chunk => negb (isBlank (input_content chunk)))
          chunks).

(** [Math.round(a / b)] for a positive [b]: the nearest integer, a half
    going up. *)
Definition roundDiv (a b : Z) : Z := (2 * a + b) / (2 * b).

(** [arr.slice(a, b)]: a negative index counts from the end. *)
Definition relIndex (n k : Z) : Z :=
  if k <? 0 then Z.max (n + k) 0 else Z.min k n.

Definition slice {A} (l : list A) (a b : Z) : list A :=
  let n := Z.of_nat (length l) in
  let from := relIndex n a in
  let to := relIndex n b in
  take (Z.to_nat (to - from)) (drop (Z.to_nat from) l).

(** [response.data.map((item, index) => ({ ..., index:
    chunks[index].chunk_index }))]: reading past the end of [chunks]
    throws a [TypeError]. *)
Fixpoint zipEmbeddings (data : list (list Qc)) (chunks : list ChunkInput)
    (perChunk : Z) : Thrown + list EmbeddingResult :=
  match data with
  | [] => inr []
  | item :: data' =>
    match chunks with
    | [] => inl (JsError (lit
        "Cannot read properties of undefined (reading 'chunk_index')"))
    | chunk :: chunks' =>
      match zipEmbeddings data' chunks' perChunk with
      | inl e => inl e
      | inr rest =>
        inr ({| embedding := item; tokens := perChunk;
                index := input_chunk_index chunk |} :: rest)
      end
    end
  end.

Section WithProvider.

Variable provider : Provider.

(** [await this.openai.embeddings.create({ model, input, ... })] *)
Definition embeddings_create (model : jsstring) (input : list jsstring)
    : M (list (list Qc) * Z) :=
  fun w =>
    let w' := {| store := store w;
                 trace := trace w ++ [ProviderCall model input] |} in
    match provider (providerCalls w) model input with
    | ProviderOk data total => (Ok (data, total), w')
    | ProviderFail msg => (Throw (JsError msg), w')
    end.

(** [await this.delay(ms)] *)
Definition delay (ms : Z) : M unit := emit (Delay ms).

(** The body of the [try] in [processBatch]. *)
Definition attemptBatch (chunks : list ChunkInput) (model : jsstring)
    : M (list EmbeddingResult * Z) :=
  do inputs <- liftE (mapE (fun c => validateAndTruncateText
                                       (input_content c)) chunks) ;
  do response <- embeddings_create model inputs ;
  do embeddings <-
    liftE (zipEmbeddings (fst response) chunks
             (roundDiv (snd response) (Z.of_nat (length chunks)))) ;
  ret (embeddings, snd response).

(** The [for (attempt = 1; attempt <= retryAttempts; attempt++)] loop of
    [processBatch]; [remaining] turns are left, [lastError] is what the
    last failed attempt threw. *)
Fixpoint processBatch_loop (remaining : nat) (attempt : Z)
    (lastError : Thrown) (chunks : list ChunkInput) (model : jsstring)
    (retryAttempts retryDelay : Z) : M (list EmbeddingResult * Z) :=
  match remaining with
  | O => throw lastError
  | S remaining' =>
    tryCatch (attemptBatch chunks model)
      (fun error =>
         let lastError := JsError (errorMessage error) in
         do _ <- (if attempt <? retryAttempts
                  then delay (retryDelay * attempt)
                  else ret tt) ;
         processBatch_loop remaining' (attempt + 1) lastError chunks model
           retryAttempts retryDelay)
  end.

Definition processBatch (chunks : list ChunkInput) (model : jsstring)
    (retryAttempts retryDelay : Z) : M (list EmbeddingResult * Z) :=
  processBatch_loop (Z.to_nat retryAttempts) 1 JsNull chunks model
    retryAttempts retryDelay.

(** The [for (i = 0; i < validChunks.length; i += actualBatchSize)] loop
    of [generateEmbeddings].  With a batch size of at least one,
    [length validChunks] turns are enough.  With a smaller one the source
    loop does not advance and can only end by an exception: the model
    gives up when the fuel is spent. *)
Fixpoint batches_loop (fuel : nat) (validChunks : list ChunkInput)
    (actualBatchSize : Z) (model : jsstring) (retryAttempts retryDelay : Z)
    (i : Z) (allEmbeddings : list EmbeddingResult) (totalTokens : Z)
    : M (list EmbeddingResult * Z) :=
  if i <? Z.of_nat (length validChunks) then
    match fuel with
    | O => diverge
    | S fuel' =>
      let batch := slice validChunks i (i + actualBatchSize) in
      do batchResult <- processBatch batch model retryAttempts retryDelay ;
      do _ <- (if i + actualBatchSize <? Z.of_nat (length validChunks)
               then delay 100 else ret tt) ;
      batches_loop fuel' validChunks actualBatchSize model retryAttempts
        retryDelay (i + actualBatchSize)
        (allEmbeddings ++ fst batchResult)
        (totalTokens + snd batchResult)
    end
  else ret (allEmbeddings, totalTokens).

Definition generateEmbeddings (chunks : list ChunkInput)
    (options : EmbeddingOptions) : M BatchEmbeddingResult :=
  let batchSize := default 50 (batchSize options) in
  let model := default defaultModel (model options) in
  let retryAttempts := default 3 (retryAttempts options) in
  let retryDelay := default 1000 (retryDelay options) in
  let actualBatchSize := Z.min batchSize maxBatchSize in
  do validChunks <- liftE (validateChunks chunks) ;
  match validChunks with
  | [] => throw (JsError
            (lit "No valid chunks provided for embedding generation"))
  | _ =>
    tryCatch
      (do r <- batches_loop (length validChunks) validChunks
                 actualBatchSize model retryAttempts retryDelay 0 [] 0 ;
       ret {| embeddings := fst r;
              totalTokens := snd r;
              cost := calculateCost (snd r) |})
      (fun error =>
         throw (JsError (lit "Embedding generation failed: "
                         ++ errorMessage error)))
  end.

Definition generateQueryEmbedding (query : jsstring) (model : jsstring)
    : M (list Qc) :=
  tryCatch
    (do validatedQuery <- liftE (validateAndTruncateText query) ;
     do response <- embeddings_create model [validatedQuery] ;
     match fst response with
     | [] => throw (JsError (lit
         "Cannot read properties of undefined (reading 'embedding')"))
     | embedding :: _ => ret embedding
     end)
    (fun error =>
       throw (JsError (lit "Query embedding generation failed: "
                       ++ errorMessage error))).

(** [chunks.map((chunk, index) => ({ ..., embedding:
    embeddings[index].embedding, ... }))] *)
Fixpoint chunkRows (documentId : nat) (chunks : list StoreInput)
    (embeddings : list EmbeddingResult) : Thrown + list DocumentChunk :=
  match chunks with
  | [] => inr []
  | chunk :: chunks' =>
    match embeddings with
    | [] => inl (JsError (lit
        "Cannot read properties of undefined (reading 'embedding')"))
    | e :: embeddings' =>
      match chunkRows documentId chunks' embeddings' with
      | inl err => inl err
      | inr rows =>
        inr ({| chunk_id := 0; document_id := documentId;
                chunk_index := store_chunk_index chunk;
                content := store_content chunk;
                content_tokens := store_content_tokens chunk;
                Db.embedding := Some (embedding e);
                metadata := match store_metadata chunk with
                            | Some m => JsonMetadata m
                            | None => JsonEmptyObject
                            end |} :: rows)
      end
    end
  end.

Definition storeEmbeddings (documentId : nat) (chunks : list StoreInput)
    (embeddings : list EmbeddingResult) : M unit :=
  if negb (length chunks =? length embeddings)%nat
  then throw (JsError (lit
         "Chunks and embeddings arrays must have the same length"))
  else
    tryCatch
      (do insertData <- liftE (chunkRows documentId chunks embeddings) ;
       batchInsertChunks insertData)
      (fun error =>
         throw (JsError (lit "Failed to store embeddings: "
                         ++ errorMessage error))).

(** [!chunk.embedding || chunk.embedding.length === 0] *)
Definition lacksEmbedding (chunk : DocumentChunk) : bool :=
  match Db.embedding chunk with
  | None => true
  | Some v => (length v =? 0)%nat
  end.

(** The [for (i = 0; i < chunksToUpdate.length; i++)] loop of
    [updateEmbeddings]; [embeddings] is [batchResult.embeddings] from
    index [i] on. *)
Fixpoint updateRows (chunksToUpdate : list DocumentChunk)
    (embeddings : list EmbeddingResult) : M unit :=
  match chunksToUpdate with
  | [] => ret tt
  | chunk :: rest =>
    match embeddings with
    | [] => throw (JsError (lit
        "Cannot read properties of undefined (reading 'embedding')"))
    | e :: embeddings' =>
      (* [{ embedding: embedding.embedding }]: the array as it is *)
      do _ <- updateChunkEmbedding (chunk_id chunk)
                (JsArray (embedding e)) ;
      updateRows rest embeddings'
    end
  end.

Definition updateEmbeddings (documentId : nat) (forceRegenerate : bool)
    : M (nat * Qc) :=
  tryCatch
    (do chunks <- selectChunksOfDocument documentId ;
     match chunks with
     | [] => ret (O, Q2Qc 0)
     | _ =>
       let chunksToUpdate :=
         if forceRegenerate then chunks
         else List.filter lacksEmbedding chunks in
       match chunksToUpdate with
       | [] => ret (O, Q2Qc 0)
       | _ =>
         do batchResult <-
           generateEmbeddings
             (map (fun chunk =>
                     {| input_content := content chunk;
                        input_chunk_index := chunk_index chunk |})
                chunksToUpdate)
             noOptions ;
         do _ <- updateRows chunksToUpdate (embeddings batchResult) ;
         ret (length chunksToUpdate, cost batchResult)
       end
     end)
    (fun error =>
       throw (JsError (lit "Failed to update embeddings: "
                       ++ errorMessage error))).

End WithProvider.

Definition getAvailableModels : list jsstring :=
  [lit "text-embedding-ada-002"; lit "text-embedding-3-small";
   lit "text-embedding-3-large"].

(** [estimateCost(chunks)] *)
Definition estimateCost (chunks : list jsstring) : Z * Qc :=
  let estimatedTokens :=
    fold_left (fun total content => total + (len content + 3) / 4)
      chunks 0 in
  (estimatedTokens, calculateCost estimatedTokens).

End EmbeddingService.

(** ** services/DocumentService.ts *)

Module DocumentService.
Import Db DbOps.

Record ExtractionOptions := {
  preserveFormatting : option bool;
  maxLength : option Z
}.

(** [ExtractionResult], with the counts of its metadata. *)
Record ExtractionResult := {
  extracted_content : jsstring;
  wordCount : Z;
  characterCount : Z
}.

Record DocumentProcessingOptions := {
  generateEmbeddings : option bool;
  chunkOptions : option TextChunker.ChunkOptions;
  extractionOptions : option ExtractionOptions
}.

Record DocumentProcessingResult := {
  document : option Document;
  chunks : option (list DocumentChunk);
  extraction_result : option ExtractionResult;
  embedding_result : option EmbeddingService.BatchEmbeddingResult;
  success : bool;
  error : option jsstring
}.

Record ReprocessResult := {
  reprocess_success : bool;
  reprocess_cost : Qc;
  chunks_updated : nat
}.

(** [{ maxChunkSize: 1000, chunkOverlap: 100, preserveSentences: true,
      preserveParagraphs: true, ...chunkOptions }] *)
Definition pipelineChunkOptions (o : TextChunker.ChunkOptions)
    : TextChunker.ChunkOptions :=
  let first {A} (x : option A) (d : A) : option A :=
    match x with Some v => Some v | None => Some d end in
  {| TextChunker.maxChunkSize_opt := first (TextChunker.maxChunkSize_opt o)
      1000;
     TextChunker.chunkOverlap_opt := first (TextChunker.chunkOverlap_opt o) 100;
     TextChunker.preserveSentences_opt :=
       first (TextChunker.preserveSentences_opt o) true;
     TextChunker.preserveParagraphs_opt :=
       first (TextChunker.preserveParagraphs_opt o) true;
     TextChunker.minChunkSize_opt := TextChunker.minChunkSize_opt o;
     TextChunker.separators_opt := TextChunker.separators_opt o |}.

Definition failure (doc : option Document) (msg : jsstring)
    : DocumentProcessingResult :=
  {| document := doc; chunks := None; extraction_result := None;
     embedding_result := None; success := false; error := Some msg |}.

Section WithCollaborators.

(** The embedding provider. *)
Variable provider : EmbeddingService.Provider.

(** [fs.readFile(filePath)]: the bytes of the file, if it can be read. *)
Variable readFile : jsstring -> option (list Byte.byte).

(** [crypto.createHash('sha256').update(buffer).digest('hex')] *)
Variable sha256 : list Byte.byte -> jsstring.

(** [TextExtractionService.extractText(filePath, mimeType, options)] *)
Variable extractText :
  jsstring -> jsstring -> ExtractionOptions -> Thrown + ExtractionResult.

(** [path.parse(originalName).name] *)
Variable pathName : jsstring -> jsstring.

Definition calculateFileHash (filePath : jsstring) : M jsstring :=
  match readFile filePath with
  | Some buffer => ret (sha256 buffer)
  | None => throw (JsError (lit "ENOENT: no such file or directory"))
  end.

Definition findDocumentByHash (hash userId : jsstring)
    : M (option Document) :=
  do result <- selectDocumentsByHash hash userId ;
  ret (head result).

Definition createDocumentRecord (filePath originalName userId
    mimeType : jsstring) (fileSize : Z) (contentHash : jsstring)
    (title : option jsstring) : M Document :=
  let documentTitle :=
    match title with
    | Some (c :: t) => c :: t
    | _ => pathName originalName
    end in
  insertDocument
    {| id := 0; user_id := userId; title := documentTitle;
       filename := originalName; file_path := filePath;
       file_type := mimeType; file_size := fileSize;
       content_hash := contentHash; processing_status := pending;
       chunk_count := 0 |}.

Definition updateDocumentStatus (documentId : nat)
    (status : ProcessingStatus) : M unit :=
  updateDocuments documentId (fun d => setStatus d status).

Definition updateDocumentProcessing (documentId : nat)
    (status : ProcessingStatus) (count : Z) : M unit :=
  updateDocuments documentId
    (fun d => setChunkCount (setStatus d status) count).

Definition getDocumentChunks (documentId : nat) : M (list DocumentChunk) :=
  selectChunksOfDocument documentId.

Definition storeChunksWithoutEmbeddings (documentId : nat)
    (chunks : list TextChunker.TextChunk) : M unit :=
  batchInsertChunks
    (map (fun chunk =>
            {| chunk_id := 0; document_id := documentId;
               chunk_index := TextChunker.chunk_index chunk;
               content := TextChunker.content chunk;
               content_tokens := TextChunker.content_tokens chunk;
               embedding := None;
               metadata := JsonMetadata (TextChunker.metadata chunk) |})
       chunks).

(** Steps 4 to 10 of [processDocument], run once [document] is set. *)
Definition pipeline (document : Document) (filePath mimeType : jsstring)
    (generateEmbeddings : bool) (chunkOptions : TextChunker.ChunkOptions)
    (extractionOptions : ExtractionOptions) : M DocumentProcessingResult :=
  do _ <- updateDocumentStatus (id document) processing ;
  do extractionResult <-
    liftE (extractText filePath mimeType extractionOptions) ;
  if EmbeddingService.isBlank (extracted_content extractionResult)
  then throw (JsError (lit
         "No text content could be extracted from the document"))
  else
    let textChunks :=
      TextChunker.chunkText (extracted_content extractionResult)
        (pipelineChunkOptions chunkOptions) in
    match textChunks with
    | [] => throw (JsError (lit
        "Document could not be chunked - content may be too short"))
    | _ =>
      do embeddingResult <-
        (if generateEmbeddings
         then
           do r <- EmbeddingService.generateEmbeddings provider
                     (map (fun chunk =>
                             {| EmbeddingService.input_content :=
                                  TextChunker.content chunk;
                                EmbeddingService.input_chunk_index :=
                                  TextChunker.chunk_index chunk |})
                        textChunks)
                     EmbeddingService.noOptions ;
           do _ <- EmbeddingService.storeEmbeddings (id document)
                     (map (fun chunk =>
                             {| EmbeddingService.store_content :=
                                  TextChunker.content chunk;
                                EmbeddingService.store_chunk_index :=
                                  TextChunker.chunk_index chunk;
                                EmbeddingService.store_content_tokens :=
                                  TextChunker.content_tokens chunk;
                                EmbeddingService.store_metadata :=
                                  Some (TextChunker.metadata chunk) |})
                        textChunks)
                     (EmbeddingService.embeddings r) ;
           ret (Some r)
         else
           do _ <- storeChunksWithoutEmbeddings (id document) textChunks ;
           ret None) ;
      do _ <- updateDocumentProcessing (id document) completed
                (Z.of_nat (length textChunks)) ;
      do finalDocument <- findDocumentById (id document) ;
      do storedChunks <- getDocumentChunks (id document) ;
      ret {| document := finalDocument;
             chunks := Some storedChunks;
             extraction_result := Some extractionResult;
             embedding_result := embeddingResult;
             success := true;
             error := None |}
    end.

(** The [catch] block of [processDocument]; [document] is the variable
    of that name, [None] while it is still [null]. *)
Definition onFailure (document : option Document) (error : Thrown)
    : M DocumentProcessingResult :=
  do _ <- (match document with
           | Some d => updateDocumentStatus (id d) failed
           | None => ret tt
           end) ;
  ret (failure document (errorMessage error)).

(** [processDocument].  The [try] block is cut where [document] is
    assigned: what is thrown before reaches the [catch] block with
    [document] still [null], what is thrown after with the created row.
    Nothing thrown inside the [catch] block is caught again. *)
Definition processDocument (filePath originalName userId
    mimeType : jsstring) (fileSize : Z) (title : option jsstring)
    (options : DocumentProcessingOptions) : M DocumentProcessingResult :=
  let generateEmbeddings := default true (generateEmbeddings options) in
  let chunkOptions := default TextChunker.noOptions (chunkOptions options) in
  let extractionOptions :=
    default {| preserveFormatting := None; maxLength := None |}
      (extractionOptions options) in
  fun w =>
    match
      (do contentHash <- calculateFileHash filePath ;
       do existingDoc <- findDocumentByHash contentHash userId ;
       match existingDoc with
       | Some d =>
         ret (inl {| document := Some d; chunks := None;
                     extraction_result := None; embedding_result := None;
                     success := true; error := None |})
       | None =>
         do document <- createDocumentRecord filePath originalName userId
                          mimeType fileSize contentHash title ;
         ret (inr document)
       end) w
    with
    | (Ok (inl result), w1) => (Ok result, w1)
    | (Ok (inr document), w1) =>
      match pipeline document filePath mimeType generateEmbeddings
              chunkOptions extractionOptions w1 with
      | (Throw error, w2) => onFailure (Some document) error w2
      | r => r
      end
    | (Throw error, w1) => onFailure None error w1
    | (Diverge, w1) => (Diverge, w1)
    end.

Definition reprocessDocument (documentId : nat) (userId : jsstring)
    (force : bool) : M ReprocessResult :=
  tryCatch
    (do document <- selectDocumentOfUser documentId userId ;
     match document with
     | [] => throw (JsError (lit "Document not found or access denied"))
     | d :: _ =>
       if negb (status_eqb (processing_status d) completed) && negb force
       then throw (JsError (lit
              "Document must be in completed status to reprocess"))
       else
         do result <-
           EmbeddingService.updateEmbeddings provider documentId force ;
         ret {| reprocess_success := true;
                reprocess_cost := snd result;
                chunks_updated := fst result |}
     end)
    (fun error => throw error).

End WithCollaborators.

End DocumentService.

(** ** services/VectorSearchService.ts *)

Module VectorSearchService.
Import Db DbOps.

(** [LIMIT] takes a count; scores and weights are exact rationals. *)
Record SearchOptions := {
  limit : option nat;
  similarity_threshold : option Qc;
  include_metadata : option bool;
  filter_document_ids : option (list nat);
  exclude_document_ids : option (list nat)
}.

Record HybridSearchOptions := {
  search : SearchOptions;
  keyword_weight : option Qc;
  semantic_weight : option Qc;
  keyword_boost : option Qc
}.

Record SearchResult := {
  chunk_id : nat;
  document_id : nat;
  document_title : jsstring;
  document_filename : jsstring;
  chunk_index : nat;
  content : jsstring;
  similarity_score : Qc;
  metadata : Json
}.

Inductive SearchType := semantic | hybrid | keyword.

Record SearchResponse := {
  results : list SearchResult;
  total_results : nat;
  query : jsstring;
  search_type : SearchType;
  response_threshold : Qc
}.

Definition Qc_leb (x y : Qc) : bool := Qle_bool x y.

(** [Math.round(x)]: the nearest integer, a half going up. *)
Definition Math_round (x : Qc) : Z := Qfloor (x + Q2Qc (1 # 2))%Qc.

(** [Math.round(x * 10000) / 10000] *)
Definition round4 (x : Qc) : Qc :=
  (Q2Qc (inject_Z (Math_round (x * Q2Qc (inject_Z 10000))))
   / Q2Qc (inject_Z 10000))%Qc.

Definition formatSearchResult (r : SearchResult) : SearchResult :=
  {| chunk_id := chunk_id r; document_id := document_id r;
     document_title := document_title r;
     document_filename := document_filename r;
     chunk_index := chunk_index r; content := content r;
     similarity_score := round4 (similarity_score r);
     metadata := metadata r |}.

(** [ORDER BY]: a stable insertion sort; [leb x y] tells that [x] may
    stand before [y].  Rows with equal keys keep the order in which the
    query produced them, which is the order of the rows in the lists of
    the store; SQL leaves that order open, so a property that depends on
    it is stated for every order of the rows of the tables. *)
Fixpoint insertBy {A} (leb : A -> A -> bool) (x : A) (l : list A) : list A :=
  match l with
  | [] => [x]
  | y :: l' => if leb x y then x :: l else y :: insertBy leb x l'
  end.

Definition orderBy {A} (leb : A -> A -> bool) (l : list A) : list A :=
  fold_right (insertBy leb) [] l.

(** [dc.document_id = ANY($n)] when the list is given and not empty. *)
Definition passesFilter (ids : option (list nat)) (docId : nat) : bool :=
  match ids with
  | Some (i :: l) => existsb (Nat.eqb docId) (i :: l)
  | _ => true
  end.

(** [dc.document_id != ALL($n)] when the list is given and not empty. *)
Definition passesExclude (ids : option (list nat)) (docId : nat) : bool :=
  match ids with
  | Some (i :: l) => negb (existsb (Nat.eqb docId) (i :: l))
  | _ => true
  end.

(** [FROM document_chunks dc JOIN documents d ON dc.document_id = d.id] *)
Definition joinChunksDocuments (s : Store)
    : list (DocumentChunk * Document) :=
  flat_map
    (fun dc =>
       map (pair dc)
         (List.filter (fun d => (Db.document_id dc =? id d)%nat)
            (documents s)))
    (document_chunks s).

(** [WHERE d.user_id = $2 AND d.processing_status = 'completed'] *)
Definition ownedCompleted (userId : jsstring)
    (row : DocumentChunk * Document) : bool :=
  TextChunker.jsstring_eqb (user_id (snd row)) userId
  && status_eqb (processing_status (snd row)) completed.

(** [AND dc.embedding IS NOT NULL], keeping the vector at hand. *)
Definition withEmbedding (rows : list (DocumentChunk * Document))
    : list (DocumentChunk * Document * list Qc) :=
  flat_map
    (fun row =>
       match embedding (fst row) with
       | Some v => [(row, v)]
       | None => []
       end)
    rows.

(** The [SELECT] list, with the score in [similarity_score]. *)
Definition selectRow (includeMetadata : bool)
    (row : DocumentChunk * Document) (score : Qc) : SearchResult :=
  {| chunk_id := Db.chunk_id (fst row);
     document_id := Db.document_id (fst row);
     document_title := title (snd row);
     document_filename := filename (snd row);
     chunk_index := Db.chunk_index (fst row);
     content := Db.content (fst row);
     similarity_score := score;
     metadata := if includeMetadata then Db.metadata (fst row)
                 else JsonNull |}.

Definition setScore (r : SearchResult) (score : Qc) : SearchResult :=
  {| chunk_id := chunk_id r; document_id := document_id r;
     document_title := document_title r;
     document_filename := document_filename r;
     chunk_index := chunk_index r; content := content r;
     similarity_score := score; metadata := metadata r |}.

Definition asciiLower (c : N) : N :=
  if isUpper c then (c + 32)%N else c.

(** [/\w/] on one code unit. *)
Definition isWordChar (c : N) : bool :=
  (isAlpha c || ((48 <=? c) && (c <=? 57)) || (c =? 95))%N.

Definition stopWords : list jsstring :=
  map lit ["the"; "a"; "an"; "and"; "or"; "but"; "in"; "on"; "at"; "to";
           "for"; "of"; "with"; "by"; "is"; "are"; "was"; "were"; "be";
           "been"; "have"; "has"; "had"; "do"; "does"; "did"; "will";
           "would"; "could"; "should"]%string.

Definition isStopWord (word : jsstring) : bool :=
  existsb (TextChunker.jsstring_eqb word) stopWords.

(** [extractKeywords]; [toLowerCase] is modelled on ASCII letters, other
    code units stay as they are. *)
Definition extractKeywords (query : jsstring) : list jsstring :=
  List.filter (fun word => negb (isStopWord word))
    (List.filter (fun word => 2 <? len word)
       (split re_spaces
          (map (fun c => if isWordChar c || isWhiteSpace c then c
                         else 32%N)
             (map asciiLower query)))).

(** [keywords.map(keyword => `${keyword}:*`).join(' | ')] *)
Fixpoint buildTsQuery (keywords : list jsstring) : jsstring :=
  match keywords with
  | [] => []
  | [k] => k ++ lit ":*"
  | k :: rest => k ++ lit ":*" ++ lit " | " ++ buildTsQuery rest
  end.

Section WithCollaborators.

Variable provider : EmbeddingService.Provider.

(** pgvector's cosine distance [a <=> b]; the similarity is one minus
    it. *)
Variable distance : list Qc -> list Qc -> Qc.

(** [ts_rank_cd(to_tsvector('english', content),
                to_tsquery('english', q))] *)
Variable ts_rank_cd : jsstring -> jsstring -> Qc.

(** [to_tsvector('english', content) @@ to_tsquery('english', q)] *)
Variable ts_match : jsstring -> jsstring -> bool.

(** The query of [semanticSearch]. *)
Definition semanticQuery (queryEmbedding : list Qc) (userId : jsstring)
    (includeMetadata : bool) (filterIds excludeIds : option (list nat))
    (threshold : Qc) (limit : nat) (s : Store) : list SearchResult :=
  let rows :=
    List.filter
      (fun r =>
         ownedCompleted userId (fst r)
         && passesFilter filterIds (Db.document_id (fst (fst r)))
         && passesExclude excludeIds (Db.document_id (fst (fst r)))
         && Qc_leb threshold (1 - distance (snd r) queryEmbedding)%Qc)
      (withEmbedding (joinChunksDocuments s)) in
  let ordered :=
    orderBy (fun a b => Qc_leb (distance (snd a) queryEmbedding)
                          (distance (snd b) queryEmbedding)) rows in
  map (fun r => selectRow includeMetadata (fst r)
                  (1 - distance (snd r) queryEmbedding)%Qc)
    (take limit ordered).

Definition semanticSearch (query userId : jsstring)
    (options : SearchOptions) : M SearchResponse :=
  let limit := default 10%nat (limit options) in
  let similarity_threshold :=
    default (Q2Qc (7 # 10)) (similarity_threshold options) in
  let include_metadata := default true (include_metadata options) in
  tryCatch
    (do queryEmbedding <-
       EmbeddingService.generateQueryEmbedding provider query
         EmbeddingService.defaultModel ;
     do s <- getStore ;
     let results :=
       semanticQuery queryEmbedding userId include_metadata
         (filter_document_ids options) (exclude_document_ids options)
         similarity_threshold limit s in
     ret {| results := map formatSearchResult results;
            total_results := length results;
            query := query;
            search_type := semantic;
            response_threshold := similarity_threshold |})
    (fun error =>
       throw (JsError (lit "Semantic search failed: "
                       ++ errorMessage error))).

(** The common table expression [semantic_scores]. *)
Definition semantic_scores (queryEmbedding : list Qc) (userId : jsstring)
    (includeMetadata : bool) (s : Store) : list SearchResult :=
  map (fun r => selectRow includeMetadata (fst r)
                  (1 - distance (snd r) queryEmbedding)%Qc)
    (List.filter (fun r => ownedCompleted userId (fst r))
       (withEmbedding (joinChunksDocuments s))).

(** The common table expression [keyword_scores]: chunk id and score. *)
Definition keyword_scores (tsQuery userId : jsstring) (boost : Qc)
    (s : Store) : list (nat * Qc) :=
  map (fun r => (Db.chunk_id (fst r),
                 (ts_rank_cd (Db.content (fst r)) tsQuery * boost)%Qc))
    (List.filter
       (fun r => ownedCompleted userId r
                 && ts_match (Db.content (fst r)) tsQuery)
       (joinChunksDocuments s)).

(** [semantic_scores s LEFT JOIN keyword_scores k
     ON s.chunk_id = k.chunk_id] *)
Definition leftJoin (ss : list SearchResult) (ks : list (nat * Qc))
    : list (SearchResult * option Qc) :=
  flat_map
    (fun srow =>
       match List.filter (fun k => (chunk_id srow =? fst k)%nat) ks with
       | [] => [(srow, None)]
       | matches => map (fun k => (srow, Some (snd k))) matches
       end)
    ss.

(** The query of [hybridSearch]. *)
Definition hybridQuery (queryEmbedding : list Qc) (userId tsQuery : jsstring)
    (keywordBoost semanticWeight keywordWeight : Qc)
    (includeMetadata : bool) (filterIds excludeIds : option (list nat))
    (threshold : Qc) (limit : nat) (s : Store) : list SearchResult :=
  let joined :=
    leftJoin (semantic_scores queryEmbedding userId includeMetadata s)
      (keyword_scores tsQuery userId keywordBoost s) in
  let rows :=
    List.filter
      (fun r =>
         Qc_leb threshold (similarity_score (fst r))
         && passesFilter filterIds (document_id (fst r))
         && passesExclude excludeIds (document_id (fst r)))
      joined in
  let scored :=
    map (fun r =>
           setScore (fst r)
             (similarity_score (fst r) * semanticWeight
              + default (Q2Qc 0) (snd r) * keywordWeight)%Qc)
      rows in
  take limit
    (orderBy (fun a b => Qc_leb (similarity_score b) (similarity_score a))
       scored).

Definition hybridSearch (query userId : jsstring)
    (options : HybridSearchOptions) : M SearchResponse :=
  let limit := default 10%nat (limit (search options)) in
  let similarity_threshold :=
    default (Q2Qc (1 # 2)) (similarity_threshold (search options)) in
  let keyword_weight := default (Q2Qc (3 # 10)) (keyword_weight options) in
  let semantic_weight :=
    default (Q2Qc (7 # 10)) (semantic_weight options) in
  let keyword_boost := default (Q2Qc (12 # 10)) (keyword_boost options) in
  let include_metadata :=
    default true (include_metadata (search options)) in
  tryCatch
    (do queryEmbedding <-
       EmbeddingService.generateQueryEmbedding provider query
         EmbeddingService.defaultModel ;
     let queryTerms := extractKeywords query in
     let tsQuery := buildTsQuery queryTerms in
     do s <- getStore ;
     let results :=
       hybridQuery queryEmbedding userId tsQuery keyword_boost
         semantic_weight keyword_weight include_metadata
         (filter_document_ids (search options))
         (exclude_document_ids (search options))
         similarity_threshold limit s in
     ret {| results := map formatSearchResult results;
            total_results := length results;
            query := query;
            search_type := hybrid;
            response_threshold := similarity_threshold |})
    (fun error =>
       throw (JsError (lit "Hybrid search failed: "
                       ++ errorMessage error))).

End WithCollaborators.

End VectorSearchService.

(** ** Sample data *)

Module Examples.
Import Db EmbeddingService.

(** The token count a provider reports for its input: the heuristic of
    four code units per token. *)
Definition tokensOf (input : list jsstring) : Z :=
  fold_right (fun s t => (len s + 3) / 4 + t) 0 input.

(** A provider that answers the calls whose number [up] accepts, with a
    two-dimensional vector per input, and is down for the others. *)
Definition scripted (up : nat -> bool) : Provider :=
  fun n model input =>
    if up n
    then ProviderOk
           (map (fun s => [Q2Qc (inject_Z (len s)); Q2Qc 1]) input)
           (tokensOf input)
    else ProviderFail (lit "rate limit exceeded").

(** Fails twice, then works. *)
Definition flaky : Provider := scripted (fun n => (2 <=? n)%nat).

(** Answers the first call only. *)
Definition onceThenDown : Provider := scripted (fun n => (n =? 0)%nat).

(** Always works. *)
Definition steady : Provider := scripted (fun _ => true).

Definition emptyStore : Store :=
  {| documents := []; document_chunks := []; next_id := 1 |}.

Definition world0 : World := {| store := emptyStore; trace := [] |}.

Definition firstChunk : ChunkInput :=
  {| input_content := lit "hello world"; input_chunk_index := 0 |}.

Definition twoChunks : list ChunkInput :=
  [firstChunk;
   {| input_content := lit "second chunk"; input_chunk_index := 1 |}].

Definition oneByOne (attempts : Z) (m : option jsstring)
    : EmbeddingOptions :=
  {| batchSize := Some 1; model := m; retryAttempts := Some attempts;
     retryDelay := None |}.

(** Never works. *)
Definition down : Provider := scripted (fun _ => false).

(** Two uploaded files: a note too short to chunk and a report. *)
Definition notePath : jsstring := lit "/uploads/note.txt".
Definition reportPath : jsstring := lit "/uploads/report.txt".

Definition noteText : jsstring := lit "A. B. C.".

Definition reportText : jsstring :=
  lit ("The quarterly report covers revenue, costs and the outlook. "
       ++ "Revenue grew in every region. Costs stayed flat. "
       ++ "The outlook for the next quarter is stable.")%string.

Definition manualPath : jsstring := lit "/uploads/manual.txt".

(** Two paragraphs. *)
Definition manualText : jsstring :=
  lit ("Install the reader from the package archive and start it once "
       ++ "so that it can create its settings folder. "
       ++ "The first start takes a little longer than the later ones.")%string
  ++ [10; 10]%N
  ++ lit ("Open a document with the file menu or drop it on the window. "
       ++ "The reader keeps the last twenty documents in its history "
       ++ "list.")%string.

Definition bytesOf (s : jsstring) : list Byte.byte :=
  flat_map (fun c => match Byte.of_N c with Some b => [b] | None => [] end)
    s.

Definition sampleReadFile (path : jsstring) : option (list Byte.byte) :=
  if TextChunker.jsstring_eqb path notePath then Some (bytesOf noteText)
  else if TextChunker.jsstring_eqb path reportPath
       then Some (bytesOf reportText)
       else if TextChunker.jsstring_eqb path manualPath
            then Some (bytesOf manualText)
            else None.

(** A stand-in for the digest: the bytes themselves, as code units. *)
Definition sampleDigest (bytes : list Byte.byte) : jsstring :=
  map Byte.to_N bytes.

(** A stand-in for the extractor of plain text: the bytes as code units. *)
Definition sampleExtract (path mime : jsstring)
    (o : DocumentService.ExtractionOptions)
    : Thrown + DocumentService.ExtractionResult :=
  match sampleReadFile path with
  | Some bytes =>
    inr {| DocumentService.extracted_content := map Byte.to_N bytes;
           DocumentService.wordCount :=
             Z.of_nat (TextChunker.countWords (map Byte.to_N bytes));
           DocumentService.characterCount := Z.of_nat (length bytes) |}
  | None => inl (JsError (lit "Failed to extract text from file"))
  end.

Definition samplePathName (name : jsstring) : jsstring := name.

Definition alice : jsstring := lit "user-alice".
Definition textPlain : jsstring := lit "text/plain".

Definition defaultProcessing : DocumentService.DocumentProcessingOptions :=
  {| DocumentService.generateEmbeddings := None;
     DocumentService.chunkOptions := None;
     DocumentService.extractionOptions := None |}.

(** Chunks of at most 200 code units with an overlap of 20. *)
Definition smallChunks : DocumentService.DocumentProcessingOptions :=
  {| DocumentService.generateEmbeddings := None;
     DocumentService.chunkOptions :=
       Some {| TextChunker.maxChunkSize_opt := Some 200;
               TextChunker.chunkOverlap_opt := Some 20;
               TextChunker.preserveSentences_opt := None;
               TextChunker.preserveParagraphs_opt := None;
               TextChunker.minChunkSize_opt := None;
               TextChunker.separators_opt := None |};
     DocumentService.extractionOptions := None |}.

(** A provider of query embeddings: the first axis of the plane. *)
Definition axisProvider : Provider :=
  fun _ _ input => ProviderOk (map (fun _ => [Q2Qc 1; Q2Qc 0]) input) 1.

Definition dot (a b : list Qc) : Qc :=
  fold_right Qcplus (Q2Qc 0) (zip_with Qcmult a b).

(** The square root of a rational that is the square of a rational. *)
Definition sqrtQc (x : Qc) : Qc :=
  Q2Qc (Z.sqrt (Qnum x) # Pos.sqrt (Qden x)).

(** Cosine distance, exact on vectors whose lengths are rational, as the
    ones of the samples are. *)
Definition cosineDistance (a b : list Qc) : Qc :=
  (1 - dot a b / (sqrtQc (dot a a) * sqrtQc (dot b b)))%Qc.

(** Stand-ins for the text search of the database: a chunk matches when
    it contains the first query term, and ranks by its length. *)
Fixpoint contains (s p : jsstring) : bool :=
  startsWith p s
  || match s with
     | [] => false
     | _ :: s' => contains s' p
     end.

Definition sampleMatch (content tsQuery : jsstring) : bool :=
  match tsQuery with
  | [] => false
  | _ => contains content (takeWhile (fun c => negb (c =? 58)%N) tsQuery)
  end.

Definition sampleRank (content tsQuery : jsstring) : Qc :=
  Q2Qc (inject_Z (len content) / 100).

(** One completed manual of two chunks, whose embeddings make the angles
    of the triangles 5-12-13 and 3-4-5 with the first axis. *)
Definition searchStore : Store :=
  {| documents :=
       [{| id := 1; user_id := alice; title := lit "Manual";
           filename := lit "manual.txt"; file_path := manualPath;
           file_type := textPlain; file_size := 289;
           content_hash := lit "c0ffee"; processing_status := completed;
           chunk_count := 2 |}];
     document_chunks :=
       [{| chunk_id := 2; document_id := 1; chunk_index := 0;
           content := lit "Install the reader from the package archive.";
           content_tokens := 11;
           Db.embedding := Some [Q2Qc 5; Q2Qc 12];
           metadata := JsonEmptyObject |};
        {| chunk_id := 3; document_id := 1; chunk_index := 1;
           content := lit "Open a document with the file menu.";
           content_tokens := 9;
           Db.embedding := Some [Q2Qc 3; Q2Qc 4];
           metadata := JsonEmptyObject |}];
     next_id := 4 |}.

Definition searchWorld : World := {| store := searchStore; trace := [] |}.

Definition searchOptions (threshold : Qc)
    : VectorSearchService.SearchOptions :=
  {| VectorSearchService.limit := None;
     VectorSearchService.similarity_threshold := Some threshold;
     VectorSearchService.include_metadata := None;
     VectorSearchService.filter_document_ids := None;
     VectorSearchService.exclude_document_ids := None |}.

(** No embeddings asked for. *)
Definition withoutEmbeddings : DocumentService.DocumentProcessingOptions :=
  {| DocumentService.generateEmbeddings := Some false;
     DocumentService.chunkOptions := None;
     DocumentService.extractionOptions := None |}.

(** [smallChunks] without embeddings. *)
Definition smallChunksPlain : DocumentService.DocumentProcessingOptions :=
  {| DocumentService.generateEmbeddings := Some false;
     DocumentService.chunkOptions := DocumentService.chunkOptions smallChunks;
     DocumentService.extractionOptions := None |}.

(** The world after the report was ingested without embeddings and its
    chunk rows were given embeddings from outside, and the world after
    the attempt to ingest it with a provider that is down. *)
Definition ingestedWorld : World :=
  let w :=
    snd (DocumentService.processDocument steady sampleReadFile sampleDigest
           sampleExtract samplePathName reportPath (lit "report.txt") alice
           textPlain 152 None withoutEmbeddings world0) in
  {| store :=
       {| documents := documents (store w);
          document_chunks :=
            map (fun c =>
                   DbOps.setEmbedding c
                     (Some [Q2Qc (inject_Z (len (Db.content c))); Q2Qc 1]))
              (document_chunks (store w));
          next_id := next_id (store w) |};
     trace := [] |}.

Definition failedWorld : World :=
  snd (DocumentService.processDocument down sampleReadFile sampleDigest
         sampleExtract samplePathName reportPath (lit "report.txt") alice
         textPlain 152 None defaultProcessing world0).

End Examples.

(** ** Vocabulary of the properties *)

Module ChunkerExamples.
Import TextChunker.

(** The options of the example: [maxChunkSize] 1000, [preserveSentences]
    true, and [minChunkSize] left out or given. *)
Definition sentenceExampleOptions (minSize : option Z) : ChunkOptions :=
  {| maxChunkSize_opt := Some 1000; chunkOverlap_opt := None;
     preserveSentences_opt := Some true; preserveParagraphs_opt := None;
     minChunkSize_opt := minSize; separators_opt := None |}.

Definition sentenceExampleChunk : TextChunk :=
  {| content := lit "A. B. C."; chunk_index := 0; start_position := 0;
     end_position := 8; content_tokens := 2;
     metadata := {| word_count := 3; character_count := 8;
                    paragraph_index := Some 0; section_title := None;
                    chunk_type := paragraph |} |}.

End ChunkerExamples.

Module EmbeddingSpec.
Import EmbeddingService.

(** The world after more events. *)
Definition addTrace (w : World) (t : list Event) : World :=
  {| store := store w; trace := trace w ++ t |}.

Definition withStore (w : World) (s : Db.Store) : World :=
  {| store := s; trace := trace w |}.

(** [m] neither reads nor writes the store: run in a world with another
    store, it gives the same outcome and the same events. *)
Definition storeFree {A} (m : M A) : Prop :=
  forall w s, m (withStore w s) = (fst (m w), withStore (snd (m w)) s).

(** [m] ends, by a value or by an exception, in every world. *)
Definition terminates {A} (m : M A) : Prop :=
  forall w, fst (m w) <> Diverge.

(** What an attempt of the batch gives when it is the provider's call
    number [n]. *)
Definition attemptAt (provider : Provider) (chunks : list ChunkInput)
    (model : jsstring) (inputs : list jsstring) (n : nat)
    : Thrown + (list EmbeddingResult * Z) :=
  match provider n model inputs with
  | ProviderFail msg => inl (JsError msg)
  | ProviderOk data total =>
    match zipEmbeddings data chunks
            (roundDiv total (Z.of_nat (length chunks))) with
    | inl e => inl e
    | inr es => inr (es, total)
    end
  end.

(** The attempt made as call number [n] fails. *)
Definition failsAt (provider : Provider) (chunks : list ChunkInput)
    (model : jsstring) (inputs : list jsstring) (n : nat) : Prop :=
  exists e, attemptAt provider chunks model inputs n = inl e.

(** [k] failed attempts, numbered from [attempt], each followed by its
    pause. *)
Fixpoint retryTrace (model : jsstring) (inputs : list jsstring)
    (retryDelay : Z) (attempt : Z) (k : nat) : list Event :=
  match k with
  | O => []
  | S k' =>
    ProviderCall model inputs :: Delay (retryDelay * attempt)
    :: retryTrace model inputs retryDelay (attempt + 1) k'
  end.

(** The variables of the loop over the batches. *)
Record LoopState := {
  at_index : Z;
  collected : list EmbeddingResult;
  tokensSoFar : Z;
  world : World
}.

(** The loop over the batches, run from a state. *)
Definition runLoop (provider : Provider) (validChunks : list ChunkInput)
    (actualBatchSize : Z) (model : jsstring) (retryAttempts retryDelay : Z)
    (fuel : nat) (st : LoopState)
    : Outcome (list EmbeddingResult * Z) * World :=
  batches_loop provider fuel validChunks actualBatchSize model
    retryAttempts retryDelay (at_index st) (collected st) (tokensSoFar st)
    (world st).

(** One turn of the loop whose batch succeeds. *)
Inductive batchStep (provider : Provider) (validChunks : list ChunkInput)
    (actualBatchSize : Z) (model : jsstring) (retryAttempts retryDelay : Z)
    : LoopState -> LoopState -> Prop :=
| batchStep_ok st r w1 :
    at_index st < Z.of_nat (length validChunks) ->
    processBatch provider
      (slice validChunks (at_index st) (at_index st + actualBatchSize))
      model retryAttempts retryDelay (world st) = (Ok r, w1) ->
    batchStep provider validChunks actualBatchSize model retryAttempts
      retryDelay st
      {| at_index := at_index st + actualBatchSize;
         collected := collected st ++ fst r;
         tokensSoFar := tokensSoFar st + snd r;
         world := if at_index st + actualBatchSize
                     <? Z.of_nat (length validChunks)
                  then addTrace w1 [Delay 100] else w1 |}.

End EmbeddingSpec.

Module DocumentSpec.
Import Db DbOps DocumentService.

(** The rows of [documents] with a given content hash and owner. *)
Definition sameContent (hash userId : jsstring) (d : Document) : bool :=
  TextChunker.jsstring_eqb (content_hash d) hash
  && TextChunker.jsstring_eqb (user_id d) userId.

(** The row [createDocumentRecord] inserts into the store [s]. *)
Definition created (sha256 : list Byte.byte -> jsstring)
    (pathName : jsstring -> jsstring)
    (filePath originalName userId mimeType : jsstring)
    (fileSize : Z) (title : option jsstring) (bytes : list Byte.byte)
    (s : Store) : Document :=
  {| id := next_id s; user_id := userId;
     title := match title with
              | Some (c :: t) => c :: t
              | _ => pathName originalName
              end;
     filename := originalName; file_path := filePath;
     file_type := mimeType; file_size := fileSize;
     content_hash := sha256 bytes; processing_status := pending;
     chunk_count := 0 |}.

(** The world once the row is inserted. *)
Definition afterCreate (w : World) (doc : Document) : World :=
  {| store := {| documents := documents (store w) ++ [doc];
                 document_chunks := document_chunks (store w);
                 next_id := S (next_id (store w)) |};
     trace := trace w |}.

(** The three options of [processDocument], with their defaults. *)
Definition optionsOf (options : DocumentProcessingOptions)
    : bool * TextChunker.ChunkOptions * ExtractionOptions :=
  (default true (generateEmbeddings options),
   default TextChunker.noOptions (chunkOptions options),
   default {| preserveFormatting := None; maxLength := None |}
     (extractionOptions options)).

(** The texts handed to the embedder in step 7. *)
Definition embeddingInputs (textChunks : list TextChunker.TextChunk)
    : list EmbeddingService.ChunkInput :=
  map (fun chunk =>
         {| EmbeddingService.input_content := TextChunker.content chunk;
            EmbeddingService.input_chunk_index :=
              TextChunker.chunk_index chunk |})
    textChunks.

(** The chunks handed to [storeEmbeddings] in step 8. *)
Definition storeInputs (textChunks : list TextChunker.TextChunk)
    : list EmbeddingService.StoreInput :=
  map (fun chunk =>
         {| EmbeddingService.store_content := TextChunker.content chunk;
            EmbeddingService.store_chunk_index :=
              TextChunker.chunk_index chunk;
            EmbeddingService.store_content_tokens :=
              TextChunker.content_tokens chunk;
            EmbeddingService.store_metadata :=
              Some (TextChunker.metadata chunk) |})
    textChunks.

(** [UPDATE documents SET processing_status = status WHERE id = n] *)
Definition markStatus (n : nat) (status : ProcessingStatus)
    (docs : list Document) : list Document :=
  map (fun d => if (id d =? n)%nat then setStatus d status else d) docs.

(** [INSERT INTO document_chunks] of [rows], with fresh keys. *)
Definition insertRows (s1 : Store) (rows : list DocumentChunk) : Store :=
  {| documents := documents s1;
     document_chunks :=
       document_chunks s1
       ++ imap (fun i c => withChunkId c (next_id s1 + i)) rows;
     next_id := (next_id s1 + length rows)%nat |}.

(** The store after steps 8 and 9: the chunk rows inserted, the document
    marked [completed] with its chunk count. *)
Definition completedStore (s1 : Store) (n : nat) (count : Z)
    (rows : list DocumentChunk) : Store :=
  {| documents :=
       map (fun d => if (id d =? n)%nat
                     then setChunkCount (setStatus d completed) count
                     else d)
         (documents s1);
     document_chunks :=
       document_chunks s1
       ++ imap (fun i c => withChunkId c (next_id s1 + i)) rows;
     next_id := (next_id s1 + length rows)%nat |}.

(** A chunk row stored for a chunk of the chunker. *)
Definition rowOf (docId : nat) (t : TextChunker.TextChunk)
    (c : DocumentChunk) : Prop :=
  document_id c = docId /\ chunk_index c = TextChunker.chunk_index t.

(** What an update of [documents] never changes. *)
Definition sameKeys (f : Document -> Document) : Prop :=
  forall d, id (f d) = id d /\ content_hash (f d) = content_hash d
            /\ user_id (f d) = user_id d.

(** How a run of [processDocument] on new content leaves the store. *)
Inductive Ingested (w : World) (doc : Document)
    (r : DocumentProcessingResult) (w' : World) : Prop :=
| ingest_failed f :
    sameKeys f ->
    documents (store w') = map f (documents (store w) ++ [doc]) ->
    document r = Some doc ->
    success r = false ->
    document_chunks (store w') = document_chunks (store w) ->
    next_id (store w') = S (next_id (store w)) ->
    Ingested w doc r w'
| ingest_completed f textChunks rows :
    sameKeys f ->
    documents (store w') = map f (documents (store w) ++ [doc]) ->
    document r
    = head (List.filter (fun d => (id d =? id doc)%nat)
              (documents (store w'))) ->
    success r = true ->
    (exists text options, textChunks = TextChunker.chunkText text options) ->
    Forall2 (rowOf (id doc)) textChunks rows ->
    document_chunks (store w')
    = document_chunks (store w)
      ++ imap (fun i c => withChunkId c (S (next_id (store w)) + i)) rows ->
    next_id (store w') = (S (next_id (store w)) + length rows)%nat ->
    Ingested w doc r w'.

(** Chunk rows refer to documents whose key was drawn before. *)
Definition wfStore (s : Store) : Prop :=
  Forall (fun c => (document_id c < next_id s)%nat) (document_chunks s).

(** For every document, the indices of its chunk rows are 0, ..., N-1. *)
Definition contiguous (s : Store) : Prop :=
  forall docId,
    map chunk_index (chunksOf s docId) = seq 0 (length (chunksOf s docId)).

(** [WHERE id = $1 AND user_id = $2] *)
Definition ownedBy (docId : nat) (userId : jsstring) (d : Document) : bool :=
  (id d =? docId)%nat && TextChunker.jsstring_eqb (user_id d) userId.

(** The chunks [updateEmbeddings] selects. *)
Definition selectedChunks (s : Store) (docId : nat) (force : bool)
    : list DocumentChunk :=
  if force then orderByIndex (chunksOf s docId)
  else List.filter EmbeddingService.lacksEmbedding
         (orderByIndex (chunksOf s docId)).

(** The chunk rows [reprocessDocument] may write to. *)
Definition selectedFor (docId : nat) (force : bool)
    (c : DocumentChunk) : Prop :=
  document_id c = docId
  /\ (force = true \/ EmbeddingService.lacksEmbedding c = true).

(** A chunk row after [reprocessDocument]: the row as it was, or the row
    with a new embedding. *)
Definition reembedded (P : DocumentChunk -> Prop)
    (c c' : DocumentChunk) : Prop :=
  c' = c \/ (P c /\ exists v, c' = setEmbedding c (Some v)).

End DocumentSpec.

Module RankingSpec.
Import Db DbOps VectorSearchService.






End RankingSpec.

(** ** utils/textChunking.ts: statistics *)

Module ChunkingStats.
Import TextChunker.

Record Stats := {
  total_chunks : nat;
  total_characters : Z;
  total_tokens : Z;
  avg_chunk_size : Z;
  avg_tokens_per_chunk : Z;
  min_chunk_size : Z;
  max_chunk_size : Z
}.

(** [arr.reduce((sum, x) => sum + x, 0)] *)
Definition sum (l : list Z) : Z := fold_left Z.add l 0.

(** [Math.min(...arr)] and [Math.max(...arr)] of an array with a first
    element. *)
Definition Math_min (x : Z) (l : list Z) : Z := fold_left Z.min l x.
Definition Math_max (x : Z) (l : list Z) : Z := fold_left Z.max l x.

Definition getChunkingStats (chunks : list TextChunk) : Stats :=
  match chunks with
  | [] =>
    {| total_chunks := 0; total_characters := 0; total_tokens := 0;
       avg_chunk_size := 0; avg_tokens_per_chunk := 0;
       min_chunk_size := 0; max_chunk_size := 0 |}
  | first :: rest =>
    let sizes := map (fun chunk => len (content chunk)) chunks in
    let tokens := map content_tokens chunks in
    {| total_chunks := length chunks;
       total_characters := sum sizes;
       total_tokens := sum tokens;
       avg_chunk_size :=
         EmbeddingService.roundDiv (sum sizes) (Z.of_nat (length chunks));
       avg_tokens_per_chunk :=
         EmbeddingService.roundDiv (sum tokens) (Z.of_nat (length chunks));
       min_chunk_size :=
         Math_min (len (content first))
           (map (fun chunk => len (content chunk)) rest);
       max_chunk_size :=
         Math_max (len (content first))
           (map (fun chunk => len (content chunk)) rest) |}
  end.

End ChunkingStats.

(** ** Vocabulary of the further properties *)

Module ChunkerSpec.
Import TextChunker.

(** A string without white space at either end. *)
Definition trimmed (s : jsstring) : Prop := trim s = s.

(** No space follows a space, and there is no tab: what
    [replace(/[ \t]+/g, ' ')] leaves.  [inRun] tells that the code unit
    in front is a space. *)
Fixpoint blanksCollapsed (s : jsstring) (inRun : bool) : bool :=
  match s with
  | [] => true
  | c :: s' =>
    if (c =? 9)%N then false
    else if (c =? 32)%N then negb inRun && blanksCollapsed s' true
    else blanksCollapsed s' false
  end.

(** No run of more than two line feeds; [seen] line feeds stand in
    front. *)
Fixpoint newlinesCollapsed (s : jsstring) (seen : nat) : bool :=
  match s with
  | [] => true
  | c :: s' =>
    if (c =? 10)%N then (seen <? 2)%nat && newlinesCollapsed s' (S seen)
    else newlinesCollapsed s' O
  end.

(** The options of a call that cuts by size only. *)
Definition bySize (maxSize overlap minSize : Z) : ChunkOptions :=
  {| maxChunkSize_opt := Some maxSize; chunkOverlap_opt := Some overlap;
     preserveSentences_opt := Some false;
     preserveParagraphs_opt := Some false;
     minChunkSize_opt := Some minSize; separators_opt := None |}.

End ChunkerSpec.

(** ** services/EmbeddingService.ts: the health check *)

Module EmbeddingHealth.
Import EmbeddingService.

Inductive Status := healthy | unhealthy.

Section WithProvider.

Variable provider : Provider.

(** [healthCheck]: the answer carries the status and the default
    model. *)
Definition healthCheck : M (Status * jsstring) :=
  tryCatch
    (do _ <- generateQueryEmbedding provider (lit "test") defaultModel ;
     ret (healthy, defaultModel))
    (fun error => ret (unhealthy, defaultModel)).

End WithProvider.

End EmbeddingHealth.

Module EmbedderSpec.
Import Db DbOps EmbeddingService.

(** The text [validateAndTruncateText] returns for a text that is not
    blank: the first [maxInputLength * 4] code units, trimmed. *)
Definition validated (text : jsstring) : jsstring :=
  trim (substring text 0 (maxInputLength * 4)).

Definition notBlank (chunk : ChunkInput) : bool :=
  negb (isBlank (input_content chunk)).

(** The chunk row [storeEmbeddings] writes for a chunk and its
    embedding, before the database draws its key. *)
Definition embeddedRow (documentId : nat) (chunk : StoreInput)
    (e : EmbeddingResult) : DocumentChunk :=
  {| chunk_id := 0; document_id := documentId;
     chunk_index := store_chunk_index chunk;
     content := store_content chunk;
     content_tokens := store_content_tokens chunk;
     Db.embedding := Some (embedding e);
     metadata := match store_metadata chunk with
                 | Some m => JsonMetadata m
                 | None => JsonEmptyObject
                 end |}.

(** A provider that answers every call with one vector per input. *)
Definition answersAll (provider : Provider) : Prop :=
  forall n model input,
    exists data total,
      provider n model input = ProviderOk data total
      /\ length data = length input.

(** The number of batches of [size] chunks that cover [n] chunks. *)
Definition batchCount (n size : Z) : Z := (n + size - 1) / size.

Definition batchOptions (size : Z) : EmbeddingOptions :=
  {| batchSize := Some size; model := None; retryAttempts := None;
     retryDelay := None |}.

End EmbedderSpec.

(** ** services/DocumentService.ts: reading, renaming and deleting *)

Module DocumentQueries.
Import Db DbOps.

Definition setTitle (d : Document) (t : jsstring) : Document :=
  {| id := id d; user_id := user_id d; title := t;
     filename := filename d; file_path := file_path d;
     file_type := file_type d; file_size := file_size d;
     content_hash := content_hash d;
     processing_status := processing_status d;
     chunk_count := chunk_count d |}.

(** [db.update('documents', id, data)] with what its [RETURNING *]
    gives: the row as it is after the update, [null] when there is
    none. *)
Definition updateReturning (docId : nat) (f : Document -> Document)
    : M (option Document) :=
  do _ <- updateDocuments docId f ;
  findDocumentById docId.

(** [db.delete('documents', id)]: [DELETE FROM documents WHERE id = $1].
    The chunk rows of the document go with it: [document_chunks] refers
    to [documents] with [ON DELETE CASCADE]. *)
Definition deleteDocumentRow (docId : nat) : M unit :=
  do s <- getStore ;
  putStore {| documents :=
                List.filter (fun d => negb (id d =? docId)%nat)
                  (documents s);
              document_chunks :=
                List.filter (fun c => negb (document_id c =? docId)%nat)
                  (document_chunks s);
              next_id := next_id s |}.

Definition getDocumentById (documentId : nat) (userId : jsstring)
    : M (option (Document * list DocumentChunk)) :=
  tryCatch
    (do document <- selectDocumentOfUser documentId userId ;
     match document with
     | [] => ret None
     | d :: _ =>
       do chunks <- DocumentService.getDocumentChunks documentId ;
       ret (Some (d, chunks))
     end)
    (fun error => throw error).

(** [updateDocument(documentId, userId, { title })], the call of the
    route: [updates] carries the new title. *)
Definition updateDocument (documentId : nat) (userId title : jsstring)
    : M (option Document) :=
  tryCatch
    (do existing <- selectDocumentOfUser documentId userId ;
     match existing with
     | [] => ret None
     | _ => updateReturning documentId (fun d => setTitle d title)
     end)
    (fun error => throw error).

(** [deleteDocument].  The file of the document is unlinked once the
    row is gone; the file system is outside the world of the model, and
    a failure of [fs.unlink] is caught and changes nothing. *)
Definition deleteDocument (documentId : nat) (userId : jsstring)
    : M bool :=
  tryCatch
    (do document <- selectDocumentOfUser documentId userId ;
     match document with
     | [] => ret false
     | _ =>
       do _ <- deleteDocumentRow documentId ;
       ret true
     end)
    (fun error => throw error).

End DocumentQueries.

Module IngestionSpec.
Import Db DbOps DocumentService.

(** The chunk row stored for a chunk when no embedding is asked for. *)
Definition plainRow (documentId : nat) (chunk : TextChunker.TextChunk)
    : DocumentChunk :=
  {| chunk_id := 0; document_id := documentId;
     chunk_index := TextChunker.chunk_index chunk;
     content := TextChunker.content chunk;
     content_tokens := TextChunker.content_tokens chunk;
     embedding := None;
     metadata := JsonMetadata (TextChunker.metadata chunk) |}.

(** The keys of the documents were drawn from the counter. *)
Definition freshKeys (s : Store) : Prop :=
  Forall (fun d => (id d < next_id s)%nat) (documents s).

(** The first row of [documents] with a key. *)
Definition documentAt (s : Store) (docId : nat) : option Document :=
  head (List.filter (fun d => (id d =? docId)%nat) (documents s)).

Definition bob : jsstring := lit "user-bob".

End IngestionSpec.

(** ** services/VectorSearchService.ts: context and scoped search *)

Module VectorSearchQueries.
Import Db DbOps VectorSearchService.

(** The options of [getDocumentContext]. *)
Record ContextOptions := {
  max_chunks : option nat;
  context_threshold : option Qc;
  conversation_id : option jsstring
}.

Record SourceChunk := {
  source_document_id : nat;
  source_document_title : jsstring;
  source_chunk_index : nat;
  source_similarity_score : Qc
}.

Record DocumentContext := {
  context : list jsstring;
  source_chunks : list SourceChunk;
  total_characters : Z
}.

Section WithCollaborators.

Variable provider : EmbeddingService.Provider.
Variable distance : list Qc -> list Qc -> Qc.

Definition getDocumentContext (query userId : jsstring)
    (options : ContextOptions) : M DocumentContext :=
  let max_chunks := default 5%nat (max_chunks options) in
  let similarity_threshold :=
    default (Q2Qc (7 # 10)) (context_threshold options) in
  do searchResult <-
    semanticSearch provider distance query userId
      {| limit := Some max_chunks;
         similarity_threshold := Some similarity_threshold;
         include_metadata := Some false;
         filter_document_ids := None;
         exclude_document_ids := None |} ;
  let context := map content (results searchResult) in
  let source_chunks :=
    map (fun result =>
           {| source_document_id := document_id result;
              source_document_title := document_title result;
              source_chunk_index := chunk_index result;
              source_similarity_score := similarity_score result |})
      (results searchResult) in
  let total_characters :=
    fold_left (fun sum text => sum + len text) context 0 in
  ret {| context := context;
         source_chunks := source_chunks;
         total_characters := total_characters |}.

(** [{ ...options, filter_document_ids: documentIds }] *)
Definition searchInDocuments (query : jsstring) (documentIds : list nat)
    (userId : jsstring) (options : SearchOptions) : M SearchResponse :=
  semanticSearch provider distance query userId
    {| limit := limit options;
       similarity_threshold := similarity_threshold options;
       include_metadata := include_metadata options;
       filter_document_ids := Some documentIds;
       exclude_document_ids := exclude_document_ids options |}.

End WithCollaborators.

End VectorSearchQueries.

Module SearchSpec.
Import Db DbOps VectorSearchService.

(** A chunk row and its document that a search of [userId] may show:
    the document is the user's and completed, the chunk has an
    embedding. *)
Definition searchable (s : Store) (userId : jsstring)
    (c : DocumentChunk) (d : Document) : Prop :=
  In c (document_chunks s) /\ In d (documents s)
  /\ Db.document_id c = id d
  /\ user_id d = userId
  /\ processing_status d = completed
  /\ embedding c <> None.

(** The search result shows the chunk [c] of the document [d]. *)
Definition shows (r : SearchResult) (c : DocumentChunk) (d : Document)
    : Prop :=
  chunk_id r = Db.chunk_id c /\ document_id r = id d
  /\ chunk_index r = Db.chunk_index c /\ content r = Db.content c
  /\ document_title r = title d /\ document_filename r = filename d.

(** The keyword score the hybrid query gives a chunk: its rank,
    boosted, when its text matches the query, and zero when there is no
    row of [keyword_scores] for it. *)
Definition keywordScore (ts_rank_cd : jsstring -> jsstring -> Qc)
    (ts_match : jsstring -> jsstring -> bool) (tsQuery : jsstring)
    (boost : Qc) (c : DocumentChunk) : Qc :=
  if ts_match (Db.content c) tsQuery
  then (ts_rank_cd (Db.content c) tsQuery * boost)%Qc
  else Q2Qc 0.

Definition filterOptions (ids : list nat) : SearchOptions :=
  {| limit := None; similarity_threshold := Some (Q2Qc (3 # 10));
     include_metadata := None; filter_document_ids := Some ids;
     exclude_document_ids := None |}.

Definition hybridOptions (threshold : Qc) : HybridSearchOptions :=
  {| search := Examples.searchOptions threshold;
     keyword_weight := None; semantic_weight := None;
     keyword_boost := None |}.

End SearchSpec.

(** ** services/TextExtractionService.ts *)

Module TextExtractionService.
Import DocumentService.

(** [s.replace(/\s+/g, ' ')]: [inRun] tells that the previous code unit
    belonged to the run being replaced. *)
Fixpoint collapse_whitespace (s : jsstring) (inRun : bool) : jsstring :=
  match s with
  | [] => []
  | c :: s' =>
    if isWhiteSpace c
    then (if inRun then collapse_whitespace s' true
          else 32%N :: collapse_whitespace s' true)
    else c :: collapse_whitespace s' false
  end.

(** [cleanText(text, preserveFormatting = false)] *)
Definition cleanText (text : jsstring) (preserveFormatting : bool)
    : jsstring :=
  match text with
  | [] => []
  | _ =>
    if negb preserveFormatting
    then trim (collapse_whitespace text false)
    else collapse_newlines (replace_cr (replace_crlf text)) O
  end.

Definition countWords (text : jsstring) : Z :=
  match text with
  | [] => 0
  | _ => Z.of_nat (TextChunker.countWords text)
  end.

(** The extractors of [supportedTypes]. *)
Inductive Extractor :=
| extractPDF | extractDOC | extractDOCX | extractTXT | extractMarkdown.

Definition mimePDF : jsstring := lit "application/pdf".
Definition mimeDOC : jsstring := lit "application/msword".
Definition mimeDOCX : jsstring :=
  lit ("application/vnd.openxmlformats-officedocument."
       ++ "wordprocessingml.document")%string.
Definition mimeTXT : jsstring := lit "text/plain".
Definition mimeMarkdown : jsstring := lit "text/markdown".
Definition mimeEmpty : jsstring := lit "application/x-empty".

(** [Object.keys(this.supportedTypes)] *)
Definition getSupportedTypes : list jsstring :=
  [mimePDF; mimeDOC; mimeDOCX; mimeTXT; mimeMarkdown; mimeEmpty].

(** The own properties of [supportedTypes]. *)
Definition ownExtractor (mimeType : jsstring) : option Extractor :=
  if TextChunker.jsstring_eqb mimeType mimePDF then Some extractPDF
  else if TextChunker.jsstring_eqb mimeType mimeDOC then Some extractDOC
  else if TextChunker.jsstring_eqb mimeType mimeDOCX then Some extractDOCX
  else if TextChunker.jsstring_eqb mimeType mimeTXT then Some extractTXT
  else if TextChunker.jsstring_eqb mimeType mimeMarkdown
       then Some extractMarkdown
  else if TextChunker.jsstring_eqb mimeType mimeEmpty then Some extractTXT
  else None.

(** The properties [supportedTypes], an object literal, inherits from
    [Object.prototype]: [supportedTypes[name]] is not [undefined] for
    them, and [name in supportedTypes] holds. *)
Definition inheritedNames : list jsstring :=
  map lit ["constructor"; "__defineGetter__"; "__defineSetter__";
           "hasOwnProperty"; "__lookupGetter__"; "__lookupSetter__";
           "isPrototypeOf"; "propertyIsEnumerable"; "toString"; "valueOf";
           "__proto__"; "toLocaleString"]%string.

Definition inherited (name : jsstring) : bool :=
  existsb (TextChunker.jsstring_eqb name) inheritedNames.

(** [mimeType in this.supportedTypes] *)
Definition isTypeSupported (mimeType : jsstring) : bool :=
  match ownExtractor mimeType with
  | Some _ => true
  | None => inherited mimeType
  end.

(** The result of an extractor for the text it has cleaned. *)
Definition extracted (content : jsstring) : ExtractionResult :=
  {| extracted_content := content;
     wordCount := countWords content;
     characterCount := len content |}.

(** [if (options.maxLength && result.content.length > options.maxLength)]:
    the content is cut and [characterCount] is set; [wordCount] stays. *)
Definition applyMaxLength (result : ExtractionResult)
    (options : ExtractionOptions) : ExtractionResult :=
  match maxLength options with
  | Some m =>
    if negb (m =? 0) && (m <? len (extracted_content result))
    then {| extracted_content := substring (extracted_content result) 0 m;
            wordCount := wordCount result;
            characterCount := m |}
    else result
  | None => result
  end.

Section WithCollaborators.

(** [fs.readFile(filePath)] *)
Variable readFile : jsstring -> option (list Byte.byte).

(** [buffer.toString('utf8')] *)
Variable utf8 : list Byte.byte -> jsstring.

(** [pdfParse(buffer)], of which [data.text] is kept, and
    [mammoth.extractRawText({ buffer })], of which [result.value] is. *)
Variable pdfParse : list Byte.byte -> Thrown + jsstring.
Variable extractRawText : list Byte.byte -> Thrown + jsstring.

(** [fileTypeFromBuffer(buffer)]: the MIME type detected, if any. *)
Variable fileTypeFromBuffer : list Byte.byte -> option jsstring.

(** The message of the [TypeError] that ends an attempt to use an
    inherited property of [supportedTypes] as an extractor; it is the
    engine's. *)
Variable typeErrorMessage : jsstring -> jsstring.

Definition runExtractor (extractor : Extractor) (buffer : list Byte.byte)
    (options : ExtractionOptions) : Thrown + ExtractionResult :=
  match extractor with
  | extractPDF =>
    match pdfParse buffer with
    | inl error =>
      inl (JsError (lit "PDF extraction failed: " ++ errorMessage error))
    | inr text =>
      inr (extracted
             (cleanText text (default false (preserveFormatting options))))
    end
  | extractDOCX =>
    match extractRawText buffer with
    | inl error =>
      inl (JsError (lit "DOCX extraction failed: " ++ errorMessage error))
    | inr text =>
      inr (extracted
             (cleanText text (default false (preserveFormatting options))))
    end
  | extractDOC | extractTXT =>
    inr (extracted
           (cleanText (utf8 buffer)
              (default false (preserveFormatting options))))
  | extractMarkdown =>
    (* [options.preserveFormatting !== false] *)
    inr (extracted
           (cleanText (utf8 buffer)
              (default true (preserveFormatting options))))
  end.

Definition extractText (filePath mimeType : jsstring)
    (options : ExtractionOptions) : Thrown + ExtractionResult :=
  let attempt : Thrown + ExtractionResult :=
    match readFile filePath with
    | None => inl (JsError (lit "ENOENT: no such file or directory"))
    | Some buffer =>
      let mimeType :=
        match mimeType with
        | [] =>
          match fileTypeFromBuffer buffer with
          | Some (c :: mime) => c :: mime
          | _ => mimeTXT
          end
        | _ => mimeType
        end in
      match ownExtractor mimeType with
      | Some extractor =>
        match runExtractor extractor buffer options with
        | inl error => inl error
        | inr result => inr (applyMaxLength result options)
        end
      | None =>
        if inherited mimeType
        then inl (JsError (typeErrorMessage mimeType))
        else inl (JsError (lit "Unsupported file type: " ++ mimeType))
      end
    end in
  match attempt with
  | inl error =>
    inl (JsError (lit "Failed to extract text from file: "
                  ++ errorMessage error))
  | inr result => inr result
  end.

End WithCollaborators.

End TextExtractionService.

Module ExtractionSpec.
Import TextExtractionService.

(** Every white-space code unit is a space, and no space follows a
    space: what [replace(/\s+/g, ' ')] leaves. *)
Fixpoint whitespaceCollapsed (s : jsstring) (inRun : bool) : bool :=
  match s with
  | [] => true
  | c :: s' =>
    if (c =? 32)%N then negb inRun && whitespaceCollapsed s' true
    else negb (isWhiteSpace c) && whitespaceCollapsed s' false
  end.

(** Stand-ins for the decoders: the bytes as code units; no PDF and no
    DOCX can be read. *)
Definition sampleUtf8 (bytes : list Byte.byte) : jsstring :=
  map Byte.to_N bytes.

Definition noParser (bytes : list Byte.byte) : Thrown + jsstring :=
  inl (JsError (lit "not supported here")).

Definition noDetection (bytes : list Byte.byte) : option jsstring := None.

Definition sampleTypeError (name : jsstring) : jsstring :=
  lit "extractor is not a function".

Definition defaultExtraction : DocumentService.ExtractionOptions :=
  {| DocumentService.preserveFormatting := None;
     DocumentService.maxLength := None |}.

Definition sampleExtractText :=
  extractText Examples.sampleReadFile sampleUtf8 noParser noParser
    noDetection sampleTypeError.

(** Chunks of at most 100 code units; the rest is left to the defaults. *)
Definition smallChunks : TextChunker.ChunkOptions :=
  {| TextChunker.maxChunkSize_opt := Some 100;
     TextChunker.chunkOverlap_opt := None;
     TextChunker.preserveSentences_opt := None;
     TextChunker.preserveParagraphs_opt := None;
     TextChunker.minChunkSize_opt := None;
     TextChunker.separators_opt := None |}.

(** Processing options that ask for chunks of at most 100 code units
    and no embeddings. *)
Definition smallChunksOnly : DocumentService.DocumentProcessingOptions :=
  {| DocumentService.generateEmbeddings := Some false;
     DocumentService.chunkOptions := Some smallChunks;
     DocumentService.extractionOptions := None |}.

End ExtractionSpec.

(** * Properties *)

(** ** The chunker *)

Module TextChunkerFacts.
Import TextChunker ChunkerExamples.

Lemma dropWhile_all p s : forallb p s = true -> dropWhile p s = [].
Proof.
  induction s as [|c s IH]; simpl; [done|].
  destruct (p c); simpl; [exact IH | discriminate].
Qed.

Lemma forallb_rev {A} (p : A -> bool) l :
  forallb p (rev l) = forallb p l.
Proof.
  induction l as [|x l IH]; simpl; [done|].
  rewrite forallb_app, IH. simpl.
  destruct (p x), (forallb p l); reflexivity.
Qed.

(** A string of white space only trims to the empty string. *)
Lemma trim_blank s : forallb isWhiteSpace s = true -> trim s = [].
Proof.
  intros H. unfold trim, trimEnd, trimStart.
  rewrite (dropWhile_all _ s H). reflexivity.
Qed.

(** The indices written by [arr.map((x, index) => ...)]. *)
Lemma imap_indices {A B} (f : nat -> A -> B) (g : B -> nat) (l : list A) :
  (forall i x, g (f i x) = i) ->
  map g (imap f l) = seq 0 (length l).
Proof.
  intros Hg.
  change (map g (imap f l)) with (g <$> imap f l).
  rewrite fmap_imap.
  rewrite (imap_ext _ (fun j _ => j) l) by (intros; simpl; apply Hg).
  rewrite (imap_seq_0 l (fun j => j)).
  apply list_fmap_id.
Qed.

(** The loop of [chunkBySize] never runs out of fuel: one more turn
    changes nothing once the fuel covers the text that is left. *)
Lemma chunkBySize_fuel fuel text o position acc :
  len text - position <= Z.of_nat fuel ->
  chunkBySize_go (S fuel) text o position acc
  = chunkBySize_go fuel text o position acc.
Proof.
  revert position acc.
  induction fuel as [|fuel IH]; intros position acc Hfuel.
  - simpl. destruct (position <? len text) eqn:E; [|done].
    apply Z.ltb_lt in E. lia.
  - remember (S fuel) as n eqn:Hn.
    rewrite Hn at 2.
    cbn [chunkBySize_go].
    destruct (position <? len text) eqn:E; [|done].
    subst n. apply IH. lia.
Qed.

(** [chunkText] answers the empty array for the empty string and for a
    string of white space, whatever the options. *)
Lemma chunkText_blank text options :
  forallb isWhiteSpace text = true -> chunkText text options = [].
Proof.
  intros H. unfold chunkText.
  rewrite (trim_blank text H). simpl.
  rewrite orb_true_r. reflexivity.
Qed.

(** The last [map] of [chunkText] numbers the chunks from zero. *)
Lemma chunkText_indices text options :
  map chunk_index (chunkText text options)
  = seq 0 (length (chunkText text options)).
Proof.
  unfold chunkText.
  destruct ((len text =? 0) || (len (trim text) =? 0)); [reflexivity|].
  cbv zeta. rewrite length_imap.
  apply imap_indices. reflexivity.
Qed.

(** C8, as stated, fails: with the default [minChunkSize] of 100 the
    eight code units of "A. B. C." are dropped as a short trailing
    fragment, and [chunkText] returns no chunk at all. *)
Lemma chunkText_ABC_default_is_empty :
  chunkText (lit "A. B. C.") (sentenceExampleOptions None) = []
  /\ ~ (exists c, chunkText (lit "A. B. C.") (sentenceExampleOptions None)
                  = [c]).
Proof.
  assert (E : chunkText (lit "A. B. C.") (sentenceExampleOptions None) = [])
    by (vm_compute; reflexivity).
  split; [exact E|].
  intros [c Hc]. rewrite E in Hc. discriminate.
Qed.

(** C8, amended: "A. B. C." with [maxChunkSize] 1000 and
    [preserveSentences] true gives exactly one chunk, whose content is the
    whole text with its three sentences, when [minChunkSize] is at most 8
    (the length of the text), and no chunk when it is larger. *)
Theorem chunkText_ABC_single_chunk (m : Z) :
  chunkText (lit "A. B. C.") (sentenceExampleOptions (Some m))
  = if m <=? 8 then [sentenceExampleChunk] else [].
Proof.
  cbv -[Z.leb].
  destruct (m <=? 8) eqn:E; [|vm_compute; reflexivity].
  cbv -[Z.leb]. rewrite E. vm_compute. reflexivity.
Qed.

End TextChunkerFacts.

(** ** The embedder *)

Module EmbeddingFacts.
Import EmbeddingService EmbeddingSpec.

Lemma addTrace_nil w : addTrace w [] = w.
Proof. destruct w. unfold addTrace. simpl. by rewrite app_nil_r. Qed.

Lemma addTrace_app w t1 t2 :
  addTrace (addTrace w t1) t2 = addTrace w (t1 ++ t2).
Proof. unfold addTrace. simpl. by rewrite app_assoc. Qed.

Lemma providerCalls_addTrace w t :
  providerCalls (addTrace w t)
  = (providerCalls w + length (List.filter isProviderCall t))%nat.
Proof.
  unfold providerCalls, addTrace. simpl.
  by rewrite List.filter_app, length_app.
Qed.

Lemma delays_app t1 t2 : delays (t1 ++ t2) = delays t1 ++ delays t2.
Proof. unfold delays. apply flat_map_app. Qed.

Section Retry.

Variable provider : Provider.
Variable chunks : list ChunkInput.
Variable model : jsstring.
Variable inputs : list jsstring.
Variables retryAttempts retryDelay : Z.

(** The texts of the batch pass [validateAndTruncateText]. *)
Hypothesis inputs_valid :
  mapE (fun c => validateAndTruncateText (input_content c)) chunks
  = inr inputs.

Lemma retryTrace_calls a k :
  length (List.filter isProviderCall (retryTrace model inputs retryDelay a k)) =
      k.
Proof. revert a. induction k as [|k IH]; intros a; simpl; [done|]. by rewrite
    IH. Qed.

Lemma retryTrace_delays a k :
  delays (retryTrace model inputs retryDelay a k)
  = map (fun j => retryDelay * j) (seqZ a (Z.of_nat k)).
Proof.
  revert a. induction k as [|k IH]; intros a; [done|].
  rewrite Nat2Z.inj_succ, seqZ_cons by lia.
  cbn [retryTrace delays flat_map app map].
  f_equal. fold (delays (retryTrace model inputs retryDelay (a + 1) k)).
  rewrite IH. do 2 f_equal; lia.
Qed.

Lemma attemptBatch_run w :
  attemptBatch provider chunks model w
  = (match attemptAt provider chunks model inputs (providerCalls w) with
     | inl e => Throw e
     | inr r => Ok r
     end, addTrace w [ProviderCall model inputs]).
Proof.
  unfold attemptBatch, attemptAt, bind, liftE, embeddings_create.
  rewrite inputs_valid. cbn [ret].
  destruct (provider (providerCalls w) model inputs) as [data total|msg];
    [|reflexivity].
  cbn [fst snd].
  destruct (zipEmbeddings data chunks _) as [e|es]; reflexivity.
Qed.

Lemma processBatch_loop_S remaining attempt lastError :
  processBatch_loop provider (S remaining) attempt lastError chunks model
    retryAttempts retryDelay
  = tryCatch (attemptBatch provider chunks model)
      (fun error =>
         do _ <- (if attempt <? retryAttempts
                  then delay (retryDelay * attempt) else ret tt) ;
         processBatch_loop provider remaining (attempt + 1)
           (JsError (errorMessage error)) chunks model retryAttempts
           retryDelay).
Proof. reflexivity. Qed.

(** [k] failures, then a success within the attempts that are left. *)
Lemma processBatch_loop_success k :
  forall remaining attempt lastError w res,
    (k < remaining)%nat ->
    attempt + Z.of_nat remaining = retryAttempts + 1 ->
    (forall j, (j < k)%nat -> failsAt provider chunks model inputs
        (providerCalls w + j)) ->
    attemptAt provider chunks model inputs (providerCalls w + k) = inr res ->
    processBatch_loop provider remaining attempt lastError chunks model
      retryAttempts retryDelay w
    = (Ok res,
       addTrace w (retryTrace model inputs retryDelay attempt k ++ [ProviderCall
           model inputs])).
Proof.
  induction k as [|k IH]; intros remaining attempt lastError w res Hk Ha Hf Hs.
  - destruct remaining as [|r]; [lia|].
    rewrite processBatch_loop_S. unfold tryCatch.
    rewrite attemptBatch_run.
    rewrite Nat.add_0_r in Hs. rewrite Hs. reflexivity.
  - destruct remaining as [|r]; [lia|].
    rewrite processBatch_loop_S. unfold tryCatch.
    rewrite attemptBatch_run.
    destruct (Hf O ltac:(lia)) as [e He].
    rewrite Nat.add_0_r in He. rewrite He.
    unfold bind at 1.
    replace (attempt <? retryAttempts) with true
      by (symmetry; apply Z.ltb_lt; lia).
    unfold delay, emit at 1. cbn [store trace addTrace].
    set (w2 := {| store := store w;
                  trace := (trace w ++ [ProviderCall model inputs])
                           ++ [Delay (retryDelay * attempt)] |}).
    assert (Hw2 : w2 = addTrace w [ProviderCall model inputs;
                                   Delay (retryDelay * attempt)]).
    { unfold w2, addTrace. by rewrite <- app_assoc. }
    assert (Hc : providerCalls w2 = S (providerCalls w)).
    { rewrite Hw2, providerCalls_addTrace. simpl. lia. }
    rewrite (IH r (attempt + 1) (JsError (errorMessage e)) w2 res).
    + rewrite Hw2, addTrace_app. reflexivity.
    + lia.
    + lia.
    + intros j Hj. rewrite Hc.
      replace (S (providerCalls w) + j)%nat
        with (providerCalls w + S j)%nat by lia.
      apply Hf. lia.
    + rewrite Hc.
      replace (S (providerCalls w) + k)%nat
        with (providerCalls w + S k)%nat by lia.
      exact Hs.
Qed.

(** Every attempt that is left fails: the last error is thrown, and no
    pause follows the last attempt. *)
Lemma processBatch_loop_exhausted r :
  forall attempt lastError w,
    attempt + Z.of_nat (S r) = retryAttempts + 1 ->
    (forall j, (j <= r)%nat -> failsAt provider chunks model inputs
        (providerCalls w + j)) ->
    exists e,
      attemptAt provider chunks model inputs (providerCalls w + r) = inl e
      /\ processBatch_loop provider (S r) attempt lastError chunks model
           retryAttempts retryDelay w
         = (Throw (JsError (errorMessage e)),
            addTrace w (retryTrace model inputs retryDelay attempt r ++
                [ProviderCall model inputs])).
Proof.
  induction r as [|r IH]; intros attempt lastError w Ha Hf.
  - destruct (Hf O ltac:(lia)) as [e He].
    exists e. split; [exact He|].
    rewrite processBatch_loop_S. unfold tryCatch.
    rewrite attemptBatch_run.
    rewrite Nat.add_0_r in He. rewrite He.
    unfold bind.
    replace (attempt <? retryAttempts) with false
      by (symmetry; apply Z.ltb_ge; lia).
    reflexivity.
  - destruct (Hf O ltac:(lia)) as [e He].
    rewrite processBatch_loop_S. unfold tryCatch.
    rewrite attemptBatch_run.
    rewrite Nat.add_0_r in He. rewrite He.
    unfold bind at 1.
    replace (attempt <? retryAttempts) with true
      by (symmetry; apply Z.ltb_lt; lia).
    unfold delay, emit at 1. cbn [store trace addTrace].
    set (w2 := {| store := store w;
                  trace := (trace w ++ [ProviderCall model inputs])
                           ++ [Delay (retryDelay * attempt)] |}).
    assert (Hw2 : w2 = addTrace w [ProviderCall model inputs;
                                   Delay (retryDelay * attempt)]).
    { unfold w2, addTrace. by rewrite <- app_assoc. }
    assert (Hc : providerCalls w2 = S (providerCalls w)).
    { rewrite Hw2, providerCalls_addTrace. simpl. lia. }
    destruct (IH (attempt + 1) (JsError (errorMessage e)) w2) as [e' [He'
        Hrun]].
    + lia.
    + intros j Hj. rewrite Hc.
      replace (S (providerCalls w) + j)%nat
        with (providerCalls w + S j)%nat by lia.
      apply Hf. lia.
    + exists e'. split.
      * rewrite Hc in He'.
        replace (providerCalls w + S r)%nat
          with (S (providerCalls w) + r)%nat by lia.
        exact He'.
      * rewrite Hrun, Hw2, addTrace_app. reflexivity.
Qed.

(** [processBatch]: after [k] failed attempts, [k] below
    [retryAttempts], the next attempt succeeds and its answer is the
    result. *)
Lemma processBatch_success k w res :
  (k < Z.to_nat retryAttempts)%nat ->
  (forall j, (j < k)%nat -> failsAt provider chunks model inputs (providerCalls
      w + j)) ->
  attemptAt provider chunks model inputs (providerCalls w + k) = inr res ->
  processBatch provider chunks model retryAttempts retryDelay w
  = (Ok res, addTrace w (retryTrace model inputs retryDelay 1 k ++ [ProviderCall
      model inputs])).
Proof.
  intros Hk Hf Hs. unfold processBatch.
  apply processBatch_loop_success; [exact Hk|lia|exact Hf|exact Hs].
Qed.

(** [processBatch]: when all [retryAttempts] attempts fail, the error of
    the last one is thrown. *)
Lemma processBatch_exhausted w :
  1 <= retryAttempts ->
  (forall j, (j < Z.to_nat retryAttempts)%nat ->
             failsAt provider chunks model inputs (providerCalls w + j)) ->
  exists e,
    attemptAt provider chunks model inputs (providerCalls w + (Z.to_nat
        retryAttempts - 1)) = inl e
    /\ processBatch provider chunks model retryAttempts retryDelay w
       = (Throw (JsError (errorMessage e)),
          addTrace w (retryTrace model inputs retryDelay 1 (Z.to_nat
              retryAttempts - 1)
                      ++ [ProviderCall model inputs])).
Proof.
  intros Hra Hf. unfold processBatch.
  destruct (Z.to_nat retryAttempts) as [|r] eqn:Er; [lia|].
  replace (S r - 1)%nat with r by lia.
  apply processBatch_loop_exhausted; [lia|].
  intros j Hj. apply Hf. lia.
Qed.

End Retry.

(** *** The loop over the batches *)

Section Batches.

Variable provider : Provider.
Variable validChunks : list ChunkInput.
Variable actualBatchSize : Z.
Variable model : jsstring.
Variables retryAttempts retryDelay : Z.

Hypothesis size_positive : 1 <= actualBatchSize.

Lemma runLoop_step fuel st st' :
  batchStep provider validChunks actualBatchSize model retryAttempts retryDelay
      st st' -> runLoop provider validChunks actualBatchSize model retryAttempts
      retryDelay (S fuel) st = runLoop provider validChunks actualBatchSize
      model retryAttempts retryDelay fuel st'.
Proof.
  intros [st0 r w1 Hlt Hok].
  unfold runLoop. cbn [batches_loop at_index collected tokensSoFar world].
  replace (at_index st0 <? Z.of_nat (length validChunks)) with true
    by (symmetry; by apply Z.ltb_lt).
  unfold bind at 1. rewrite Hok.
  unfold bind at 1.
  destruct (at_index st0 + actualBatchSize <? Z.of_nat (length validChunks));
    reflexivity.
Qed.

Lemma batchStep_advances st st' :
  batchStep provider validChunks actualBatchSize model retryAttempts retryDelay
      st st' -> at_index st + 1 <= at_index st'.
Proof. intros [st0 r w1 _ _]. simpl. lia. Qed.

Lemma batchSteps_monotone st st' :
  rtc (batchStep provider validChunks actualBatchSize model retryAttempts
      retryDelay) st st' -> at_index st <= at_index st'.
Proof.
  induction 1 as [|x y z Hxy _ IH]; [lia|].
  apply batchStep_advances in Hxy. lia.
Qed.

(** After some successful batches, a batch whose attempts are exhausted
    ends the loop with what it throws; what was collected is dropped. *)
Lemma runLoop_batch_fails st st' e w' :
  rtc (batchStep provider validChunks actualBatchSize model retryAttempts
      retryDelay) st st' ->
  forall fuel,
    Z.of_nat (length validChunks) - at_index st <= Z.of_nat fuel ->
    at_index st' < Z.of_nat (length validChunks) ->
    processBatch provider
      (slice validChunks (at_index st') (at_index st' + actualBatchSize))
      model retryAttempts retryDelay (world st') = (Throw e, w') ->
    runLoop provider validChunks actualBatchSize model retryAttempts retryDelay
        fuel st = (Throw e, w').
Proof.
  induction 1 as [st|x y z Hxy Hyz IH]; intros fuel Hfuel Hlt Hthrow.
  - destruct fuel as [|fuel]; [lia|].
    unfold runLoop. cbn [batches_loop].
    replace (at_index st <? Z.of_nat (length validChunks)) with true
      by (symmetry; by apply Z.ltb_lt).
    unfold bind at 1. rewrite Hthrow. reflexivity.
  - pose proof (batchStep_advances _ _ Hxy) as Hadv.
    pose proof (batchSteps_monotone _ _ Hyz) as Hmono.
    destruct fuel as [|fuel]; [lia|].
    rewrite (runLoop_step fuel x y Hxy).
    apply IH; [lia|exact Hlt|exact Hthrow].
Qed.

End Batches.

(** [generateEmbeddings]: when, after any number of successful batches,
    one batch exhausts its attempts, the call throws and gives no
    result. *)
Lemma generateEmbeddings_batch_fails provider chunks options valid w st e w' :
  validateChunks chunks = inr valid ->
  1 <= default 50 (batchSize options) ->
  rtc (batchStep provider valid
         (Z.min (default 50 (batchSize options)) maxBatchSize)
         (default defaultModel (model options))
         (default 3 (retryAttempts options))
         (default 1000 (retryDelay options)))
      {| at_index := 0; collected := []; tokensSoFar := 0; world := w |}
      st ->
  at_index st < Z.of_nat (length valid) ->
  processBatch provider
    (slice valid (at_index st)
       (at_index st + Z.min (default 50 (batchSize options)) maxBatchSize))
    (default defaultModel (model options))
    (default 3 (retryAttempts options))
    (default 1000 (retryDelay options)) (world st) = (Throw e, w') ->
  generateEmbeddings provider chunks options w
  = (Throw (JsError (lit "Embedding generation failed: "
                     ++ errorMessage e)), w').
Proof.
  intros Hvalid Hsize Hreach Hlt Hthrow.
  assert (Hmono : 0 <= at_index st).
  { change 0 with (at_index {| at_index := 0; collected := [];
                               tokensSoFar := 0; world := w |}).
    eapply batchSteps_monotone; [|exact Hreach].
    unfold maxBatchSize; lia. }
  unfold generateEmbeddings, bind at 1, liftE.
  rewrite Hvalid. cbn [ret].
  destruct valid as [|c valid']; [simpl in Hlt; lia|].
  set (valid := c :: valid') in *.
  unfold tryCatch, bind.
  assert (Hrun := fun Hs =>
    runLoop_batch_fails provider valid _ _ _ _ Hs _ _ e w' Hreach
      (length valid) ltac:(cbn [at_index]; lia) Hlt Hthrow).
  specialize (Hrun ltac:(unfold maxBatchSize; lia)).
  unfold runLoop in Hrun. cbn [at_index collected tokensSoFar world] in Hrun.
  rewrite Hrun. reflexivity.
Qed.

(** *** Retry, all or nothing, and the example of the specification *)

(** C4.  (a) A batch whose provider call fails [k] times, [k] below
    [retryAttempts], and then succeeds gives that answer after [k + 1]
    calls, with the pauses [retryDelay * 1, ..., retryDelay * k] between
    them; when all [retryAttempts] calls fail the batch throws, after
    exactly [retryAttempts] calls and the pauses [retryDelay * 1, ...,
    retryDelay * (retryAttempts - 1)].  (b) When a batch throws, after any
    number of batches that succeeded, [generateEmbeddings] throws: the
    embeddings collected so far are not returned.  (c) With a provider
    that fails twice and then works and [retryAttempts] at 3, two chunks
    sent one by one give a successful result with both embeddings and the
    tokens of both batches added up. *)
Theorem generateEmbeddings_retries_all_or_nothing :
  (forall provider chunks model inputs retryAttempts retryDelay w,
      mapE (fun c => validateAndTruncateText (input_content c)) chunks
      = inr inputs ->
      (forall k res,
          (k < Z.to_nat retryAttempts)%nat ->
          (forall j, (j < k)%nat ->
             failsAt provider chunks model inputs (providerCalls w + j)) ->
          attemptAt provider chunks model inputs (providerCalls w + k)
          = inr res ->
          exists w',
            processBatch provider chunks model retryAttempts retryDelay w
            = (Ok res, w')
            /\ providerCalls w' = (providerCalls w + k + 1)%nat
            /\ delays (trace w')
               = delays (trace w)
                 ++ map (fun j => retryDelay * j) (seqZ 1 (Z.of_nat k))
            /\ store w' = store w)
      /\ (1 <= retryAttempts ->
          (forall j, (j < Z.to_nat retryAttempts)%nat ->
             failsAt provider chunks model inputs (providerCalls w + j)) ->
          exists e w',
            processBatch provider chunks model retryAttempts retryDelay w
            = (Throw e, w')
            /\ providerCalls w'
               = (providerCalls w + Z.to_nat retryAttempts)%nat
            /\ delays (trace w')
               = delays (trace w)
                 ++ map (fun j => retryDelay * j)
                      (seqZ 1 (retryAttempts - 1))
            /\ store w' = store w))
  /\ (forall provider chunks options valid w st e w',
        validateChunks chunks = inr valid ->
        1 <= default 50 (batchSize options) ->
        rtc (batchStep provider valid
               (Z.min (default 50 (batchSize options)) maxBatchSize)
               (default defaultModel (model options))
               (default 3 (retryAttempts options))
               (default 1000 (retryDelay options)))
            {| at_index := 0; collected := []; tokensSoFar := 0;
               world := w |} st ->
        at_index st < Z.of_nat (length valid) ->
        processBatch provider
          (slice valid (at_index st)
             (at_index st
              + Z.min (default 50 (batchSize options)) maxBatchSize))
          (default defaultModel (model options))
          (default 3 (retryAttempts options))
          (default 1000 (retryDelay options)) (world st) = (Throw e, w') ->
        generateEmbeddings provider chunks options w
        = (Throw (JsError (lit "Embedding generation failed: "
                           ++ errorMessage e)), w'))
  /\ (exists r w',
        generateEmbeddings Examples.flaky Examples.twoChunks
          (Examples.oneByOne 3 None) Examples.world0 = (Ok r, w')
        /\ map index (embeddings r) = [0; 1]%nat
        /\ totalTokens r = 3 + 3
        /\ providerCalls w' = 4%nat
        /\ delays (trace w') = [1000 * 1; 1000 * 2; 100]).
Proof.
  split; [|split].
  - intros provider chunks model inputs retryAttempts retryDelay w Hvalid.
    split.
    + intros k res Hk Hf Hs.
      eexists. split.
      * apply (processBatch_success provider chunks model inputs
                 retryAttempts retryDelay Hvalid k w res Hk Hf Hs).
      * rewrite providerCalls_addTrace, List.filter_app, length_app,
          retryTrace_calls.
        cbn [addTrace trace store].
        rewrite delays_app, delays_app, retryTrace_delays.
        cbn. rewrite app_nil_r. repeat split; try lia; reflexivity.
    + intros Hra Hf.
      destruct (processBatch_exhausted provider chunks model inputs
                  retryAttempts retryDelay Hvalid w Hra Hf) as [e [_ Hrun]].
      exists (JsError (errorMessage e)). eexists. split; [exact Hrun|].
      rewrite providerCalls_addTrace, List.filter_app, length_app,
        retryTrace_calls.
      cbn [addTrace trace store].
      rewrite delays_app, delays_app, retryTrace_delays.
      cbn. rewrite app_nil_r.
      replace (Z.of_nat (Z.to_nat retryAttempts - 1)) with (retryAttempts - 1)
        by lia.
      repeat split; try lia; reflexivity.
  - intros provider chunks options valid w st e w'.
    apply generateEmbeddings_batch_fails.
  - eexists. eexists. split; [vm_compute; reflexivity|].
    vm_compute. repeat split; reflexivity.
Qed.

(** The retry theorem at work: the provider that fails twice, one chunk,
    three attempts (success after the pauses 1000 and 2000) and two
    attempts (failure after the pause 1000); and a provider that answers
    the first batch only, which makes the whole call fail although the
    first batch was embedded. *)
Lemma generateEmbeddings_retries_witness :
  (exists res w',
      processBatch Examples.flaky [Examples.firstChunk]
        defaultModel 3 1000 Examples.world0 = (Ok res, w')
      /\ providerCalls w' = 3%nat
      /\ delays (trace w') = [1000; 2000])
  /\ (exists e w',
        processBatch Examples.flaky [Examples.firstChunk]
          defaultModel 2 1000 Examples.world0 = (Throw e, w')
        /\ providerCalls w' = 2%nat
        /\ delays (trace w') = [1000])
  /\ (exists e w',
        generateEmbeddings Examples.onceThenDown Examples.twoChunks
          (Examples.oneByOne 2 None) Examples.world0 = (Throw e, w')).
Proof.
  destruct generateEmbeddings_retries_all_or_nothing as [Ha [Hb _]].
  split; [|split].
  - destruct (Ha Examples.flaky
                [Examples.firstChunk]
                defaultModel [lit "hello world"] 3 1000 Examples.world0
                eq_refl) as [Hok _].
    destruct (Hok 2%nat
                ([{| embedding := [Q2Qc (inject_Z 11); Q2Qc 1]; tokens := 3;
                     index := 0 |}], 3)) as [w' [Hrun [Hc [Hd _]]]].
    + vm_compute. lia.
    + intros j Hj. exists (JsError (lit "rate limit exceeded")).
      destruct j as [|[|j]]; [reflexivity|reflexivity|lia].
    + reflexivity.
    + eexists. exists w'. split; [exact Hrun|]. split; [exact Hc|exact Hd].
  - destruct (Ha Examples.flaky
                [Examples.firstChunk]
                defaultModel [lit "hello world"] 2 1000 Examples.world0
                eq_refl) as [_ Hex].
    destruct Hex as [e [w' [Hrun [Hc [Hd _]]]]].
    + lia.
    + intros j Hj. exists (JsError (lit "rate limit exceeded")).
      destruct j as [|[|j]]; [reflexivity|reflexivity|].
      vm_compute in Hj. lia.
    + exists e, w'. split; [exact Hrun|]. split; [exact Hc|exact Hd].
  - eexists. eexists.
    eapply (Hb Examples.onceThenDown Examples.twoChunks
              (Examples.oneByOne 2 None) Examples.twoChunks Examples.world0).
    + reflexivity.
    + simpl. lia.
    + eapply rtc_l; [|apply rtc_refl].
      eapply batchStep_ok; [simpl; lia|].
      vm_compute. reflexivity.
    + vm_compute. reflexivity.
    + vm_compute. reflexivity.
Defined.

(** *** Cost *)

Lemma generateEmbeddings_cost provider chunks options w r w' :
  generateEmbeddings provider chunks options w = (Ok r, w') ->
  cost r = calculateCost (totalTokens r).
Proof.
  unfold generateEmbeddings, bind at 1, liftE.
  destruct (validateChunks chunks) as [e|valid]; [discriminate|].
  cbn [ret].
  destruct valid as [|c valid]; [discriminate|].
  unfold tryCatch, bind.
  destruct (batches_loop _ _ _ _ _ _ _ _ _ _ _) as [[res|e|] w1];
    [|discriminate|discriminate].
  unfold ret. intros H. injection H as <- _. reflexivity.
Qed.

Lemma calculateCost_zero tokens :
  calculateCost tokens = Q2Qc 0 <-> tokens = 0.
Proof.
  unfold calculateCost, costPerToken. split.
  - intros H. apply Qcmult_integral in H. destruct H as [H|H].
    + apply Q2Qc_eq_iff in H. unfold Qeq in H. simpl in H. lia.
    + apply Q2Qc_eq_iff in H. unfold Qeq in H. simpl in H. lia.
  - intros ->. apply Qc_is_canon. reflexivity.
Qed.

(** C7, as stated, fails: a model name the service does not list is
    costed like any other; six tokens cost six times the rate, not
    zero. *)
Lemma unknown_model_cost_not_zero :
  ~ In (lit "no-such-model") getAvailableModels
  /\ match generateEmbeddings Examples.steady Examples.twoChunks
             (Examples.oneByOne 3 (Some (lit "no-such-model")))
             Examples.world0 with
     | (Ok r, _) =>
       totalTokens r = 6
       /\ cost r = Q2Qc (6 # 10000000)
       /\ cost r <> Q2Qc 0
     | _ => False
     end.
Proof.
  split.
  - intros H. vm_compute in H.
    repeat (destruct H as [H|H]; [discriminate|]). exact H.
  - destruct (generateEmbeddings _ _ _ _) as [[r| |] w'] eqn:E;
      [|vm_compute in E; discriminate|vm_compute in E; discriminate].
    pose proof (generateEmbeddings_cost _ _ _ _ _ _ E) as Hc.
    assert (Ht : totalTokens r = 6).
    { vm_compute in E. injection E as <- _. reflexivity. }
    rewrite Hc, Ht. split; [reflexivity|]. split.
    + apply Qc_is_canon. reflexivity.
    + intros H. apply calculateCost_zero in H. discriminate.
Qed.

(** C7, amended: the cost of an embedding call is its token count times
    one fixed rate, 0.0000001 per token, whatever the model: the model
    name does not enter the computation, so the cost is zero exactly when
    no token was used. *)
Theorem cost_is_tokens_times_fixed_rate provider chunks options w r w' :
  generateEmbeddings provider chunks options w = (Ok r, w') ->
  cost r = (Q2Qc (inject_Z (totalTokens r)) * Q2Qc (1 # 10000000))%Qc
  /\ (cost r = Q2Qc 0 <-> totalTokens r = 0).
Proof.
  intros H. rewrite (generateEmbeddings_cost _ _ _ _ _ _ H).
  split; [reflexivity|apply calculateCost_zero].
Qed.

Lemma cost_is_tokens_times_fixed_rate_witness :
  exists r w',
    generateEmbeddings Examples.steady Examples.twoChunks
      (Examples.oneByOne 3 (Some (lit "no-such-model"))) Examples.world0
    = (Ok r, w')
    /\ cost r = (Q2Qc (inject_Z (totalTokens r)) * Q2Qc (1 # 10000000))%Qc
    /\ (cost r = Q2Qc 0 <-> totalTokens r = 0).
Proof.
  destruct (generateEmbeddings Examples.steady Examples.twoChunks
              (Examples.oneByOne 3 (Some (lit "no-such-model")))
              Examples.world0) as [[r| |] w'] eqn:E.
  - exists r, w'. split; [reflexivity|].
    exact (cost_is_tokens_times_fixed_rate _ _ _ _ _ _ E).
  - vm_compute in E. discriminate.
  - vm_compute in E. discriminate.
Defined.

End EmbeddingFacts.

(** ** Computations that leave the store alone *)

Module Frames.
Import EmbeddingService EmbeddingSpec.

Lemma withStore_same w : withStore w (store w) = w.
Proof. by destruct w. Qed.

Lemma storeFree_ret {A} (a : A) : storeFree (ret a).
Proof. done. Qed.

Lemma storeFree_throw {A} e : storeFree (@throw A e).
Proof. done. Qed.

Lemma storeFree_diverge {A} : storeFree (@diverge A).
Proof. done. Qed.

Lemma storeFree_liftE {A} (r : Thrown + A) : storeFree (liftE r).
Proof. by destruct r. Qed.

Lemma storeFree_bind {A B} (m : M A) (k : A -> M B) :
  storeFree m -> (forall a, storeFree (k a)) -> storeFree (bind m k).
Proof.
  intros Hm Hk w s. unfold bind. rewrite Hm.
  destruct (m w) as [[a|e|] w1]; simpl; [apply Hk|done|done].
Qed.

Lemma storeFree_tryCatch {A} (m : M A) (h : Thrown -> M A) :
  storeFree m -> (forall e, storeFree (h e)) -> storeFree (tryCatch m h).
Proof.
  intros Hm Hh w s. unfold tryCatch. rewrite Hm.
  destruct (m w) as [[a|e|] w1]; simpl; [done|apply Hh|done].
Qed.

Lemma storeFree_emit e : storeFree (emit e).
Proof. done. Qed.

Lemma storeFree_embeddings_create provider model input :
  storeFree (embeddings_create provider model input).
Proof.
  intros w s. unfold embeddings_create, providerCalls. simpl.
  by destruct (provider _ model input).
Qed.

Lemma storeFree_attemptBatch provider chunks model :
  storeFree (attemptBatch provider chunks model).
Proof.
  unfold attemptBatch.
  apply storeFree_bind; [apply storeFree_liftE|intros inputs].
  apply storeFree_bind; [apply storeFree_embeddings_create|intros r].
  apply storeFree_bind; [apply storeFree_liftE|intros es].
  apply storeFree_ret.
Qed.

Lemma storeFree_processBatch_loop provider remaining :
  forall attempt lastError chunks model retryAttempts retryDelay,
    storeFree (processBatch_loop provider remaining attempt lastError chunks
                 model retryAttempts retryDelay).
Proof.
  induction remaining as [|r IH]; intros attempt lastError chunks mdl ra rd;
    cbn [processBatch_loop].
  - apply storeFree_throw.
  - apply storeFree_tryCatch; [apply storeFree_attemptBatch|intros e].
    apply storeFree_bind; [|intros _; apply IH].
    destruct (attempt <? ra);
      [apply storeFree_emit|apply storeFree_ret].
Qed.

Lemma storeFree_batches_loop provider fuel :
  forall validChunks size model retryAttempts retryDelay i acc total,
    storeFree (batches_loop provider fuel validChunks size model
                 retryAttempts retryDelay i acc total).
Proof.
  induction fuel as [|fuel IH];
    intros validChunks size mdl ra rd i acc total; cbn [batches_loop];
    destruct (i <? Z.of_nat (length validChunks));
    try apply storeFree_ret; try apply storeFree_diverge.
  apply storeFree_bind;
    [apply storeFree_processBatch_loop|intros r].
  apply storeFree_bind; [|intros _; apply IH].
  destruct (i + size <? Z.of_nat (length validChunks));
    [apply storeFree_emit|apply storeFree_ret].
Qed.

Lemma storeFree_generateEmbeddings provider chunks options :
  storeFree (generateEmbeddings provider chunks options).
Proof.
  unfold generateEmbeddings.
  apply storeFree_bind; [apply storeFree_liftE|intros valid].
  destruct valid as [|c valid]; [apply storeFree_throw|].
  apply storeFree_tryCatch; [|intros e; apply storeFree_throw].
  apply storeFree_bind; [apply storeFree_batches_loop|intros r].
  apply storeFree_ret.
Qed.

(** The embedder never writes to the database. *)
Lemma generateEmbeddings_store provider chunks options w :
  store (snd (generateEmbeddings provider chunks options w)) = store w.
Proof.
  pose proof (storeFree_generateEmbeddings provider chunks options w
                (store w)) as H.
  rewrite withStore_same in H.
  apply (f_equal (fun p => store (snd p))) in H. simpl in H.
  exact H.
Qed.

(** *** Termination *)

Lemma terminates_ret {A} (a : A) : terminates (ret a).
Proof. intros w. discriminate. Qed.

Lemma terminates_throw {A} e : terminates (@throw A e).
Proof. intros w. discriminate. Qed.

Lemma terminates_liftE {A} (r : Thrown + A) : terminates (liftE r).
Proof. destruct r; intros w; discriminate. Qed.

Lemma terminates_emit e : terminates (emit e).
Proof. intros w. discriminate. Qed.

Lemma terminates_bind {A B} (m : M A) (k : A -> M B) :
  terminates m -> (forall a, terminates (k a)) -> terminates (bind m k).
Proof.
  intros Hm Hk w. unfold bind. specialize (Hm w).
  destruct (m w) as [[a|e|] w1]; simpl in *; [apply Hk|discriminate|done].
Qed.

Lemma terminates_tryCatch {A} (m : M A) (h : Thrown -> M A) :
  terminates m -> (forall e, terminates (h e)) -> terminates (tryCatch m h).
Proof.
  intros Hm Hh w. unfold tryCatch. specialize (Hm w).
  destruct (m w) as [[a|e|] w1]; simpl in *; [discriminate|apply Hh|done].
Qed.

Lemma terminates_embeddings_create provider model input :
  terminates (embeddings_create provider model input).
Proof.
  intros w. unfold embeddings_create.
  destruct (provider _ model input); discriminate.
Qed.

Lemma terminates_processBatch_loop provider remaining :
  forall attempt lastError chunks mdl ra rd,
    terminates (processBatch_loop provider remaining attempt lastError
                  chunks mdl ra rd).
Proof.
  induction remaining as [|r IH]; intros attempt lastError chunks mdl ra rd;
    cbn [processBatch_loop].
  - apply terminates_throw.
  - apply terminates_tryCatch.
    + unfold attemptBatch.
      apply terminates_bind; [apply terminates_liftE|intros inputs].
      apply terminates_bind;
        [apply terminates_embeddings_create|intros response].
      apply terminates_bind; [apply terminates_liftE|intros es].
      apply terminates_ret.
    + intros e. apply terminates_bind; [|intros _; apply IH].
      destruct (attempt <? ra); [apply terminates_emit|apply terminates_ret].
Qed.

(** With a batch size of at least one, the loop over the batches ends
    before its fuel is spent. *)
Lemma terminates_batches_loop provider validChunks size mdl ra rd fuel :
  1 <= size ->
  forall i acc total,
    Z.of_nat (length validChunks) - i <= Z.of_nat fuel ->
    terminates (batches_loop provider fuel validChunks size mdl ra rd i acc
                  total).
Proof.
  intros Hsize.
  induction fuel as [|fuel IH]; intros i acc total Hfuel;
    cbn [batches_loop];
    destruct (i <? Z.of_nat (length validChunks)) eqn:E;
    try apply terminates_ret.
  - apply Z.ltb_lt in E. lia.
  - apply terminates_bind; [apply terminates_processBatch_loop|intros r].
    apply terminates_bind; [|intros _; apply IH; lia].
    destruct (i + size <? Z.of_nat (length validChunks));
      [apply terminates_emit|apply terminates_ret].
Qed.

Lemma terminates_generateEmbeddings provider chunks options :
  1 <= default 50 (batchSize options) ->
  terminates (generateEmbeddings provider chunks options).
Proof.
  intros Hsize. unfold generateEmbeddings.
  apply terminates_bind; [apply terminates_liftE|intros valid].
  destruct valid as [|c valid]; [apply terminates_throw|].
  apply terminates_tryCatch; [|intros e; apply terminates_throw].
  apply terminates_bind; [|intros r; apply terminates_ret].
  apply terminates_batches_loop; [unfold maxBatchSize; lia|lia].
Qed.

Lemma storeFree_generateQueryEmbedding provider query model :
  storeFree (generateQueryEmbedding provider query model).
Proof.
  unfold generateQueryEmbedding.
  apply storeFree_tryCatch; [|intros e; apply storeFree_throw].
  apply storeFree_bind; [apply storeFree_liftE|intros validated].
  apply storeFree_bind; [apply storeFree_embeddings_create|intros r].
  destruct (fst r); [apply storeFree_throw|apply storeFree_ret].
Qed.

Lemma generateQueryEmbedding_store provider query model w :
  store (snd (generateQueryEmbedding provider query model w)) = store w.
Proof.
  pose proof (storeFree_generateQueryEmbedding provider query model w
                (store w)) as H.
  rewrite withStore_same in H.
  apply (f_equal (fun p => store (snd p))) in H. simpl in H.
  exact H.
Qed.

End Frames.

(** ** The orchestrator *)

Module DocumentFacts.
Import Db DbOps DocumentService EmbeddingSpec DocumentSpec Frames.

Section WithCollaborators.

Variable provider : EmbeddingService.Provider.
Variable readFile : jsstring -> option (list Byte.byte).
Variable sha256 : list Byte.byte -> jsstring.
Variable extractText :
  jsstring -> jsstring -> ExtractionOptions -> Thrown + ExtractionResult.
Variable pathName : jsstring -> jsstring.

Local Abbreviation processDocument :=
  (processDocument provider readFile sha256 extractText pathName).
Local Abbreviation pipeline := (pipeline provider extractText).

(** Step 2 finds a document: it is returned and nothing happens. *)
Lemma processDocument_existing filePath originalName userId mimeType
    fileSize title options w bytes d rest :
  readFile filePath = Some bytes ->
  List.filter (sameContent (sha256 bytes) userId) (documents (store w))
  = d :: rest ->
  processDocument filePath originalName userId mimeType fileSize title
    options w
  = (Ok {| document := Some d; chunks := None; extraction_result := None;
           embedding_result := None; success := true; error := None |}, w).
Proof.
  intros Hread Hfind.
  unfold DocumentService.processDocument, calculateFileHash,
    findDocumentByHash, selectDocumentsByHash, bind, getStore, ret.
  rewrite Hread. cbn beta iota.
  unfold sameContent in Hfind. rewrite Hfind. reflexivity.
Qed.

(** Step 2 finds nothing: the row is created and the pipeline runs;
    what it throws goes to the [catch] block. *)
Lemma processDocument_new filePath originalName userId mimeType
    fileSize title options w bytes :
  readFile filePath = Some bytes ->
  List.filter (sameContent (sha256 bytes) userId) (documents (store w))
  = [] ->
  let doc := created sha256 pathName filePath originalName userId mimeType
      fileSize title
               bytes (store w) in
  processDocument filePath originalName userId mimeType fileSize title
    options w
  = match pipeline doc filePath mimeType (optionsOf options).1.1
            (optionsOf options).1.2 (optionsOf options).2
            (afterCreate w doc) with
    | (Throw error, w2) => onFailure (Some doc) error w2
    | r => r
    end.
Proof.
  intros Hread Hfind doc.
  unfold DocumentService.processDocument, calculateFileHash,
    findDocumentByHash, selectDocumentsByHash, createDocumentRecord,
    insertDocument, bind, getStore, putStore, ret.
  rewrite Hread. cbn beta iota.
  unfold sameContent in Hfind. rewrite Hfind. reflexivity.
Qed.

Lemma markStatus_twice n s1 s2 docs :
  markStatus n s2 (markStatus n s1 docs) = markStatus n s2 docs.
Proof.
  unfold markStatus. rewrite map_map. apply map_ext. intros d.
  destruct (id d =? n)%nat eqn:E; simpl; rewrite E; reflexivity.
Qed.

Lemma markStatus_status n s docs :
  Forall (fun d => id d = n -> processing_status d = s)
    (markStatus n s docs).
Proof.
  unfold markStatus.
  induction docs as [|d0 docs IH]; simpl; constructor; [|exact IH].
  destruct (id d0 =? n)%nat eqn:E; [reflexivity|].
  intros H. apply Nat.eqb_neq in E. contradiction.
Qed.

(** C5.  Embeddings are asked for, the document is new, its text is
    extracted and chunked, and the embedding call fails with [e]: then
    [processDocument] returns, with [success] false and the message of [e]
    as [error]; the created row is in status [failed]; and the table of
    chunks is what it was before the call. *)
Theorem processDocument_embedding_failure filePath originalName userId
    mimeType fileSize title options w bytes ex c cs e :
  readFile filePath = Some bytes ->
  List.filter (sameContent (sha256 bytes) userId) (documents (store w))
  = [] ->
  default true (generateEmbeddings options) = true ->
  extractText filePath mimeType (optionsOf options).2 = inr ex ->
  EmbeddingService.isBlank (extracted_content ex) = false ->
  TextChunker.chunkText (extracted_content ex)
    (pipelineChunkOptions (optionsOf options).1.2) = c :: cs ->
  fst (EmbeddingService.generateEmbeddings provider
         (embeddingInputs (c :: cs)) EmbeddingService.noOptions w)
  = Throw e ->
  let doc := created sha256 pathName filePath originalName userId mimeType
      fileSize title
               bytes (store w) in
  exists r w',
    processDocument filePath originalName userId mimeType fileSize title
      options w = (Ok r, w')
    /\ success r = false
    /\ error r = Some (errorMessage e)
    /\ document r = Some doc
    /\ documents (store w')
       = markStatus (id doc) failed (documents (store w) ++ [doc])
    /\ Forall (fun d => id d = id doc -> processing_status d = failed)
         (documents (store w'))
    /\ document_chunks (store w') = document_chunks (store w).
Proof.
  intros Hread Hfind Hge Hex Hblank Hchunks Hfail doc.
  rewrite (processDocument_new _ _ _ _ _ _ _ _ _ Hread Hfind).
  fold doc.
  unfold optionsOf in *. cbn [fst snd] in *.
  rewrite Hge.
  unfold DocumentService.pipeline.
  unfold bind at 1. unfold updateDocumentStatus, updateDocuments at 1.
  unfold bind at 1. unfold getStore at 1. unfold putStore at 1.
  cbn [store trace afterCreate documents document_chunks next_id].
  unfold bind at 1. rewrite Hex. cbn [liftE ret].
  rewrite Hblank, Hchunks.
  unfold bind at 1. unfold bind at 1.
  fold (embeddingInputs (c :: cs)).
  match goal with
  | |- context [EmbeddingService.generateEmbeddings _ _ _ ?w1] =>
    change w1 with
      (withStore w {| documents :=
                        markStatus (id doc) processing
                          (documents (store w) ++ [doc]);
                      document_chunks := document_chunks (store w);
                      next_id := S (next_id (store w)) |})
  end.
  rewrite (storeFree_generateEmbeddings provider _ _ w).
  rewrite Hfail.
  unfold onFailure, bind, updateDocumentStatus, updateDocuments, bind,
    getStore, putStore, ret.
  cbn [store trace withStore documents document_chunks next_id].
  fold (markStatus (id doc) failed
          (markStatus (id doc) processing (documents (store w) ++ [doc]))).
  rewrite markStatus_twice.
  eexists. eexists. split; [reflexivity|].
  cbn [success error document failure store documents document_chunks].
  repeat split.
  apply markStatus_status.
Qed.

(** Zero chunks become a failure in [processDocument], not in the
    chunker: a new document whose text [chunkText] splits into no chunk
    is reported with [success] false, and its row is in status
    [failed]. *)
Lemma processDocument_no_chunks filePath originalName userId
    mimeType fileSize title options w bytes ex :
  readFile filePath = Some bytes ->
  List.filter (sameContent (sha256 bytes) userId) (documents (store w))
  = [] ->
  extractText filePath mimeType (optionsOf options).2 = inr ex ->
  EmbeddingService.isBlank (extracted_content ex) = false ->
  TextChunker.chunkText (extracted_content ex)
    (pipelineChunkOptions (optionsOf options).1.2) = [] ->
  let doc := created sha256 pathName filePath originalName userId mimeType
      fileSize title
               bytes (store w) in
  processDocument filePath originalName userId mimeType fileSize title
    options w
  = (Ok (failure (Some doc)
           (lit "Document could not be chunked - content may be too short")),
     {| store := {| documents :=
                      markStatus (id doc) failed
                        (documents (store w) ++ [doc]);
                    document_chunks := document_chunks (store w);
                    next_id := S (next_id (store w)) |};
        trace := trace w |}).
Proof.
  intros Hread Hfind Hex Hblank Hchunks doc.
  rewrite (processDocument_new _ _ _ _ _ _ _ _ _ Hread Hfind).
  fold doc.
  unfold optionsOf in *. cbn [fst snd] in *.
  unfold DocumentService.pipeline.
  unfold bind at 1. unfold updateDocumentStatus, updateDocuments at 1.
  unfold bind at 1. unfold getStore at 1. unfold putStore at 1.
  cbn [store trace afterCreate documents document_chunks next_id].
  unfold bind at 1. rewrite Hex. cbn [liftE ret].
  rewrite Hblank, Hchunks.
  unfold throw, onFailure, bind, updateDocumentStatus, updateDocuments, bind,
    getStore, putStore, ret.
  cbn [store trace documents document_chunks next_id errorMessage].
  fold (markStatus (id doc) processing (documents (store w) ++ [doc])).
  fold (markStatus (id doc) failed
          (markStatus (id doc) processing (documents (store w) ++ [doc]))).
  rewrite markStatus_twice. reflexivity.
Qed.

Lemma vector_in_plain rows :
  Forall (fun c => embedding c = None) rows ->
  mapE (fun c => vector_in (embeddingParam c)) rows
  = inr (map (fun _ => None) rows).
Proof.
  induction 1 as [|c rows Hc _ IH]; [reflexivity|].
  cbn [mapE map]. unfold embeddingParam at 1. rewrite Hc. cbn [vector_in].
  by rewrite IH.
Qed.

(** An insert of rows without an embedding stores them. *)
Lemma batchInsertChunks_run rows w :
  Forall (fun c => embedding c = None) rows ->
  batchInsertChunks rows w
  = (Ok tt, withStore w
       {| documents := documents (store w);
          document_chunks := document_chunks (store w)
             ++ imap (fun i c => withChunkId c (next_id (store w) + i)) rows;
          next_id := (next_id (store w) + length rows)%nat |}).
Proof.
  intros Hplain. destruct rows as [|c rows].
  - destruct w as [[docs chunks n] t].
    unfold batchInsertChunks, ret, withStore. simpl.
    by rewrite app_nil_r, Nat.add_0_r.
  - unfold batchInsertChunks. rewrite (vector_in_plain _ Hplain).
    reflexivity.
Qed.

(** An insert stores all its rows or, when the database refuses a
    parameter, none of them. *)
Lemma batchInsertChunks_cases rows w :
  match batchInsertChunks rows w with
  | (Ok _, w') => w' = withStore w (insertRows (store w) rows)
  | (_, w') => w' = w
  end.
Proof.
  destruct rows as [|c rows].
  - destruct w as [[docs chunks n] t].
    unfold batchInsertChunks, ret, withStore, insertRows. simpl.
    by rewrite app_nil_r, Nat.add_0_r.
  - unfold batchInsertChunks, bind at 1.
    destruct (mapE _ (c :: rows)) as [e|vs]; reflexivity.
Qed.

Lemma terminates_batchInsertChunks rows : terminates (batchInsertChunks rows).
Proof.
  intros w. destruct rows as [|c rows]; [discriminate|].
  unfold batchInsertChunks, bind at 1.
  destruct (mapE _ (c :: rows)) as [e|vs]; discriminate.
Qed.

(** A row with an embedding makes the database refuse the insert. *)
Lemma batchInsertChunks_refused rows w :
  rows <> [] ->
  Forall (fun c => embedding c <> None) rows ->
  exists msg, batchInsertChunks rows w = (Throw (JsError msg), w).
Proof.
  intros Hne Hall. destruct rows as [|c rows]; [done|].
  apply Forall_cons in Hall as [Hc _].
  unfold batchInsertChunks, bind at 1. cbn [mapE].
  unfold embeddingParam at 1.
  destruct (embedding c) as [v|]; [|done].
  cbn [vector_in liftE throw]. by eexists.
Qed.

Lemma chunkRows_rowOf docId textChunks :
  forall es rows,
    EmbeddingService.chunkRows docId (storeInputs textChunks) es = inr rows ->
    Forall2 (rowOf docId) textChunks rows.
Proof.
  induction textChunks as [|t ts IH]; intros es rows H.
  - simpl in H. injection H as <-. constructor.
  - cbn [storeInputs map EmbeddingService.chunkRows] in H.
    destruct es as [|e es]; [discriminate|].
    fold (storeInputs ts) in H.
    destruct (EmbeddingService.chunkRows docId (storeInputs ts) es)
      as [err|rows'] eqn:E; [discriminate|].
    injection H as <-. constructor; [split; reflexivity|].
    by apply (IH es).
Qed.

Lemma storeEmbeddings_cases docId textChunks es w :
  match EmbeddingService.storeEmbeddings docId (storeInputs textChunks) es w
  with
  | (Ok _, w') =>
    exists rows, Forall2 (rowOf docId) textChunks rows
                 /\ w' = withStore w (insertRows (store w) rows)
  | (_, w') => w' = w
  end.
Proof.
  unfold EmbeddingService.storeEmbeddings.
  destruct (negb _); [reflexivity|].
  unfold tryCatch, bind at 1.
  destruct (EmbeddingService.chunkRows docId (storeInputs textChunks) es)
    as [err|rows] eqn:E; cbn [liftE throw ret]; [reflexivity|].
  pose proof (batchInsertChunks_cases rows w) as Hins.
  destruct (batchInsertChunks rows w) as [[u|e|] w']; subst w';
    [|reflexivity|reflexivity].
  exists rows. split; [by apply (chunkRows_rowOf docId textChunks es)|done].
Qed.

Lemma storeChunksWithoutEmbeddings_run docId textChunks w :
  exists rows,
    Forall2 (rowOf docId) textChunks rows
    /\ storeChunksWithoutEmbeddings docId textChunks w
       = (Ok tt, withStore w (insertRows (store w) rows)).
Proof.
  unfold storeChunksWithoutEmbeddings. eexists.
  split;
    [|apply batchInsertChunks_run, List.Forall_forall; intros c Hc;
      apply in_map_iff in Hc as [t [<- _]]; reflexivity].
  induction textChunks as [|t ts IH]; simpl; constructor;
    [split; reflexivity|exact IH].
Qed.

Lemma pipeline_cases doc filePath mimeType ge copts eopts w :
  let s1 := {| documents := markStatus (id doc) processing (documents (store
      w));
               document_chunks := document_chunks (store w);
               next_id := next_id (store w) |} in
  let textChunks := fun ex => TextChunker.chunkText (extracted_content ex)
      (pipelineChunkOptions copts) in
  match pipeline doc filePath mimeType ge copts eopts w with
  | (Throw e, w') => store w' = s1
  | (Diverge, w') => store w' = s1
  | (Ok r, w') =>
    exists ex rows,
      extractText filePath mimeType eopts = inr ex
      /\ Forall2 (rowOf (id doc)) (textChunks ex) rows
      /\ store w' = completedStore s1 (id doc) (Z.of_nat (length (textChunks
          ex))) rows
      /\ document r = head (List.filter (fun d => (id d =? id doc)%nat)
          (documents (store w')))
      /\ success r = true
  end.
Proof.
  intros s1 textChunks.
  unfold DocumentService.pipeline.
  unfold bind at 1. unfold updateDocumentStatus, updateDocuments at 1.
  unfold bind at 1. unfold getStore at 1. unfold putStore at 1.
  fold (markStatus (id doc) processing (documents (store w))). fold s1.
  unfold bind at 1.
  destruct (extractText filePath mimeType eopts) as [e|ex] eqn:Hex; cbn [liftE
      throw ret]; [reflexivity|].
  destruct (EmbeddingService.isBlank (extracted_content ex)); [reflexivity|].
  fold (textChunks ex).
  destruct (textChunks ex) as [|c cs] eqn:Hchunks; [reflexivity|].
  rewrite <- Hchunks. clear Hchunks c cs. set (tcs := textChunks ex).
  fold (storeInputs tcs). fold (embeddingInputs tcs).
  set (W := {| store := s1; trace := trace w |}).
  assert (Hstep :
    match (if ge
           then do r <- EmbeddingService.generateEmbeddings provider
               (embeddingInputs tcs) EmbeddingService.noOptions ;
                do _ <- EmbeddingService.storeEmbeddings (id doc) (storeInputs
                    tcs) (EmbeddingService.embeddings r) ;
                ret (Some r)
           else do _ <- storeChunksWithoutEmbeddings (id doc) tcs ; ret None) W
               with
    | (Ok _, w2) => exists rows, Forall2 (rowOf (id doc)) tcs rows /\ store w2 =
        insertRows s1 rows
    | (_, w2) => store w2 = s1
    end).
  { destruct ge.
    - unfold bind at 1.
      pose proof (generateEmbeddings_store provider (embeddingInputs tcs)
          EmbeddingService.noOptions W) as Hst.
      destruct (EmbeddingService.generateEmbeddings provider (embeddingInputs
          tcs) EmbeddingService.noOptions W) as [[r|e|] w2]; cbn [snd] in Hst;
          [|exact Hst|exact Hst].
      unfold bind at 1.
      pose proof (storeEmbeddings_cases (id doc) tcs
          (EmbeddingService.embeddings r) w2) as Hse.
      destruct (EmbeddingService.storeEmbeddings (id doc) (storeInputs tcs)
          (EmbeddingService.embeddings r) w2) as [[u|e|] w3].
      + destruct Hse as [rows [Hrows ->]]. exists rows. split; [exact Hrows|].
          cbn [ret store withStore]. by rewrite Hst.
      + by subst w3.
      + by subst w3.
    - unfold bind at 1.
      destruct (storeChunksWithoutEmbeddings_run (id doc) tcs W) as [rows [Hrows
          ->]].
      exists rows. split; [exact Hrows|reflexivity]. }
  unfold bind at 1.
  destruct (if ge then _ else _) as [[er|e|] w2]; [|exact Hstep|exact Hstep].
  destruct Hstep as [rows [Hrows Hst]].
  unfold bind, updateDocumentProcessing, updateDocuments, bind, getStore,
      putStore, findDocumentById, getDocumentChunks, selectChunksOfDocument,
      bind, getStore, ret.
  cbn [store documents document_chunks next_id success document].
  exists ex, rows. split; [reflexivity|]. split; [exact Hrows|].
  rewrite Hst. split; [reflexivity|]. split; reflexivity.
Qed.


Lemma sameKeys_mark n status :
  sameKeys (fun d => if (id d =? n)%nat then setStatus d status else d).
Proof. intros d. by destruct (id d =? n)%nat. Qed.

Lemma sameKeys_complete n count :
  sameKeys (fun d => if (id d =? n)%nat
                     then setChunkCount (setStatus d completed) count else d).
Proof. intros d. by destruct (id d =? n)%nat. Qed.

Lemma sameKeys_compose f g : sameKeys f -> sameKeys g -> sameKeys (fun d => g (f
    d)).
Proof.
  intros Hf Hg d. destruct (Hf d) as [? [? ?]], (Hg (f d)) as [? [? ?]].
  repeat split; congruence.
Qed.

Lemma processDocument_new_cases filePath originalName userId mimeType
    fileSize title options w bytes :
  readFile filePath = Some bytes ->
  List.filter (sameContent (sha256 bytes) userId) (documents (store w))
  = [] ->
  let doc := created sha256 pathName filePath originalName userId mimeType
      fileSize title
               bytes (store w) in
  match processDocument filePath originalName userId mimeType fileSize title
          options w with
  | (Ok r, w') => Ingested w doc r w'
  | (Throw _, _) => False
  | (Diverge, _) => True
  end.
Proof.
  intros Hread Hfind doc.
  rewrite (processDocument_new _ _ _ _ _ _ _ _ _ Hread Hfind).
  fold doc.
  pose proof (pipeline_cases doc filePath mimeType (optionsOf options).1.1
                (optionsOf options).1.2 (optionsOf options).2 (afterCreate w
                    doc)) as Hp.
  cbv zeta in Hp.
  destruct (pipeline doc filePath mimeType _ _ _ (afterCreate w doc)) as [[r|e|]
      w2].
  - destruct Hp as [ex [rows [_ [Hrows [Hst [Hdoc Hsucc]]]]]].
    eapply ingest_completed with (rows := rows);
      [| |exact Hdoc|exact Hsucc|eexists; eexists; reflexivity|exact Hrows| |].
    + apply (sameKeys_compose _ _ (sameKeys_mark (id doc) processing)
               (sameKeys_complete (id doc)
                  (Z.of_nat (length (TextChunker.chunkText
                     (extracted_content ex)
                     (pipelineChunkOptions (optionsOf options).1.2)))))).
    + rewrite Hst. cbn [completedStore documents afterCreate store].
      unfold markStatus. by rewrite map_map.
    + rewrite Hst. reflexivity.
    + rewrite Hst. reflexivity.
  - unfold onFailure, bind, updateDocumentStatus, updateDocuments, bind,
      getStore, putStore, ret.
    rewrite Hp. cbn [store documents document_chunks next_id afterCreate].
    eapply ingest_failed; cbn [store documents document_chunks next_id document
        success failure];
      [| |reflexivity..].
    + apply (sameKeys_compose _ _ (sameKeys_mark (id doc) processing)
               (sameKeys_mark (id doc) failed)).
    + unfold markStatus. by rewrite map_map.
  - exact I.
Qed.

Lemma terminates_pipeline doc filePath mimeType ge copts eopts :
  terminates (pipeline doc filePath mimeType ge copts eopts).
Proof.
  unfold DocumentService.pipeline.
  apply terminates_bind; [intros w; discriminate|intros _].
  apply terminates_bind; [apply terminates_liftE|intros ex].
  destruct (EmbeddingService.isBlank (extracted_content ex));
    [apply terminates_throw|].
  destruct (TextChunker.chunkText _ _) as [|c cs]; [apply terminates_throw|].
  apply terminates_bind.
  - destruct ge.
    + apply terminates_bind;
        [apply terminates_generateEmbeddings; simpl; lia|intros r].
      apply terminates_bind; [|intros _; apply terminates_ret].
      unfold EmbeddingService.storeEmbeddings.
      destruct (negb _); [apply terminates_throw|].
      apply terminates_tryCatch; [|intros e; apply terminates_throw].
      apply terminates_bind; [apply terminates_liftE|intros rows].
      apply terminates_batchInsertChunks.
    + apply terminates_bind; [|intros _; apply terminates_ret].
      unfold storeChunksWithoutEmbeddings.
      apply terminates_batchInsertChunks.
  - intros er.
    apply terminates_bind; [intros w; discriminate|intros _].
    apply terminates_bind; [intros w; discriminate|intros fd].
    apply terminates_bind; [intros w; discriminate|intros sc].
    apply terminates_ret.
Qed.

(** [processDocument] always returns a result: it neither throws nor
    runs for ever. *)
Lemma processDocument_returns filePath originalName userId mimeType
    fileSize title options w :
  exists r w',
    processDocument filePath originalName userId mimeType fileSize title
      options w = (Ok r, w').
Proof.
  destruct (readFile filePath) as [bytes|] eqn:Hread.
  2:{ unfold DocumentService.processDocument, calculateFileHash, bind.
      rewrite Hread. cbn. eexists. eexists. reflexivity. }
  destruct (List.filter (sameContent (sha256 bytes) userId)
              (documents (store w))) as [|d rest] eqn:Hfind.
  2:{ rewrite (processDocument_existing _ _ _ _ _ _ _ _ bytes d rest
                 Hread Hfind). eexists. eexists. reflexivity. }
  pose proof (processDocument_new_cases filePath originalName userId
                mimeType fileSize title options w bytes Hread Hfind)
    as Hcases.
  cbv zeta in Hcases.
  destruct (processDocument filePath originalName userId mimeType fileSize
              title options w) as [[r|e|] w'] eqn:Hrun.
  - exists r, w'. reflexivity.
  - destruct Hcases.
  - exfalso.
    rewrite (processDocument_new _ _ _ _ _ _ _ _ _ Hread Hfind) in Hrun.
    pose proof (terminates_pipeline
                  (created sha256 pathName filePath originalName userId
                     mimeType fileSize title bytes (store w))
                  filePath mimeType (optionsOf options).1.1
                  (optionsOf options).1.2 (optionsOf options).2
                  (afterCreate w
                     (created sha256 pathName filePath originalName userId
                        mimeType fileSize title bytes (store w)))) as Hp.
    destruct (pipeline _ filePath mimeType _ _ _ _) as [[r|e|] w2];
      [discriminate|discriminate|]. by apply Hp.
Qed.

Lemma startsWith_refl a : startsWith a a = true.
Proof. induction a as [|c a IH]; simpl; [done|]. by rewrite N.eqb_refl. Qed.

Lemma jsstring_eqb_refl a : TextChunker.jsstring_eqb a a = true.
Proof.
  unfold TextChunker.jsstring_eqb.
  by rewrite Nat.eqb_refl, startsWith_refl.
Qed.

Lemma startsWith_eq a b :
  length a = length b -> startsWith a b = true -> a = b.
Proof.
  revert b. induction a as [|x a IH]; intros [|y b] Hlen; simpl in *;
    try done.
  intros H. apply andb_true_iff in H as [H1 H2].
  apply N.eqb_eq in H1. subst y. f_equal. apply IH; [lia|exact H2].
Qed.

Lemma jsstring_eqb_eq a b : TextChunker.jsstring_eqb a b = true <-> a = b.
Proof.
  split.
  - unfold TextChunker.jsstring_eqb. intros H.
    apply andb_true_iff in H as [H1 H2]. apply Nat.eqb_eq in H1.
    by apply startsWith_eq.
  - intros ->. apply jsstring_eqb_refl.
Qed.

(** The rows the deduplication looks up are of this content and this
    owner. *)
Lemma sameContent_spec hash userId d :
  sameContent hash userId d = true
  <-> content_hash d = hash /\ user_id d = userId.
Proof.
  unfold sameContent. by rewrite andb_true_iff, !jsstring_eqb_eq.
Qed.

Lemma filter_map_commute {A} (p : A -> bool) (f : A -> A) l :
  (forall x, p (f x) = p x) ->
  List.filter p (map f l) = map f (List.filter p l).
Proof.
  intros H. induction l as [|x l IH]; simpl; [done|].
  rewrite H. destruct (p x); simpl; by rewrite IH.
Qed.

Lemma sameContent_keys f hash userId :
  sameKeys f -> forall d, sameContent hash userId (f d) = sameContent hash
      userId d.
Proof.
  intros Hf d. destruct (Hf d) as [_ [Hh Hu]].
  unfold sameContent. by rewrite Hh, Hu.
Qed.

Lemma filter_In_head {A} (p : A -> bool) l x :
  head (List.filter p l) = Some x -> In x l /\ p x = true.
Proof.
  intros H. apply filter_In.
  destruct (List.filter p l) as [|y l'] eqn:E; [discriminate|].
  simpl in H. injection H as ->. by left.
Qed.

Lemma head_filter_id f docs doc :
  sameKeys f ->
  exists d1,
    head (List.filter (fun d => (id d =? id doc)%nat) (map f (docs ++ [doc])))
    = Some d1
    /\ id d1 = id doc.
Proof.
  intros Hf. induction docs as [|a docs IH]; simpl.
  - destruct (Hf doc) as [Hid _]. rewrite Hid, Nat.eqb_refl.
    exists (f doc). done.
  - destruct (id (f a) =? id doc)%nat eqn:E; [|exact IH].
    exists (f a). split; [done|]. by apply Nat.eqb_eq.
Qed.

(** After a call that returned, a second call for the same owner on a file
    with the same bytes returns the stored document and leaves the world
    as it was. *)
Lemma processDocument_second_call
    filePath1 originalName1 mimeType1 fileSize1 title1 options1
    filePath2 originalName2 mimeType2 fileSize2 title2 options2
    userId bytes w r1 w1 :
  readFile filePath1 = Some bytes ->
  readFile filePath2 = Some bytes ->
  processDocument
    filePath1 originalName1 userId mimeType1 fileSize1 title1
    options1 w = (Ok r1, w1) ->
  exists d1 d2,
    document r1 = Some d1
    /\ processDocument
         filePath2 originalName2 userId mimeType2 fileSize2 title2
         options2 w1
       = (Ok {| document := Some d2; chunks := None;
                extraction_result := None; embedding_result := None;
                success := true; error := None |}, w1)
    /\ id d2 = id d1
    /\ In d2 (documents (store w1))
    /\ user_id d2 = userId
    /\ content_hash d2 = sha256 bytes.
Proof.
  intros Hread1 Hread2 Hrun.
  destruct (List.filter (sameContent (sha256 bytes) userId)
              (documents (store w))) as [|d rest] eqn:Hfind.
  - pose proof (processDocument_new_cases filePath1 originalName1 userId
                  mimeType1 fileSize1 title1 options1 w bytes Hread1 Hfind)
      as Hcases.
    cbv zeta in Hcases. rewrite Hrun in Hcases.
    set (doc := created sha256 pathName filePath1 originalName1 userId mimeType1
        fileSize1
                  title1 bytes (store w)) in *.
    assert (Hdocs : exists f, sameKeys f
              /\ documents (store w1) = map f (documents (store w) ++ [doc])).
    { destruct Hcases as [f Hf Hd _ _ _ _|f tcs rows Hf Hd _ _ _ _ _ _];
        exists f; done. }
    destruct Hdocs as [f [Hf Hd]].
    assert (Hfind1 : List.filter (sameContent (sha256 bytes) userId)
                       (documents (store w1)) = [f doc]).
    { rewrite Hd, (filter_map_commute _ f) by (apply sameContent_keys, Hf).
      rewrite List.filter_app, Hfind. cbn [app List.filter].
      replace (sameContent (sha256 bytes) userId doc) with true; [done|].
      unfold sameContent, doc, created. cbn [content_hash user_id].
      by rewrite !jsstring_eqb_refl. }
    assert (Hid1 : exists d1, document r1 = Some d1 /\ id d1 = id doc).
    { destruct Hcases as [f' _ _ Hdoc _ _ _|f' tcs rows _ _ Hdoc _ _ _ _ _].
      - exists doc. done.
      - rewrite Hd in Hdoc.
        destruct (head_filter_id f (documents (store w)) doc Hf)
          as [d1 [Hd1 Hid]].
        exists d1. split; [congruence|exact Hid]. }
    destruct Hid1 as [d1 [Hdoc1 Hid1]].
    exists d1, (f doc). split; [exact Hdoc1|].
    split; [|split; [|split]].
    + apply (processDocument_existing
               _ _ _ _ _ _ _ _ bytes (f doc) [] Hread2 Hfind1).
    + destruct (Hf doc) as [-> _]. by rewrite Hid1.
    + rewrite Hd. apply in_map, in_or_app. right. by left.
    + destruct (Hf doc) as [_ [-> ->]]. done.
  - rewrite (processDocument_existing
               _ _ _ _ _ _ _ _ bytes d rest Hread1 Hfind) in Hrun.
    injection Hrun as <- <-.
    assert (Hin : In d (List.filter (sameContent (sha256 bytes) userId)
                          (documents (store w)))) by (rewrite Hfind; by left).
    apply filter_In in Hin as [Hin Hsame].
    apply sameContent_spec in Hsame as [Hhash Huser].
    exists d, d. split; [reflexivity|].
    split; [|split; [reflexivity|split; [exact Hin|done]]].
    apply (processDocument_existing
             _ _ _ _ _ _ _ _ bytes d rest Hread2 Hfind).
Qed.

(** C1.  Two calls for the same owner on files with the same bytes: the
    first one returns, and the second one returns the stored document,
    under the id the first call returned, and leaves the world as it was:
    no document row, no chunk row, no provider call, and the stored
    document untouched.  The document returned is a row of this owner
    with the hash of these bytes. *)
Theorem processDocument_idempotent
    filePath1 originalName1 mimeType1 fileSize1 title1 options1
    filePath2 originalName2 mimeType2 fileSize2 title2 options2
    userId bytes w :
  readFile filePath1 = Some bytes ->
  readFile filePath2 = Some bytes ->
  exists r1 w1 d1 d2,
    processDocument
      filePath1 originalName1 userId mimeType1 fileSize1 title1
      options1 w = (Ok r1, w1)
    /\ document r1 = Some d1
    /\ processDocument
         filePath2 originalName2 userId mimeType2 fileSize2 title2
         options2 w1
       = (Ok {| document := Some d2; chunks := None;
                extraction_result := None; embedding_result := None;
                success := true; error := None |}, w1)
    /\ id d2 = id d1
    /\ In d2 (documents (store w1))
    /\ user_id d2 = userId
    /\ content_hash d2 = sha256 bytes.
Proof.
  intros Hread1 Hread2.
  destruct (processDocument_returns filePath1 originalName1 userId
              mimeType1 fileSize1 title1 options1 w) as [r1 [w1 Hrun]].
  destruct (processDocument_second_call
              filePath1 originalName1 mimeType1 fileSize1 title1 options1
              filePath2 originalName2 mimeType2 fileSize2 title2 options2
              userId bytes w r1 w1 Hread1 Hread2 Hrun) as [d1 [d2 H]].
  exists r1, w1, d1, d2. split; [exact Hrun|exact H].
Qed.

Lemma rowOf_indices docId tcs rows :
  Forall2 (rowOf docId) tcs rows ->
  map chunk_index rows = map TextChunker.chunk_index tcs
  /\ Forall (fun c => document_id c = docId) rows.
Proof.
  induction 1 as [|t c tcs rows [Hd Hi] _ [IH1 IH2]]; [done|].
  simpl. rewrite Hi, IH1. split; [done|]. by constructor.
Qed.

Lemma filter_new_rows docId n k rows :
  Forall (fun c => document_id c = n) rows ->
  List.filter (fun c => (document_id c =? docId)%nat)
    (imap (fun i c => withChunkId c (k + i)) rows)
  = if (n =? docId)%nat then imap (fun i c => withChunkId c (k + i)) rows
    else [].
Proof.
  intros H. revert k. induction H as [|c rows Hc _ IH]; intros k.
  - by destruct (n =? docId)%nat.
  - rewrite imap_cons. cbn [List.filter withChunkId document_id].
    rewrite Hc.
    rewrite (imap_ext _ (fun i c => withChunkId c (S k + i)) rows)
      by (intros; simpl; f_equal; lia).
    rewrite IH. by destruct (n =? docId)%nat.
Qed.

Lemma map_index_new_rows k rows :
  map chunk_index (imap (fun i c => withChunkId c (k + i)) rows)
  = map chunk_index rows.
Proof.
  revert k. induction rows as [|c rows IH]; intros k; [done|].
  rewrite imap_cons. simpl. f_equal.
  rewrite (imap_ext _ (fun i c => withChunkId c (S k + i)) rows)
    by (intros; simpl; f_equal; lia).
  apply IH.
Qed.

Lemma filter_old_rows s :
  wfStore s ->
  List.filter (fun c => (document_id c =? next_id s)%nat) (document_chunks s)
  = [].
Proof.
  unfold wfStore. induction 1 as [|c l Hc _ IH]; [done|].
  simpl. replace (document_id c =? next_id s)%nat with false; [exact IH|].
  symmetry. apply Nat.eqb_neq. lia.
Qed.

Lemma new_rows_wf n bound k rows :
  Forall (fun c => document_id c = n) rows ->
  (n < bound)%nat ->
  Forall (fun c => (document_id c < bound)%nat)
    (imap (fun i c => withChunkId c (k + i)) rows).
Proof.
  intros H Hn. revert k. induction H as [|c rows Hc _ IH]; intros k.
  - constructor.
  - rewrite imap_cons. constructor; [simpl; lia|].
    rewrite (imap_ext _ (fun i c => withChunkId c (S k + i)) rows)
      by (intros; simpl; f_equal; lia).
    apply IH.
Qed.

Lemma processDocument_keeps_contiguous filePath originalName userId
    mimeType fileSize title options w r w' :
  wfStore (store w) ->
  contiguous (store w) ->
  processDocument
    filePath originalName userId mimeType fileSize title options w
  = (Ok r, w') ->
  wfStore (store w') /\ contiguous (store w').
Proof.
  intros Hwf Hcont Hrun.
  destruct (readFile filePath) as [bytes|] eqn:Hread.
  2:{ unfold DocumentService.processDocument, calculateFileHash, bind in Hrun.
      rewrite Hread in Hrun. cbn in Hrun. injection Hrun as _ <-. done. }
  destruct (List.filter (sameContent (sha256 bytes) userId)
              (documents (store w))) as [|d rest] eqn:Hfind.
  2:{ rewrite (processDocument_existing
               _ _ _ _ _ _ _ _ bytes d rest Hread Hfind) in Hrun.
      injection Hrun as _ <-. done. }
  pose proof (processDocument_new_cases filePath originalName userId
                mimeType fileSize title options w bytes Hread Hfind)
    as Hcases.
  cbv zeta in Hcases. rewrite Hrun in Hcases.
  destruct Hcases as [f _ _ _ _ Hch Hn|f tcs rows _ _ _ _ Htcs Hrows Hch Hn].
  - split.
    + unfold wfStore. rewrite Hch, Hn.
      eapply Forall_impl; [exact Hwf|]. simpl. intros c Hc. lia.
    + intros docId. unfold chunksOf. rewrite Hch. apply Hcont.
  - destruct (rowOf_indices _ _ _ Hrows) as [Hidx Hdoc].
    cbn [created id] in Hdoc.
    split.
    + unfold wfStore. rewrite Hch, Hn. apply Forall_app. split.
      * eapply Forall_impl; [exact Hwf|]. simpl. intros c Hc. lia.
      * apply (new_rows_wf (next_id (store w))); [exact Hdoc|lia].
    + intros docId. unfold chunksOf. rewrite Hch, List.filter_app.
      rewrite (filter_new_rows docId (next_id (store w)) _ rows Hdoc).
      destruct (next_id (store w) =? docId)%nat eqn:E.
      * apply Nat.eqb_eq in E. subst docId.
        rewrite (filter_old_rows (store w) Hwf). cbn [app].
        rewrite map_index_new_rows, length_imap, Hidx.
        destruct Htcs as [text [o ->]].
        rewrite TextChunkerFacts.chunkText_indices.
        f_equal. by apply Forall2_length in Hrows.
      * rewrite app_nil_r. apply Hcont.
Qed.

End WithCollaborators.

(** The failing embedding step on the sample report: the provider is
    down, the row ends in [failed], no chunk row is written. *)
Lemma processDocument_embedding_failure_witness :
  exists r w',
    DocumentService.processDocument Examples.down Examples.sampleReadFile
      Examples.sampleDigest Examples.sampleExtract Examples.samplePathName
      Examples.reportPath (lit "report.txt") Examples.alice
      Examples.textPlain 152 None Examples.defaultProcessing
      Examples.world0 = (Ok r, w')
    /\ success r = false
    /\ error r = Some (lit "Embedding generation failed: rate limit exceeded")
    /\ Forall (fun d => id d = 1%nat -> processing_status d = failed)
         (documents (store w'))
    /\ document_chunks (store w') = [].
Proof.
  edestruct (processDocument_embedding_failure Examples.down
               Examples.sampleReadFile Examples.sampleDigest
               Examples.sampleExtract Examples.samplePathName
               Examples.reportPath (lit "report.txt") Examples.alice
               Examples.textPlain 152 None Examples.defaultProcessing
               Examples.world0)
    as [r [w' [Hrun [Hs [He [_ [_ [Hst Hch]]]]]]]].
  - vm_compute. reflexivity.
  - vm_compute. reflexivity.
  - reflexivity.
  - vm_compute. reflexivity.
  - vm_compute. reflexivity.
  - vm_compute. reflexivity.
  - vm_compute. reflexivity.
  - exists r, w'. split; [exact Hrun|]. split; [exact Hs|].
    split; [exact He|]. split; [exact Hst|exact Hch].
Defined.

(** C10.  [chunkText] returns the empty array, without throwing, for the
    empty string and for every string of white space, whatever the
    options; it is [processDocument] that turns an empty array of chunks
    into a failure: the call returns with [success] false and the message
    that the document could not be chunked, and the row is marked
    [failed]. *)
Theorem chunkText_blank_returns_no_chunk :
  (forall text options,
      forallb isWhiteSpace text = true ->
      TextChunker.chunkText text options = [])
  /\ (forall provider readFile sha256 extractText pathName
             filePath originalName userId mimeType fileSize title options
             w bytes ex,
        readFile filePath = Some bytes ->
        List.filter (sameContent (sha256 bytes) userId)
          (documents (store w)) = [] ->
        extractText filePath mimeType (optionsOf options).2 = inr ex ->
        EmbeddingService.isBlank (extracted_content ex) = false ->
        TextChunker.chunkText (extracted_content ex)
          (pipelineChunkOptions (optionsOf options).1.2) = [] ->
        exists r w',
          DocumentService.processDocument provider readFile sha256
            extractText pathName filePath originalName userId mimeType
            fileSize title options w = (Ok r, w')
          /\ success r = false
          /\ error r = Some (lit
               "Document could not be chunked - content may be too short")
          /\ document_chunks (store w') = document_chunks (store w)
          /\ Forall (fun d => id d = next_id (store w) ->
                              processing_status d = failed)
               (documents (store w'))).
Proof.
  split.
  - apply TextChunkerFacts.chunkText_blank.
  - intros provider readFile sha256 extractText pathName filePath
      originalName userId mimeType fileSize title options w bytes ex
      Hread Hfind Hex Hblank Hchunks.
    eexists. eexists. split.
    + apply (processDocument_no_chunks provider readFile sha256 extractText
               pathName _ _ _ _ _ _ _ _ _ _ Hread Hfind Hex Hblank Hchunks).
    + cbn [success error failure store documents document_chunks].
      repeat split.
      apply (markStatus_status (next_id (store w)) failed).
Qed.

(** A string of five white-space code units, among them a no-break space
    and a line separator, gives no chunk; and the sample note, too short
    to chunk, comes back from [processDocument] as a failure. *)
Lemma chunkText_blank_returns_no_chunk_witness :
  TextChunker.chunkText [32; 10; 9; 160; 8232]%N
    (ChunkerExamples.sentenceExampleOptions (Some 0)) = []
  /\ exists r w',
       DocumentService.processDocument Examples.steady
         Examples.sampleReadFile Examples.sampleDigest
         Examples.sampleExtract Examples.samplePathName
         Examples.notePath (lit "note.txt") Examples.alice
         Examples.textPlain 8 None Examples.defaultProcessing
         Examples.world0 = (Ok r, w')
       /\ success r = false.
Proof.
  destruct chunkText_blank_returns_no_chunk as [Hblank Hfail].
  split.
  - apply Hblank. reflexivity.
  - edestruct (Hfail Examples.steady Examples.sampleReadFile
                 Examples.sampleDigest Examples.sampleExtract
                 Examples.samplePathName Examples.notePath (lit "note.txt")
                 Examples.alice Examples.textPlain 8 None
                 Examples.defaultProcessing Examples.world0)
      as [r [w' [Hrun [Hs _]]]].
    + vm_compute. reflexivity.
    + vm_compute. reflexivity.
    + vm_compute. reflexivity.
    + vm_compute. reflexivity.
    + vm_compute. reflexivity.
    + exists r, w'. split; [exact Hrun|exact Hs].
Defined.

(** The sample report ingested twice by the same owner: the second call
    returns the document of the first, and the world does not move. *)
Lemma processDocument_idempotent_witness :
  exists r1 w1 d1 d2,
    DocumentService.processDocument Examples.steady Examples.sampleReadFile
      Examples.sampleDigest Examples.sampleExtract Examples.samplePathName
      Examples.reportPath (lit "report.txt") Examples.alice
      Examples.textPlain 152 None Examples.defaultProcessing
      Examples.world0 = (Ok r1, w1)
    /\ document r1 = Some d1
    /\ DocumentService.processDocument Examples.steady
         Examples.sampleReadFile Examples.sampleDigest
         Examples.sampleExtract Examples.samplePathName
         Examples.reportPath (lit "copy of report.txt") Examples.alice
         Examples.textPlain 152 (Some (lit "Report")) Examples.smallChunks w1
       = (Ok {| document := Some d2; chunks := None;
                extraction_result := None; embedding_result := None;
                success := true; error := None |}, w1)
    /\ id d2 = id d1
    /\ In d2 (documents (store w1))
    /\ user_id d2 = Examples.alice
    /\ content_hash d2
       = Examples.sampleDigest (Examples.bytesOf Examples.reportText).
Proof.
  apply (processDocument_idempotent Examples.steady
           Examples.sampleReadFile Examples.sampleDigest
           Examples.sampleExtract Examples.samplePathName
           Examples.reportPath (lit "report.txt") Examples.textPlain
           152 None Examples.defaultProcessing
           Examples.reportPath (lit "copy of report.txt")
           Examples.textPlain 152 (Some (lit "Report"))
           Examples.smallChunks Examples.alice
           (Examples.bytesOf Examples.reportText) Examples.world0);
    vm_compute; reflexivity.
Defined.

(** C6.  The chunks [chunkText] returns are numbered 0, ..., N-1 in order.
    In the store, "the chunk rows of every document carry exactly the
    indices 0, ..., N-1" is an invariant of ingestion: it holds of the
    empty store, and every call of [processDocument] returns and keeps it
    (together with the fact that chunk rows only refer to keys already
    drawn). *)
Theorem chunk_indices_contiguous :
  (forall text options,
      map TextChunker.chunk_index (TextChunker.chunkText text options)
      = seq 0 (length (TextChunker.chunkText text options)))
  /\ (wfStore Examples.emptyStore /\ contiguous Examples.emptyStore)
  /\ (forall provider readFile sha256 extractText pathName
             filePath originalName userId mimeType fileSize title options
             w,
        wfStore (store w) ->
        contiguous (store w) ->
        exists r w',
          DocumentService.processDocument provider readFile sha256
            extractText pathName filePath originalName userId mimeType
            fileSize title options w = (Ok r, w')
          /\ wfStore (store w') /\ contiguous (store w')).
Proof.
  split; [|split].
  - apply TextChunkerFacts.chunkText_indices.
  - split; [constructor|]. intros docId. reflexivity.
  - intros provider readFile sha256 extractText pathName filePath
      originalName userId mimeType fileSize title options w Hwf Hcont.
    destruct (processDocument_returns provider readFile sha256 extractText
                pathName filePath originalName userId mimeType fileSize
                title options w) as [r [w' Hrun]].
    exists r, w'. split; [exact Hrun|].
    exact (processDocument_keeps_contiguous provider readFile sha256
             extractText pathName filePath originalName userId mimeType
             fileSize title options w r w' Hwf Hcont Hrun).
Qed.

(** The sample manual, ingested without embeddings in chunks of at most
    200 code units: two chunk rows, with the indices 0 and 1. *)
Lemma chunk_indices_contiguous_witness :
  exists r w',
    DocumentService.processDocument Examples.steady Examples.sampleReadFile
      Examples.sampleDigest Examples.sampleExtract Examples.samplePathName
      Examples.manualPath (lit "manual.txt") Examples.alice
      Examples.textPlain 289 None Examples.smallChunksPlain Examples.world0
    = (Ok r, w')
    /\ success r = true
    /\ map chunk_index (chunksOf (store w') 1) = [0; 1]%nat
    /\ wfStore (store w') /\ contiguous (store w').
Proof.
  destruct chunk_indices_contiguous as [_ [[Hwf Hcont] Hkeep]].
  destruct (Hkeep Examples.steady Examples.sampleReadFile
              Examples.sampleDigest Examples.sampleExtract
              Examples.samplePathName Examples.manualPath
              (lit "manual.txt") Examples.alice Examples.textPlain 289 None
              Examples.smallChunksPlain Examples.world0 Hwf Hcont)
    as [r [w' [E Hinv]]].
  exists r, w'. split; [exact E|].
  vm_compute in E. injection E as <- <-.
  split; [reflexivity|]. split; [reflexivity|exact Hinv].
Defined.

End DocumentFacts.

(** ** Reprocessing *)

Module ReprocessFacts.
Import Db DbOps DocumentService EmbeddingSpec DocumentSpec Frames.

Section WithProvider.

Variable provider : EmbeddingService.Provider.

Lemma In_insertByIndex c x l : In x (insertByIndex c l) <-> x = c \/ In x l.
Proof.
  induction l as [|d l IH]; simpl; [intuition congruence|].
  destruct (chunk_index c <=? chunk_index d)%nat; simpl;
    [intuition congruence|].
  rewrite IH. intuition congruence.
Qed.

Lemma In_orderByIndex x l : In x (orderByIndex l) <-> In x l.
Proof.
  unfold orderByIndex. induction l as [|d l IH]; simpl; [tauto|].
  rewrite In_insertByIndex, IH. intuition congruence.
Qed.

Lemma setEmbedding_twice c v v' :
  setEmbedding (setEmbedding c v) v' = setEmbedding c v'.
Proof. reflexivity. Qed.

(** The first update of the loop is refused: the embedding is bound as
    an array. *)
Lemma updateRows_refused x L e es w :
  exists msg,
    EmbeddingService.updateRows (x :: L) (e :: es) w
    = (Throw (JsError msg), w).
Proof. eexists. reflexivity. Qed.

Lemma updateRows_frame L :
  forall es w,
    let w' := snd (EmbeddingService.updateRows L es w) in
    documents (store w') = documents (store w)
    /\ next_id (store w') = next_id (store w)
    /\ trace w' = trace w
    /\ Forall2 (reembedded (fun c => In (chunk_id c) (map chunk_id L)))
         (document_chunks (store w)) (document_chunks (store w')).
Proof.
  induction L as [|x L IH]; intros es w; cbn [EmbeddingService.updateRows].
  - cbn. repeat split. apply Forall2_same_length_lookup_2; [done|].
    intros i c c' H1 H2. left. congruence.
  - destruct es as [|e es].
    + cbn. repeat split. apply Forall2_same_length_lookup_2; [done|].
      intros i c c' H1 H2. left. congruence.
    + destruct (updateRows_refused x L e es w) as [msg Hrun].
      cbn [EmbeddingService.updateRows] in Hrun. rewrite Hrun.
      cbn [snd]. repeat split.
      apply Forall2_same_length_lookup_2; [done|].
      intros i c c' H1 H2. left. congruence.
Qed.

Lemma reembedded_refl P l : Forall2 (reembedded P) l l.
Proof. induction l; constructor; [by left|done]. Qed.

Lemma updateEmbeddings_frame docId force w :
  let w' := snd (EmbeddingService.updateEmbeddings provider docId force w) in
  documents (store w') = documents (store w)
  /\ next_id (store w') = next_id (store w)
  /\ Forall2 (reembedded (fun c => In (chunk_id c)
                             (map chunk_id
                                (selectedChunks (store w) docId force))))
       (document_chunks (store w)) (document_chunks (store w')).
Proof.
  unfold EmbeddingService.updateEmbeddings, tryCatch.
  unfold bind at 1. unfold selectChunksOfDocument, bind, getStore, ret.
  fold (selectedChunks (store w) docId force).
  unfold selectedChunks at 1.
  destruct (orderByIndex (chunksOf (store w) docId)) as [|c0 cs0] eqn:Hsel.
  { cbn. repeat split. apply reembedded_refl. }
  rewrite <- Hsel. clear Hsel.
  fold (selectedChunks (store w) docId force).
  destruct (selectedChunks (store w) docId force) as [|x L] eqn:HL.
  { cbn. repeat split. apply reembedded_refl. }
  rewrite <- HL. set (sel := selectedChunks (store w) docId force) in *.
  pose proof (generateEmbeddings_store provider
    (map (fun chunk => {| EmbeddingService.input_content := content chunk;
                          EmbeddingService.input_chunk_index := chunk_index
                              chunk |}) sel)
    EmbeddingService.noOptions w) as Hst.
  destruct (EmbeddingService.generateEmbeddings provider _ _ w) as [[r|e|] w2];
    cbn [snd] in Hst.
  - pose proof (updateRows_frame sel (EmbeddingService.embeddings r) w2) as Hu.
    cbv zeta in Hu.
    destruct (EmbeddingService.updateRows sel (EmbeddingService.embeddings r)
        w2)
      as [[u|e|] w3]; cbn [snd throw] in *; rewrite Hst in Hu;
      destruct Hu as [Hd [Hn [_ Hc]]]; repeat split; done.
  - cbn [snd throw]. rewrite Hst. repeat split. apply reembedded_refl.
  - cbn [snd]. rewrite Hst. repeat split. apply reembedded_refl.
Qed.

Lemma NoDup_map_inj {A B} (f : A -> B) l x y :
  NoDup (map f l) -> In x l -> In y l -> f x = f y -> x = y.
Proof.
  induction l as [|a l IH]; simpl; [done|].
  intros Hnd [->|Hx] [->|Hy] Hf; try done.
  - apply NoDup_cons_1_1 in Hnd. exfalso. apply Hnd.
    rewrite Hf. apply list_elem_of_In. by apply in_map.
  - apply NoDup_cons_1_1 in Hnd. exfalso. apply Hnd.
    rewrite <- Hf. apply list_elem_of_In. by apply in_map.
  - apply NoDup_cons_1_2 in Hnd. by apply IH.
Qed.

Lemma Forall2_impl_In {A B} (R R' : A -> B -> Prop) l k :
  Forall2 R l k ->
  (forall x y, In x l -> R x y -> R' x y) ->
  Forall2 R' l k.
Proof.
  induction 1 as [|x y l k Hxy _ IH]; intros Himp; constructor.
  - apply Himp; [by left|done].
  - apply IH. intros a b Ha. apply Himp. by right.
Qed.

Lemma selectedChunks_In s docId force x :
  In x (selectedChunks s docId force) ->
  In x (document_chunks s) /\ selectedFor docId force x.
Proof.
  unfold selectedChunks, selectedFor, chunksOf.
  destruct force.
  - rewrite In_orderByIndex, filter_In. intros [Hin Hd].
    apply Nat.eqb_eq in Hd. auto.
  - rewrite filter_In, In_orderByIndex, filter_In. intros [[Hin Hd] Hl].
    apply Nat.eqb_eq in Hd. auto.
Qed.

Lemma reprocessDocument_frame docId userId force w :
  NoDup (map chunk_id (document_chunks (store w))) ->
  let w' := snd (reprocessDocument provider docId userId force w) in
  documents (store w') = documents (store w)
  /\ next_id (store w') = next_id (store w)
  /\ Forall2 (reembedded (selectedFor docId force))
       (document_chunks (store w)) (document_chunks (store w')).
Proof.
  intros Hnd.
  assert (Hsame : documents (store w) = documents (store w)
                  /\ next_id (store w) = next_id (store w)
                  /\ Forall2 (reembedded (selectedFor docId force))
                       (document_chunks (store w)) (document_chunks (store w)))
    by (repeat split; apply reembedded_refl).
  unfold reprocessDocument, tryCatch.
  unfold bind at 1. unfold selectDocumentOfUser, bind, getStore, ret.
  destruct (List.filter _ (documents (store w))) as [|d rest]; [exact Hsame|].
  destruct (negb (status_eqb (processing_status d) completed) && negb force);
    [exact Hsame|].
  pose proof (updateEmbeddings_frame docId force w) as Hu. cbv zeta in Hu.
  destruct (EmbeddingService.updateEmbeddings provider docId force w)
    as [[res|e|] w2]; cbn [snd throw] in *;
    destruct Hu as [Hd [Hn Hc]]; (split; [exact Hd|]; split; [exact Hn|]);
    (eapply Forall2_impl_In; [exact Hc|]);
    (intros c c' Hin [->|[Hid [v ->]]]; [by left|]; right;
     split; [|by eexists];
     apply in_map_iff in Hid; destruct Hid as [x [Hx Hxin]];
     apply selectedChunks_In in Hxin; destruct Hxin as [Hxs Hsel];
     by rewrite <- (NoDup_map_inj chunk_id _ x c Hnd Hxs Hin Hx)).
Qed.

Lemma filter_none {A} (p : A -> bool) l :
  (forall x, In x l -> p x = false) -> List.filter p l = [].
Proof.
  induction l as [|a l IH]; intros H; simpl; [done|].
  rewrite (H a) by (by left). apply IH. intros x Hx. apply H. by right.
Qed.

Lemma reprocessDocument_not_completed docId userId w d rest :
  List.filter (ownedBy docId userId) (documents (store w)) = d :: rest ->
  processing_status d <> completed ->
  reprocessDocument provider docId userId false w
  = (Throw (JsError (lit
       "Document must be in completed status to reprocess")), w).
Proof.
  intros Hsel Hst.
  unfold reprocessDocument, tryCatch.
  unfold bind at 1. unfold selectDocumentOfUser, bind, getStore, ret.
  unfold ownedBy in Hsel. rewrite Hsel.
  by destruct (processing_status d).
Qed.

Lemma reprocessDocument_nothing_to_do docId userId w d rest :
  List.filter (ownedBy docId userId) (documents (store w)) = d :: rest ->
  processing_status d = completed ->
  Forall (fun c => EmbeddingService.lacksEmbedding c = false)
    (chunksOf (store w) docId) ->
  reprocessDocument provider docId userId false w
  = (Ok {| reprocess_success := true; reprocess_cost := Q2Qc 0;
           chunks_updated := 0 |}, w).
Proof.
  intros Hsel Hst Hall.
  unfold reprocessDocument, tryCatch.
  unfold bind at 1. unfold selectDocumentOfUser, bind, getStore, ret.
  unfold ownedBy in Hsel. rewrite Hsel, Hst. cbn [status_eqb negb andb].
  unfold EmbeddingService.updateEmbeddings, tryCatch.
  unfold bind at 1. unfold selectChunksOfDocument, bind, getStore, ret.
  destruct (orderByIndex (chunksOf (store w) docId)) as [|c0 cs0] eqn:Hord;
    [reflexivity|].
  rewrite <- Hord.
  rewrite (filter_none EmbeddingService.lacksEmbedding
             (orderByIndex (chunksOf (store w) docId))); [reflexivity|].
  intros x Hx. apply (proj1 (In_orderByIndex _ _)) in Hx.
  rewrite Forall_forall in Hall. apply Hall. by apply list_elem_of_In.
Qed.

End WithProvider.

(** C9.  [reprocessDocument] without [force] throws when the document is
    not in status [completed] (and, forced or not, when the owner has no
    such document).  Without [force], on a completed document whose chunk
    rows all carry an embedding, it returns zero updated chunks and zero
    cost in an unchanged world, so without a provider call.  And in every
    case, whatever the outcome, the table of documents is left as it was
    and a chunk row is either left as it was or differs in its embedding
    only, the latter only for rows of this document that lacked an
    embedding or were forced. *)
Theorem reprocessDocument_contract provider docId userId w :
  (forall d rest,
      List.filter (ownedBy docId userId) (documents (store w)) = d :: rest ->
      processing_status d <> completed ->
      reprocessDocument provider docId userId false w
      = (Throw (JsError (lit
           "Document must be in completed status to reprocess")), w))
  /\ (forall force,
        List.filter (ownedBy docId userId) (documents (store w)) = [] ->
        reprocessDocument provider docId userId force w
        = (Throw (JsError (lit "Document not found or access denied")), w))
  /\ (forall d rest,
        List.filter (ownedBy docId userId) (documents (store w))
        = d :: rest ->
        processing_status d = completed ->
        Forall (fun c => EmbeddingService.lacksEmbedding c = false)
          (chunksOf (store w) docId) ->
        reprocessDocument provider docId userId false w
        = (Ok {| reprocess_success := true; reprocess_cost := Q2Qc 0;
                 chunks_updated := 0 |}, w))
  /\ (forall force,
        NoDup (map chunk_id (document_chunks (store w))) ->
        let w' := snd (reprocessDocument provider docId userId force w) in
        documents (store w') = documents (store w)
        /\ next_id (store w') = next_id (store w)
        /\ Forall2 (reembedded (selectedFor docId force))
             (document_chunks (store w)) (document_chunks (store w'))).
Proof.
  split; [|split; [|split]].
  - apply reprocessDocument_not_completed.
  - intros force Hnone.
    unfold reprocessDocument, tryCatch.
    unfold bind at 1. unfold selectDocumentOfUser, bind, getStore, ret.
    unfold ownedBy in Hnone. rewrite Hnone. reflexivity.
  - apply reprocessDocument_nothing_to_do.
  - intros force. apply reprocessDocument_frame.
Qed.

(** The ingested report: reprocessing without [force] has nothing to do;
    with [force] it leaves the document row alone.  The report whose
    ingestion failed cannot be reprocessed without [force]. *)
Lemma reprocessDocument_contract_witness :
  reprocessDocument Examples.steady 1 Examples.alice false
    Examples.failedWorld
  = (Throw (JsError (lit
       "Document must be in completed status to reprocess")),
     Examples.failedWorld)
  /\ reprocessDocument Examples.steady 1 Examples.alice false
       Examples.ingestedWorld
     = (Ok {| reprocess_success := true; reprocess_cost := Q2Qc 0;
              chunks_updated := 0 |}, Examples.ingestedWorld)
  /\ documents
       (store (snd (reprocessDocument Examples.steady 1 Examples.alice true
                      Examples.ingestedWorld)))
     = documents (store Examples.ingestedWorld).
Proof.
  split; [|split].
  - destruct (reprocessDocument_contract Examples.steady 1 Examples.alice
                Examples.failedWorld) as [H _].
    eapply H; [vm_compute; reflexivity|discriminate].
  - destruct (reprocessDocument_contract Examples.steady 1 Examples.alice
                Examples.ingestedWorld) as [_ [_ [H _]]].
    eapply H; [vm_compute; reflexivity|reflexivity|].
    vm_compute. repeat constructor.
  - destruct (reprocessDocument_contract Examples.steady 1 Examples.alice
                Examples.ingestedWorld) as [_ [_ [_ H]]].
    destruct (H true) as [Hd _]; [|exact Hd].
    vm_compute. repeat constructor. intros Hin. inversion Hin.
Defined.

End ReprocessFacts.

(** ** The retriever *)

Module SearchFacts.
Import Db DbOps VectorSearchService Frames.

Lemma Qc_leb_le x y : Qc_leb x y = true <-> (x <= y)%Qc.
Proof. unfold Qc_leb, Qcle. apply Qle_bool_iff. Qed.

Lemma Qc_leb_total x y : Qc_leb x y = true \/ Qc_leb y x = true.
Proof.
  destruct (Qclt_le_dec x y) as [H|H].
  - left. apply Qc_leb_le. by apply Qclt_le_weak.
  - right. by apply Qc_leb_le.
Qed.

Lemma Qc_leb_trans x y z :
  Qc_leb x y = true -> Qc_leb y z = true -> Qc_leb x z = true.
Proof. rewrite !Qc_leb_le. apply Qcle_trans. Qed.

Lemma Qc_leb_iff_eq a b c d :
  ((a <= b)%Qc <-> (c <= d)%Qc) -> Qc_leb a b = Qc_leb c d.
Proof.
  intros H. destruct (Qc_leb a b) eqn:E1, (Qc_leb c d) eqn:E2; try done.
  - apply Qc_leb_le, H, Qc_leb_le in E1. congruence.
  - apply Qc_leb_le, H, Qc_leb_le in E2. congruence.
Qed.

(** The order of the similarities is the reverse of the order of the
    distances. *)
Lemma Qc_leb_similarity x y :
  Qc_leb (1 - y) (1 - x) = Qc_leb x y.
Proof.
  apply Qc_leb_iff_eq. split; intros H.
  - apply (Qcplus_le_mono_l _ _ (-1)) in H.
    replace (-1 + (1 - y))%Qc with (- y)%Qc in H by ring.
    replace (-1 + (1 - x))%Qc with (- x)%Qc in H by ring.
    apply Qcopp_le_compat in H. by rewrite !Qcopp_involutive in H.
  - apply Qcplus_le_mono_l. by apply Qcopp_le_compat.
Qed.

Section OrderBy.
Context {A : Type} (leb : A -> A -> bool).

Lemma In_insertBy x y l : In y (insertBy leb x l) <-> y = x \/ In y l.
Proof.
  induction l as [|z l IH]; simpl; [intuition congruence|].
  destruct (leb x z); simpl; [intuition congruence|].
  rewrite IH. intuition congruence.
Qed.

Lemma In_orderBy y l : In y (orderBy leb l) <-> In y l.
Proof.
  unfold orderBy. induction l as [|x l IH]; simpl; [tauto|].
  rewrite In_insertBy, IH. intuition congruence.
Qed.

Hypothesis leb_total : forall x y, leb x y = true \/ leb y x = true.
Hypothesis leb_trans :
  forall x y z, leb x y = true -> leb y z = true -> leb x z = true.

Lemma insertBy_sorted x l :
  StronglySorted (fun a b => leb a b = true) l ->
  StronglySorted (fun a b => leb a b = true) (insertBy leb x l).
Proof.
  induction 1 as [|z l Hl IH Hz]; simpl.
  - repeat constructor.
  - destruct (leb x z) eqn:E.
    + constructor; [by constructor|].
      constructor; [done|].
      eapply Forall_impl; [exact Hz|]. simpl. intros b Hb.
      by apply (leb_trans x z b).
    + constructor; [exact IH|].
      apply Forall_forall. intros b Hb.
      apply list_elem_of_In, In_insertBy in Hb. destruct Hb as [->|Hb].
      * destruct (leb_total x z) as [H|H]; congruence.
      * rewrite Forall_forall in Hz. apply Hz. by apply list_elem_of_In.
Qed.

Lemma orderBy_sorted l :
  StronglySorted (fun a b => leb a b = true) (orderBy leb l).
Proof.
  unfold orderBy. induction l as [|x l IH]; simpl; [constructor|].
  by apply insertBy_sorted.
Qed.

End OrderBy.



Lemma StronglySorted_map {A B} (R : A -> A -> Prop) (R' : B -> B -> Prop)
    (f : A -> B) l :
  (forall a b, R a b -> R' (f a) (f b)) ->
  StronglySorted R l -> StronglySorted R' (map f l).
Proof.
  intros H. induction 1 as [|x l Hl IH Hx]; simpl; constructor; [done|].
  apply Forall_forall. intros b Hb.
  apply list_elem_of_In, in_map_iff in Hb. destruct Hb as [a [<- Ha]].
  apply H. rewrite Forall_forall in Hx. apply Hx. by apply list_elem_of_In.
Qed.

Lemma StronglySorted_take {A} (R : A -> A -> Prop) n l :
  StronglySorted R l -> StronglySorted R (take n l).
Proof.
  intros H. rewrite <- (take_drop n l) in H.
  by apply StronglySorted_app_1_l in H.
Qed.

(** Rounding keeps the order. *)
Lemma Math_round_mono x y : (x <= y)%Qc -> Math_round x <= Math_round y.
Proof.
  intros H. unfold Math_round. apply Qfloor_resp_le.
  change ((x + Q2Qc (1 # 2))%Qc <= (y + Q2Qc (1 # 2))%Qc)%Qc.
  by apply Qcplus_le_mono_r.
Qed.

Lemma Q2Qc_inject_Z_le a b :
  a <= b -> (Q2Qc (inject_Z a) <= Q2Qc (inject_Z b))%Qc.
Proof.
  intros H. unfold Qcle. simpl. rewrite !Qred_correct.
  by rewrite <- Zle_Qle.
Qed.

Lemma round4_mono x y : (x <= y)%Qc -> (round4 x <= round4 y)%Qc.
Proof.
  intros H. unfold round4, Qcdiv.
  apply Qcmult_le_mono_nonneg_r; [done|].
  apply Q2Qc_inject_Z_le, Math_round_mono.
  apply Qcmult_le_mono_nonneg_r; [done|exact H].
Qed.

Lemma Forall_map_impl {A B} (P : A -> Prop) (Q : B -> Prop) (f : A -> B) l :
  Forall P l -> (forall x, P x -> Q (f x)) -> Forall Q (map f l).
Proof.
  intros H Himp. induction H as [|x l Hx _ IH]; simpl; constructor; auto.
Qed.

(** *** Any order of the rows *)








Section Search.
Variable provider : EmbeddingService.Provider.
Variable distance : list Qc -> list Qc -> Qc.
Variable ts_rank_cd : jsstring -> jsstring -> Qc.
Variable ts_match : jsstring -> jsstring -> bool.

(** What the database returns to [semanticSearch], before the scores are
    rounded. *)
Lemma semanticSearch_results query userId options w resp w' :
  semanticSearch provider distance query userId options w = (Ok resp, w') ->
  exists qe,
    results resp
    = map formatSearchResult
        (semanticQuery distance qe userId
           (default true (include_metadata options))
           (filter_document_ids options) (exclude_document_ids options)
           (default (Q2Qc (7 # 10)) (similarity_threshold options))
           (default 10%nat (limit options)) (store w')).
Proof.
  unfold semanticSearch, tryCatch, bind.
  destruct (EmbeddingService.generateQueryEmbedding provider query _ w)
    as [[qe|e|] w1]; [|discriminate|discriminate].
  unfold getStore, ret. intros H. injection H as <- <-.
  exists qe. reflexivity.
Qed.

Lemma semanticQuery_length qe userId incl filt excl threshold lim s :
  (length (semanticQuery distance qe userId incl filt excl threshold lim s)
   <= lim)%nat.
Proof.
  unfold semanticQuery. rewrite length_map, length_take. lia.
Qed.

Lemma semanticQuery_sorted qe userId incl filt excl threshold lim s :
  StronglySorted (fun a b => (similarity_score b <= similarity_score a)%Qc)
    (semanticQuery distance qe userId incl filt excl threshold lim s).
Proof.
  unfold semanticQuery.
  eapply StronglySorted_map; [|apply StronglySorted_take, orderBy_sorted].
  - intros a b Hab. cbn [selectRow similarity_score].
    apply Qc_leb_le. rewrite Qc_leb_similarity. exact Hab.
  - intros x y. apply Qc_leb_total.
  - intros x y z. apply Qc_leb_trans.
Qed.

Lemma semanticQuery_threshold qe userId incl filt excl threshold lim s :
  Forall (fun r => (threshold <= similarity_score r)%Qc)
    (semanticQuery distance qe userId incl filt excl threshold lim s).
Proof.
  unfold semanticQuery. apply Forall_forall. intros r Hr.
  apply list_elem_of_In, in_map_iff in Hr. destruct Hr as [x [<- Hx]].
  apply list_elem_of_In, (subseteq_take lim), list_elem_of_In in Hx.
  apply In_orderBy, filter_In in Hx. destruct Hx as [_ Hx].
  apply andb_prop in Hx. destruct Hx as [_ Hx].
  cbn [selectRow similarity_score]. by apply Qc_leb_le.
Qed.

Lemma semanticSearch_length query userId options w resp w' :
  semanticSearch provider distance query userId options w = (Ok resp, w') ->
  (length (results resp) <= default 10 (limit options))%nat.
Proof.
  intros Hrun.
  destruct (semanticSearch_results _ _ _ _ _ _ Hrun) as [qe ->].
  rewrite length_map. apply semanticQuery_length.
Qed.

(** C2, amended: every row [semanticSearch] returns has a similarity at
    or above the threshold before rounding, and carries that similarity
    rounded to four decimal places, which is at or above the rounded
    threshold; the rows come in non-increasing order of the returned
    score, and there are at most [limit] of them. *)
Theorem semanticSearch_results_ranked query userId options w resp w' :
  semanticSearch provider distance query userId options w = (Ok resp, w') ->
  let threshold := default (Q2Qc (7 # 10)) (similarity_threshold options) in
  (length (results resp) <= default 10 (limit options))%nat
  /\ StronglySorted
       (fun a b => (similarity_score b <= similarity_score a)%Qc)
       (results resp)
  /\ Forall (fun r => exists raw, (threshold <= raw)%Qc
                                  /\ similarity_score r = round4 raw)
       (results resp)
  /\ Forall (fun r => (round4 threshold <= similarity_score r)%Qc)
       (results resp).
Proof.
  intros Hrun threshold.
  destruct (semanticSearch_results _ _ _ _ _ _ Hrun) as [qe ->].
  set (raw := semanticQuery distance qe userId _ _ _ _ _ _).
  pose proof (semanticQuery_length qe userId
                (default true (include_metadata options))
                (filter_document_ids options) (exclude_document_ids options)
                threshold (default 10%nat (limit options)) (store w')) as Hlen.
  pose proof (semanticQuery_sorted qe userId
                (default true (include_metadata options))
                (filter_document_ids options) (exclude_document_ids options)
                threshold (default 10%nat (limit options)) (store w')) as
                    Hsorted.
  pose proof (semanticQuery_threshold qe userId
                (default true (include_metadata options))
                (filter_document_ids options) (exclude_document_ids options)
                threshold (default 10%nat (limit options)) (store w')) as Hthr.
  fold raw in Hlen, Hsorted, Hthr.
  split; [by rewrite length_map|]. split; [|split].
  - eapply StronglySorted_map; [|exact Hsorted].
    intros a b Hab. cbn [formatSearchResult similarity_score].
    by apply round4_mono.
  - eapply Forall_map_impl; [exact Hthr|].
    intros r Hr. exists (similarity_score r). done.
  - eapply Forall_map_impl; [exact Hthr|].
    intros r Hr. cbn [formatSearchResult similarity_score].
    by apply round4_mono.
Qed.












End Search.

(** C2, as stated, fails: the threshold is applied by the database to the
    similarity it computes, and the score is rounded afterwards.  A chunk
    at similarity 5/13 = 0.38461538... passes the threshold 0.38461 and is
    returned with the score 0.3846, which is below the threshold. *)
Lemma semanticSearch_rounded_score_below_threshold :
  match semanticSearch Examples.axisProvider Examples.cosineDistance
          (lit "install the reader") Examples.alice
          (Examples.searchOptions (Q2Qc (38461 # 100000)))
          Examples.searchWorld with
  | (Ok resp, _) =>
    exists r, In r (results resp)
              /\ chunk_id r = 2%nat
              /\ similarity_score r = Q2Qc (3846 # 10000)
              /\ ~ (Q2Qc (38461 # 100000) <= similarity_score r)%Qc
  | _ => False
  end.
Proof.
  destruct (semanticSearch _ _ _ _ _ _) as [[resp| |] w'] eqn:E;
    [|vm_compute in E; discriminate|vm_compute in E; discriminate].
  vm_compute in E. injection E as <- _.
  eexists. split; [right; left; reflexivity|].
  split; [reflexivity|]. split.
  - apply Qc_is_canon. reflexivity.
  - intros H. apply Qc_leb_le in H. vm_compute in H. discriminate.
Qed.

(** The amended C2 on the sample store: both chunks are returned, the
    nearer one first. *)
Lemma semanticSearch_results_ranked_witness :
  exists resp w',
    semanticSearch Examples.axisProvider Examples.cosineDistance
      (lit "install the reader") Examples.alice
      (Examples.searchOptions (Q2Qc (38461 # 100000)))
      Examples.searchWorld = (Ok resp, w')
    /\ map chunk_id (results resp) = [3; 2]%nat
    /\ (length (results resp) <= 10)%nat
    /\ StronglySorted
         (fun a b => (similarity_score b <= similarity_score a)%Qc)
         (results resp)
    /\ Forall (fun r => (round4 (Q2Qc (38461 # 100000))
                         <= similarity_score r)%Qc) (results resp).
Proof.
  destruct (semanticSearch Examples.axisProvider Examples.cosineDistance
              (lit "install the reader") Examples.alice
              (Examples.searchOptions (Q2Qc (38461 # 100000)))
              Examples.searchWorld) as [[resp| |] w'] eqn:E.
  - destruct (semanticSearch_results_ranked _ _ _ _ _ _ _ _ E)
      as [Hlen [Hsorted [_ Hthr]]].
    exists resp, w'. split; [reflexivity|].
    split; [|split; [exact Hlen|split; [exact Hsorted|exact Hthr]]].
    vm_compute in E. injection E as <- _. reflexivity.
  - vm_compute in E. discriminate.
  - vm_compute in E. discriminate.
Defined.


End SearchFacts.

(** * Further properties *)

(** ** JavaScript strings *)

Module JSFacts.

Lemma dropWhile_split p s : s = takeWhile p s ++ dropWhile p s.
Proof.
  induction s as [|c s IH]; simpl; [done|].
  destruct (p c); simpl; [by rewrite <- IH|done].
Qed.

Lemma dropWhile_head p s c s' : dropWhile p s = c :: s' -> p c = false.
Proof.
  induction s as [|d s IH]; simpl; [done|].
  destruct (p d) eqn:E; [exact IH|]. intros [= <- <-]. exact E.
Qed.

Lemma dropWhile_fixed p c s : p c = false -> dropWhile p (c :: s) = c :: s.
Proof. intros E. simpl. by rewrite E. Qed.

Lemma dropWhile_idem p s : dropWhile p (dropWhile p s) = dropWhile p s.
Proof.
  destruct (dropWhile p s) as [|c s'] eqn:E; [done|].
  apply dropWhile_fixed, (dropWhile_head p s c s' E).
Qed.

(** Dropping from a string that ends in a code unit outside [p] keeps
    that code unit. *)
Lemma dropWhile_snoc p s c :
  p c = false -> exists u, dropWhile p (s ++ [c]) = u ++ [c].
Proof.
  intros E. induction s as [|d s IH]; simpl.
  - rewrite E. by exists [].
  - destruct (p d); [exact IH|]. by exists (d :: s).
Qed.

Lemma trimEnd_split s : exists k, s = trimEnd s ++ k.
Proof.
  unfold trimEnd, trimStart.
  exists (rev (takeWhile isWhiteSpace (rev s))).
  rewrite <- rev_app_distr, <- dropWhile_split. by rewrite rev_involutive.
Qed.

Lemma trim_split s : exists a b, s = a ++ trim s ++ b.
Proof.
  unfold trim.
  destruct (trimEnd_split (trimStart s)) as [k Hk].
  exists (takeWhile isWhiteSpace s), k.
  rewrite <- Hk. apply dropWhile_split.
Qed.

Lemma len_app a b : len (a ++ b) = len a + len b.
Proof. unfold len. rewrite length_app. lia. Qed.

Lemma len_nonneg s : 0 <= len s.
Proof. unfold len. lia. Qed.

Lemma len_trim s : len (trim s) <= len s.
Proof.
  destruct (trim_split s) as [a [b H]].
  rewrite H at 2. rewrite !len_app.
  pose proof (len_nonneg a). pose proof (len_nonneg b). lia.
Qed.

(** [trimEnd] leaves the front of a string that starts outside the white
    space as it is. *)
Lemma trimStart_trimEnd s :
  trimStart s = s -> trimStart (trimEnd s) = trimEnd s.
Proof.
  unfold trimEnd, trimStart. intros Hs.
  destruct s as [|c s]; [done|].
  assert (Hc : isWhiteSpace c = false)
    by (apply (dropWhile_head _ _ _ _ Hs)).
  simpl rev.
  destruct (dropWhile_snoc isWhiteSpace (rev s) c Hc) as [u ->].
  rewrite rev_app_distr. simpl. by rewrite Hc.
Qed.

Lemma trimEnd_idem s : trimEnd (trimEnd s) = trimEnd s.
Proof.
  unfold trimEnd, trimStart. rewrite rev_involutive.
  by rewrite dropWhile_idem.
Qed.

Lemma trim_idem s : trim (trim s) = trim s.
Proof.
  unfold trim.
  rewrite (trimStart_trimEnd (trimStart s)) by apply dropWhile_idem.
  apply trimEnd_idem.
Qed.

(** What [trim] returns starts and ends outside the white space. *)
Lemma trim_ends s :
  trimStart (trim s) = trim s /\ trimEnd (trim s) = trim s.
Proof.
  unfold trim. split.
  - apply trimStart_trimEnd, dropWhile_idem.
  - apply trimEnd_idem.
Qed.

Lemma clamp_range n x : 0 <= n -> 0 <= clamp n x <= n.
Proof. unfold clamp. lia. Qed.

Lemma substringFrom_drop s a :
  substringFrom s a = drop (Z.to_nat (clamp (len s) a)) s.
Proof.
  unfold substringFrom, substring.
  pose proof (len_nonneg s) as Hn.
  pose proof (clamp_range (len s) a Hn) as Ha.
  assert (Hb : clamp (len s) (len s) = len s) by (unfold clamp; lia).
  rewrite Hb.
  replace (Z.min (clamp (len s) a) (len s)) with (clamp (len s) a) by lia.
  replace (Z.max (clamp (len s) a) (len s)) with (len s) by lia.
  apply take_ge. rewrite length_drop. unfold len in *. lia.
Qed.

Lemma len_substring s a b :
  len (substring s a b)
  <= Z.max (clamp (len s) a) (clamp (len s) b)
     - Z.min (clamp (len s) a) (clamp (len s) b).
Proof.
  unfold substring. cbv zeta. unfold len at 1.
  rewrite length_take.
  pose proof (len_nonneg s) as Hn.
  pose proof (clamp_range (len s) a Hn).
  pose proof (clamp_range (len s) b Hn). lia.
Qed.

Lemma lastIndexOf_down_le s p k : lastIndexOf_down s p k <= Z.of_nat k.
Proof.
  induction k as [|k IH]; simpl.
  - destruct (startsWith p (drop 0 s)); lia.
  - destruct (startsWith p (drop (S k) s)); lia.
Qed.

Lemma lastIndexOf_le s p pos :
  lastIndexOf s p pos <= clamp (len s) pos.
Proof.
  unfold lastIndexOf.
  pose proof (lastIndexOf_down_le s p (Z.to_nat (clamp (len s) pos))).
  pose proof (clamp_range (len s) pos (len_nonneg s)). lia.
Qed.

End JSFacts.

(** ** The chunker, continued *)

Module ChunkerFacts.
Import TextChunker ChunkerSpec JSFacts.

Lemma In_imap {A B} (f : nat -> A -> B) l y :
  In y (imap f l) -> exists i x, y = f i x /\ In x l.
Proof.
  revert f. induction l as [|x l IH]; intros f; simpl; [done|].
  intros [<-|H]; [by exists O, x; auto|].
  destruct (IH _ H) as [i [x' [-> Hx]]]. exists (S i), x'. auto.
Qed.

(** X1.  Every chunk [chunkText] returns is fit for use: its content has
    no white space at either end, is at least [minChunkSize] code units
    long (the option as given, or the default of 100), and its token
    count is the content length divided by four, rounded up. *)
Theorem chunkText_chunks_wellformed text options c :
  In c (chunkText text options) ->
  trimmed (content c)
  /\ minChunkSize (spread defaultOptions options) <= len (content c)
  /\ content_tokens c = (len (content c) + 3) / 4
  /\ 4 * (content_tokens c - 1) < len (content c) <= 4 * content_tokens c.
Proof.
  unfold chunkText.
  destruct ((len text =? 0) || (len (trim text) =? 0)); [done|].
  cbv zeta. intros H.
  apply In_imap in H as [i [c1 [-> H]]].
  unfold postProcessChunks in H.
  apply In_imap in H as [j [c0 [-> H]]].
  apply List.filter_In in H as [_ H]. apply Z.leb_le in H.
  cbn [setIndexTokens setIndexContent content content_tokens].
  unfold trimmed, estimateTokens.
  split; [apply trim_idem|]. split; [exact H|]. split; [done|].
  pose proof (Z.div_mod (len (trim (content c0)) + 3) 4 ltac:(lia)).
  pose proof (Z.mod_pos_bound (len (trim (content c0)) + 3) 4 ltac:(lia)).
  lia.
Qed.

(** The sample manual, cut into chunks of at most 200 code units. *)
Lemma chunkText_chunks_wellformed_witness :
  exists c,
    In c (chunkText Examples.manualText (bySize 200 20 50))
    /\ trimmed (content c)
    /\ 50 <= len (content c)
    /\ content_tokens c = (len (content c) + 3) / 4.
Proof.
  eexists. split; [vm_compute; left; reflexivity|].
  edestruct (chunkText_chunks_wellformed Examples.manualText
               (bySize 200 20 50)) as [H1 [H2 [H3 _]]];
    [vm_compute; left; reflexivity|].
  split; [exact H1|]. split; [exact H2|exact H3].
Defined.

(** *** [preprocessText] is a normalisation *)

Lemma replace_crlf_noCR s : ~ In 13%N s -> replace_crlf s = s.
Proof.
  induction s as [|c s IH]; intros H; [done|].
  assert (Hc : c <> 13%N) by (intros ->; apply H; by left).
  assert (Hs : ~ In 13%N s) by (intros Hin; apply H; by right).
  simpl. rewrite (IH Hs).
  destruct c as [|p]; [done|].
  do 4 (destruct p as [p|p|]; try done).
Qed.

Lemma replace_cr_noCR s : ~ In 13%N (replace_cr s).
Proof.
  unfold replace_cr. intros H. apply in_map_iff in H as [c [Hc _]].
  destruct (c =? 13)%N eqn:E; [discriminate|].
  apply N.eqb_neq in E. congruence.
Qed.

Lemma replace_cr_id s : ~ In 13%N s -> replace_cr s = s.
Proof.
  unfold replace_cr. induction s as [|c s IH]; intros H; [done|].
  simpl. rewrite IH by (intros Hin; apply H; by right).
  destruct (c =? 13)%N eqn:E; [|done].
  apply N.eqb_eq in E. subst c. exfalso. apply H. by left.
Qed.

Lemma collapse_blanks_In s r c :
  In c (collapse_blanks s r) -> c = 32%N \/ In c s.
Proof.
  revert r. induction s as [|d s IH]; intros r; simpl; [done|].
  destruct ((d =? 32) || (d =? 9))%N.
  - destruct r; simpl.
    + intros H. destruct (IH _ H); auto.
    + intros [<-|H]; [by left|]. destruct (IH _ H); auto.
  - simpl. intros [<-|H]; [auto|]. destruct (IH _ H); auto.
Qed.

Lemma collapse_newlines_In s k c :
  In c (collapse_newlines s k) -> In c s.
Proof.
  revert k. induction s as [|d s IH]; intros k; simpl; [done|].
  destruct (d =? 10)%N.
  - destruct (k <? 2)%nat; simpl.
    + intros [<-|H]; [auto|]. right. by apply (IH (S k)).
    + intros H. right. by apply (IH (S k)).
  - simpl. intros [<-|H]; [auto|]. right. by apply (IH O).
Qed.

Lemma trim_In s c : In c (trim s) -> In c s.
Proof.
  destruct (trim_split s) as [a [b H]]. intros Hc.
  rewrite H. apply in_or_app. right. apply in_or_app. by left.
Qed.

Lemma blanksCollapsed_collapse s r :
  blanksCollapsed (collapse_blanks s r) r = true.
Proof.
  revert r. induction s as [|c s IH]; intros r; simpl; [done|].
  destruct (c =? 32)%N eqn:E32; simpl.
  - destruct r; [apply IH|]. simpl. apply IH.
  - destruct (c =? 9)%N eqn:E9; simpl.
    + destruct r; [apply IH|]. simpl. apply IH.
    + rewrite E9, E32. apply IH.
Qed.

Lemma blanksCollapsed_id s r :
  blanksCollapsed s r = true -> collapse_blanks s r = s.
Proof.
  revert r. induction s as [|c s IH]; intros r; simpl; [done|].
  destruct (c =? 9)%N eqn:E9; [discriminate|].
  destruct (c =? 32)%N eqn:E32; simpl.
  - destruct r; simpl; [discriminate|].
    intros H. rewrite (IH _ H). apply N.eqb_eq in E32. by subst c.
  - intros H. by rewrite (IH _ H).
Qed.

Lemma blanksCollapsed_weaken s r :
  blanksCollapsed s r = true -> blanksCollapsed s false = true.
Proof.
  destruct s as [|c s]; simpl; [done|].
  destruct (c =? 9)%N; [done|].
  destruct (c =? 32)%N; [|done].
  by destruct r.
Qed.

Lemma blanksCollapsed_tail c s r :
  blanksCollapsed (c :: s) r = true -> blanksCollapsed s false = true.
Proof.
  simpl. destruct (c =? 9)%N; [done|].
  destruct (c =? 32)%N; [|done].
  intros H. apply andb_true_iff in H as [_ H].
  by apply (blanksCollapsed_weaken s true).
Qed.

Lemma blanksCollapsed_suffix a s r :
  blanksCollapsed (a ++ s) r = true -> blanksCollapsed s false = true.
Proof.
  revert r. induction a as [|c a IH]; intros r H.
  - by apply (blanksCollapsed_weaken s r).
  - apply (IH false). by apply (blanksCollapsed_tail c _ r).
Qed.

Lemma blanksCollapsed_prefix s b r :
  blanksCollapsed (s ++ b) r = true -> blanksCollapsed s r = true.
Proof.
  revert r. induction s as [|c s IH]; intros r; simpl; [done|].
  destruct (c =? 9)%N; [done|].
  destruct (c =? 32)%N.
  - intros H. apply andb_true_iff in H as [H1 H2].
    rewrite H1. simpl. by apply IH.
  - apply IH.
Qed.

Lemma blanksCollapsed_newlines s k r :
  blanksCollapsed s r = true ->
  ((0 < k)%nat -> r = false) ->
  blanksCollapsed (collapse_newlines s k) r = true.
Proof.
  revert k r. induction s as [|c s IH]; intros k r; simpl; [done|].
  destruct (c =? 10)%N eqn:E10.
  - apply N.eqb_eq in E10. subst c. simpl. intros H Hk.
    destruct (k <? 2)%nat eqn:Ek.
    + simpl. apply IH; [exact H|done].
    + apply Nat.ltb_ge in Ek. rewrite (Hk ltac:(lia)).
      apply IH; [exact H|done].
  - simpl. destruct (c =? 9)%N; [done|].
    destruct (c =? 32)%N.
    + intros H _. apply andb_true_iff in H as [H1 H2].
      rewrite H1. simpl. apply IH; [exact H2|lia].
    + intros H _. apply IH; [exact H|lia].
Qed.

Lemma newlinesCollapsed_mono s k k' :
  (k <= k')%nat ->
  newlinesCollapsed s k' = true -> newlinesCollapsed s k = true.
Proof.
  revert k k'. induction s as [|c s IH]; intros k k' Hk; simpl; [done|].
  destruct (c =? 10)%N; [|done].
  intros H. apply andb_true_iff in H as [H1 H2].
  apply Nat.ltb_lt in H1.
  rewrite (IH (S k) (S k') ltac:(lia) H2), andb_true_r.
  apply Nat.ltb_lt. lia.
Qed.

Lemma newlinesCollapsed_collapse s k :
  newlinesCollapsed (collapse_newlines s k) k = true.
Proof.
  revert k. induction s as [|c s IH]; intros k; simpl; [done|].
  destruct (c =? 10)%N eqn:E10.
  - destruct (k <? 2)%nat eqn:Ek.
    + simpl. rewrite E10, Ek. apply IH.
    + apply (newlinesCollapsed_mono _ k (S k)); [lia|apply IH].
  - simpl. rewrite E10. apply IH.
Qed.

Lemma newlinesCollapsed_id s k :
  newlinesCollapsed s k = true -> collapse_newlines s k = s.
Proof.
  revert k. induction s as [|c s IH]; intros k; simpl; [done|].
  destruct (c =? 10)%N.
  - intros H. apply andb_true_iff in H as [H1 H2].
    rewrite H1. by rewrite (IH _ H2).
  - intros H. by rewrite (IH _ H).
Qed.

Lemma newlinesCollapsed_tail c s k :
  newlinesCollapsed (c :: s) k = true -> newlinesCollapsed s O = true.
Proof.
  simpl. destruct (c =? 10)%N; [|done].
  intros H. apply andb_true_iff in H as [_ H].
  apply (newlinesCollapsed_mono s O (S k)); [lia|exact H].
Qed.

Lemma newlinesCollapsed_suffix a s k :
  newlinesCollapsed (a ++ s) k = true -> newlinesCollapsed s O = true.
Proof.
  revert k. induction a as [|c a IH]; intros k H.
  - apply (newlinesCollapsed_mono s O k); [lia|exact H].
  - apply (IH O). by apply (newlinesCollapsed_tail c _ k).
Qed.

Lemma newlinesCollapsed_prefix s b k :
  newlinesCollapsed (s ++ b) k = true -> newlinesCollapsed s k = true.
Proof.
  revert k. induction s as [|c s IH]; intros k; simpl; [done|].
  destruct (c =? 10)%N.
  - intros H. apply andb_true_iff in H as [H1 H2].
    rewrite H1. simpl. by apply IH.
  - apply IH.
Qed.

(** X2.  [preprocessText] is a normalisation: what it returns has no
    carriage return and no tab, no space after a space, no run of more
    than two line feeds and no white space at either end; preprocessing
    it again changes nothing. *)
Theorem preprocessText_normal_form text :
  let t := preprocessText text in
  ~ In 13%N t /\ ~ In 9%N t
  /\ blanksCollapsed t false = true
  /\ newlinesCollapsed t O = true
  /\ trimmed t
  /\ preprocessText t = t.
Proof.
  cbv zeta. unfold preprocessText.
  set (b := replace_cr (replace_crlf text)).
  set (c := collapse_blanks b false).
  set (d := collapse_newlines c O).
  assert (HnoCR : ~ In 13%N (trim d)).
  { intros H. apply trim_In, collapse_newlines_In in H.
    apply collapse_blanks_In in H as [H|H]; [discriminate|].
    by apply (replace_cr_noCR (replace_crlf text)). }
  assert (Hbc : blanksCollapsed c false = true)
    by apply blanksCollapsed_collapse.
  assert (Hbd : blanksCollapsed d false = true)
    by (apply blanksCollapsed_newlines; [exact Hbc|done]).
  assert (Hnd : newlinesCollapsed d O = true)
    by apply newlinesCollapsed_collapse.
  destruct (trim_split d) as [pre [post Hd]].
  assert (Hbt : blanksCollapsed (trim d) false = true).
  { rewrite Hd in Hbd. apply blanksCollapsed_suffix in Hbd.
    by apply blanksCollapsed_prefix in Hbd. }
  assert (Hnt : newlinesCollapsed (trim d) O = true).
  { rewrite Hd in Hnd. apply newlinesCollapsed_suffix in Hnd.
    by apply newlinesCollapsed_prefix in Hnd. }
  assert (HnoTab : ~ In 9%N (trim d)).
  { clear -Hbt. revert Hbt. generalize false.
    induction (trim d) as [|x l IH]; intros r; simpl; [tauto|].
    destruct (x =? 9)%N eqn:E9; [done|].
    apply N.eqb_neq in E9.
    destruct (x =? 32)%N.
    - intros H [Hx|Hx]; [congruence|].
      apply andb_true_iff in H as [_ H]. by apply (IH true).
    - intros H [Hx|Hx]; [congruence|]. by apply (IH false). }
  split; [exact HnoCR|]. split; [exact HnoTab|].
  split; [exact Hbt|]. split; [exact Hnt|].
  split; [apply trim_idem|].
  rewrite (replace_crlf_noCR _ HnoCR), (replace_cr_id _ HnoCR).
  rewrite (blanksCollapsed_id _ _ Hbt), (newlinesCollapsed_id _ _ Hnt).
  apply trim_idem.
Qed.

(** *** The overlap carried into the next chunk *)

Lemma drop_split {A} k (l : list A) : exists pre, l = pre ++ drop k l.
Proof. exists (take k l). by rewrite take_drop. Qed.

Lemma len_drop k (s : jsstring) : len (drop k s) <= len s.
Proof. unfold len. rewrite length_drop. lia. Qed.

(** X3.  The overlap [getOverlapText] takes from a chunk is an end piece
    of that chunk and is at most [overlapSize] code units long (empty for
    a negative [overlapSize]). *)
Theorem getOverlapText_suffix_bound text overlapSize :
  (exists pre, text = pre ++ getOverlapText text overlapSize)
  /\ len (getOverlapText text overlapSize) <= Z.max 0 overlapSize.
Proof.
  unfold getOverlapText.
  destruct (len text <=? overlapSize) eqn:E.
  { apply Z.leb_le in E. split; [by exists []|lia]. }
  apply Z.leb_gt in E. cbv zeta.
  rewrite !substringFrom_drop.
  set (n := Z.to_nat (clamp (len text) (len text - overlapSize))).
  assert (Hov : len (drop n text) <= Z.max 0 overlapSize).
  { unfold len, n, clamp. rewrite length_drop.
    pose proof (len_nonneg text). unfold len in *. lia. }
  destruct (negb (search_punct_space (drop n text) 0 =? -1)
            && (2 * search_punct_space (drop n text) 0 <? overlapSize)).
  { rewrite drop_drop. split; [apply drop_split|].
    rewrite <- drop_drop.
    pose proof (len_drop
      (Z.to_nat (clamp (len (drop n text))
                   (search_punct_space (drop n text) 0 + 2)))
      (drop n text)). lia. }
  destruct (negb (indexOf (drop n text) [32%N] =? -1)).
  { rewrite drop_drop. split; [apply drop_split|].
    rewrite <- drop_drop.
    pose proof (len_drop
      (Z.to_nat (clamp (len (drop n text))
                   (indexOf (drop n text) [32%N] + 1)))
      (drop n text)). lia. }
  split; [apply drop_split|exact Hov].
Qed.

(** *** Cutting by size *)

Lemma findBestBreakpoint_range text start maxEnd seps L :
  0 <= maxEnd <= len text -> start <= maxEnd -> 0 <= L ->
  Forall (fun sep => len sep <= L) seps ->
  start <= findBestBreakpoint text start maxEnd seps <= maxEnd + L.
Proof.
  intros Hm Hs HL Hseps.
  induction Hseps as [|sep seps Hsep _ IH]; simpl; [lia|].
  destruct (start <? lastIndexOf text sep maxEnd) eqn:E; [|exact IH].
  apply Z.ltb_lt in E.
  pose proof (lastIndexOf_le text sep maxEnd) as Hle.
  pose proof (len_nonneg sep).
  unfold clamp in Hle. lia.
Qed.

Lemma chunkBySize_go_bound fuel text o position acc L :
  0 <= maxChunkSize o -> 0 <= L ->
  Forall (fun sep => len sep <= L) (separators o) ->
  0 <= position ->
  Forall (fun c => len (content c) <= maxChunkSize o + L) acc ->
  Forall (fun c => len (content c) <= maxChunkSize o + L)
    (chunkBySize_go fuel text o position acc).
Proof.
  intros Hmax HL Hseps. revert position acc.
  induction fuel as [|fuel IH]; intros position acc Hpos Hacc; simpl;
    [exact Hacc|].
  destruct (position <? len text) eqn:Elt; [|exact Hacc].
  apply Z.ltb_lt in Elt.
  set (chunkEnd0 := Z.min (position + maxChunkSize o) (len text)).
  set (chunkEnd :=
         if chunkEnd0 <? len text
         then if position + minChunkSize o
                 <? findBestBreakpoint text position chunkEnd0 (separators o)
              then findBestBreakpoint text position chunkEnd0 (separators o)
              else chunkEnd0
         else chunkEnd0).
  assert (Hend : position <= chunkEnd <= position + maxChunkSize o + L).
  { pose proof (findBestBreakpoint_range text position chunkEnd0
                  (separators o) L ltac:(unfold chunkEnd0; lia)
                  ltac:(unfold chunkEnd0; lia) HL Hseps) as Hb.
    unfold chunkEnd.
    destruct (chunkEnd0 <? len text); [|unfold chunkEnd0; lia].
    destruct (position + minChunkSize o <? _); unfold chunkEnd0 in *; lia. }
  apply IH; [lia|].
  destruct (minChunkSize o <=? len (trim (substring text position chunkEnd)));
    [|exact Hacc].
  apply Forall_app. split; [exact Hacc|].
  constructor; [|constructor].
  cbn [createChunk content].
  pose proof (len_trim (substring text position chunkEnd)).
  pose proof (len_substring text position chunkEnd) as Hsub.
  unfold clamp in Hsub. lia.
Qed.

(** X4.  Cutting by size alone ([preserveParagraphs] and
    [preserveSentences] off): no chunk is longer than [maxChunkSize] plus
    the length of the longest separator.  The slack is needed, because
    the cut is placed behind a separator that may start at the limit. *)
Theorem chunkText_by_size_length_bound text options L c :
  let o := spread defaultOptions options in
  preserveParagraphs o = false ->
  preserveSentences o = false ->
  0 <= maxChunkSize o ->
  0 <= L ->
  Forall (fun sep => len sep <= L) (separators o) ->
  In c (chunkText text options) ->
  len (content c) <= maxChunkSize o + L.
Proof.
  cbv zeta. intros Hp Hs Hmax HL Hseps.
  unfold chunkText.
  destruct ((len text =? 0) || (len (trim text) =? 0)); [done|].
  cbv zeta. rewrite Hp, Hs. intros H.
  apply In_imap in H as [i [c1 [-> H]]].
  unfold postProcessChunks in H.
  apply In_imap in H as [j [c0 [-> H]]].
  apply List.filter_In in H as [H _].
  cbn [setIndexTokens setIndexContent content].
  pose proof (chunkBySize_go_bound
                (length (preprocessText text)) (preprocessText text)
                (spread defaultOptions options) 0 [] L Hmax HL Hseps
                ltac:(lia) ltac:(constructor)) as Hall.
  rewrite List.Forall_forall in Hall.
  specialize (Hall c0 H).
  pose proof (len_trim (content c0)). lia.
Qed.

(** The sample manual in chunks of at most 200 code units, the separators
    being the default ones, of one or two code units. *)
Lemma chunkText_by_size_length_bound_witness :
  exists c,
    In c (chunkText Examples.manualText (bySize 200 20 50))
    /\ len (content c) <= 200 + 2.
Proof.
  eexists. split; [vm_compute; left; reflexivity|].
  apply (chunkText_by_size_length_bound Examples.manualText
           (bySize 200 20 50) 2).
  - reflexivity.
  - reflexivity.
  - vm_compute. discriminate.
  - lia.
  - repeat constructor; vm_compute; discriminate.
  - vm_compute. left. reflexivity.
Defined.

(** The limit itself can be passed: with a limit of four, the first
    chunk of "aaaa. bbbb" is "aaaa.", the cut standing behind the ". "
    that starts at the limit. *)
Lemma chunkBySize_exceeds_maxChunkSize :
  map content (chunkText (lit "aaaa. bbbb") (bySize 4 0 1))
  = [lit "aaaa."; lit "bbbb"].
Proof. vm_compute. reflexivity. Qed.

(** *** Statistics *)

Section Stats.
Import ChunkingStats.

Lemma sum_from l a : fold_left Z.add l a = a + sum l.
Proof.
  unfold sum. revert a. induction l as [|x l IH]; intros a; simpl; [lia|].
  rewrite (IH (a + x)), (IH (0 + x)). lia.
Qed.

Lemma sum_cons x l : sum (x :: l) = x + sum l.
Proof. unfold sum at 1. simpl. apply sum_from. Qed.

Lemma Math_min_spec x l :
  Math_min x l <= x /\ Forall (fun y => Math_min x l <= y) l.
Proof.
  unfold Math_min. revert x. induction l as [|y l IH]; intros x; simpl.
  - split; [lia|constructor].
  - destruct (IH (Z.min x y)) as [H1 H2]. split; [lia|].
    constructor; [lia|exact H2].
Qed.

Lemma Math_max_spec x l :
  x <= Math_max x l /\ Forall (fun y => y <= Math_max x l) l.
Proof.
  unfold Math_max. revert x. induction l as [|y l IH]; intros x; simpl.
  - split; [lia|constructor].
  - destruct (IH (Z.max x y)) as [H1 H2]. split; [lia|].
    constructor; [lia|exact H2].
Qed.

Lemma sum_bounds lo hi l :
  Forall (fun y => lo <= y <= hi) l ->
  Z.of_nat (length l) * lo <= sum l <= Z.of_nat (length l) * hi.
Proof.
  induction 1 as [|y l Hy _ IH]; [unfold sum; simpl; lia|].
  rewrite sum_cons. cbn [length]. lia.
Qed.

Lemma roundDiv_between a n lo hi :
  0 < n -> n * lo <= a <= n * hi ->
  lo <= EmbeddingService.roundDiv a n <= hi.
Proof.
  intros Hn H. unfold EmbeddingService.roundDiv. split.
  - apply Z.div_le_lower_bound; lia.
  - apply Z.lt_succ_r, Z.div_lt_upper_bound; lia.
Qed.

(** X5.  The statistics of a non-empty list of chunks are consistent: the
    number of chunks is the length of the list, the total is the sum of
    the content lengths, every content length lies between the minimum
    and the maximum, and so does the rounded average. *)
Theorem getChunkingStats_consistent chunks :
  chunks <> [] ->
  let st := getChunkingStats chunks in
  total_chunks st = length chunks
  /\ total_characters st = sum (map (fun c => len (content c)) chunks)
  /\ Forall (fun c => min_chunk_size st <= len (content c)
                      <= max_chunk_size st) chunks
  /\ min_chunk_size st <= avg_chunk_size st <= max_chunk_size st.
Proof.
  destruct chunks as [|first rest]; [done|]. intros _. cbv zeta.
  unfold getChunkingStats.
  cbn [total_chunks total_characters min_chunk_size max_chunk_size
       avg_chunk_size].
  set (sizes := map (fun chunk => len (content chunk)) rest).
  destruct (Math_min_spec (len (content first)) sizes) as [Hmin1 Hmin2].
  destruct (Math_max_spec (len (content first)) sizes) as [Hmax1 Hmax2].
  assert (Hall : Forall (fun y => Math_min (len (content first)) sizes <= y
                                  <= Math_max (len (content first)) sizes)
                   (len (content first) :: sizes)).
  { constructor; [lia|].
    rewrite List.Forall_forall in *. intros y Hy.
    specialize (Hmin2 y Hy). specialize (Hmax2 y Hy). lia. }
  split; [done|]. split; [done|]. split.
  - change (len (content first) :: sizes)
      with (map (fun c => len (content c)) (first :: rest)) in Hall.
    by apply Forall_map in Hall.
  - apply roundDiv_between; [cbn [length]; lia|].
    pose proof (sum_bounds _ _ _ Hall) as Hs.
    change (len (content first) :: sizes)
      with (map (fun c => len (content c)) (first :: rest)) in Hs.
    rewrite length_map in Hs. exact Hs.
Qed.

(** The statistics of the chunks of the sample manual. *)
Lemma getChunkingStats_consistent_witness :
  let st := getChunkingStats
              (chunkText Examples.manualText (bySize 200 20 50)) in
  total_chunks st = 2%nat
  /\ min_chunk_size st <= avg_chunk_size st <= max_chunk_size st.
Proof.
  cbv zeta.
  destruct (getChunkingStats_consistent
              (chunkText Examples.manualText (bySize 200 20 50)))
    as [H1 [_ [_ H4]]].
  - vm_compute. discriminate.
  - split; [|exact H4]. rewrite H1. vm_compute. reflexivity.
Defined.

End Stats.

End ChunkerFacts.

(** ** The embedder, continued *)

Module EmbedderFacts.
Import Db DbOps EmbeddingService EmbeddingSpec EmbedderSpec ChunkerSpec.
Import JSFacts Frames EmbeddingFacts.

Lemma substring_all s b : len s <= b -> substring s 0 b = s.
Proof.
  intros H. unfold substring, clamp. cbv zeta.
  pose proof (len_nonneg s).
  replace (Z.max 0 (Z.min 0 (len s))) with 0 by lia.
  replace (Z.max 0 (Z.min b (len s))) with (len s) by lia.
  replace (Z.min 0 (len s)) with 0 by lia.
  replace (Z.max 0 (len s)) with (len s) by lia.
  simpl. rewrite drop_0. apply take_ge. unfold len. lia.
Qed.

Lemma estimate_fits text :
  ((len text + 3) / 4 <=? maxInputLength) = true
  <-> len text <= maxInputLength * 4.
Proof.
  unfold maxInputLength. rewrite Z.leb_le.
  pose proof (Z.div_mod (len text + 3) 4 ltac:(lia)).
  pose proof (Z.mod_pos_bound (len text + 3) 4 ltac:(lia)).
  lia.
Qed.

Lemma validateAndTruncateText_notBlank text :
  isBlank text = false ->
  validateAndTruncateText text = inr (validated text).
Proof.
  intros Hb. unfold validateAndTruncateText, validated. rewrite Hb.
  cbv zeta.
  destruct ((len text + 3) / 4 <=? maxInputLength) eqn:E; [|done].
  apply estimate_fits in E. by rewrite substring_all.
Qed.

Lemma len_validated text : len (validated text) <= maxInputLength * 4.
Proof.
  unfold validated.
  pose proof (len_trim (substring text 0 (maxInputLength * 4))).
  pose proof (len_substring text 0 (maxInputLength * 4)) as Hs.
  unfold clamp, maxInputLength in *. pose proof (len_nonneg text). lia.
Qed.

(** X6.  [validateAndTruncateText] rejects a blank text.  For any other
    text it returns the first 32764 code units, trimmed: a text without
    white space at either end and of at most 32764 code units (8191
    estimated tokens), which is the whole text trimmed when the text is
    not longer than that. *)
Theorem validateAndTruncateText_contract text :
  (isBlank text = true ->
   validateAndTruncateText text
   = inl (JsError (lit "Text content cannot be empty")))
  /\ (isBlank text = false ->
      exists t,
        validateAndTruncateText text = inr t
        /\ trimmed t
        /\ len t <= 32764
        /\ (len t + 3) / 4 <= 8191
        /\ (len text <= 32764 -> t = trim text /\ 0 < len t)).
Proof.
  split.
  - intros Hb. unfold validateAndTruncateText. by rewrite Hb.
  - intros Hb. exists (validated text).
    split; [by apply validateAndTruncateText_notBlank|].
    pose proof (len_validated text) as Hlen.
    change (maxInputLength * 4) with 32764 in Hlen.
    split; [apply trim_idem|]. split; [exact Hlen|]. split.
    + apply Z.lt_succ_r, Z.div_lt_upper_bound; lia.
    + intros Hshort. unfold validated.
      rewrite substring_all by exact Hshort.
      split; [done|].
      unfold isBlank in Hb. apply orb_false_iff in Hb as [_ Hb].
      apply Z.eqb_neq in Hb. pose proof (len_nonneg (trim text)). lia.
Qed.

(** A blank text and a padded word. *)
Lemma validateAndTruncateText_contract_witness :
  validateAndTruncateText (lit "   ")
  = inl (JsError (lit "Text content cannot be empty"))
  /\ exists t,
       validateAndTruncateText (lit "  hello ") = inr t
       /\ trimmed t /\ len t <= 32764.
Proof.
  split.
  - apply (proj1 (validateAndTruncateText_contract (lit "   "))).
    vm_compute. reflexivity.
  - destruct (proj2 (validateAndTruncateText_contract (lit "  hello ")))
      as [t [H1 [H2 [H3 _]]]]; [vm_compute; reflexivity|].
    exists t. split; [exact H1|]. split; [exact H2|exact H3].
Defined.

Lemma validateChunks_run chunks :
  exists valid,
    validateChunks chunks = inr valid
    /\ Forall2 (fun c v =>
                  input_chunk_index v = input_chunk_index c
                  /\ input_content v = validated (input_content c))
         (List.filter notBlank chunks) valid
    /\ (length valid <= length chunks)%nat.
Proof.
  unfold validateChunks.
  change (fun chunk => negb (isBlank (input_content chunk))) with notBlank.
  assert (Hlen : (length (List.filter notBlank chunks) <= length chunks)%nat)
    by apply List.filter_length_le.
  assert (Hall : Forall (fun c => notBlank c = true)
                   (List.filter notBlank chunks)).
  { apply List.Forall_forall. intros c Hc.
    by apply List.filter_In in Hc as [_ Hc]. }
  revert Hlen Hall. generalize (List.filter notBlank chunks) as l.
  intros l Hlen Hall.
  assert (H : exists valid,
             mapE (fun chunk =>
                     match validateAndTruncateText (input_content chunk) with
                     | inl e => inl e
                     | inr t =>
                       inr {| input_content := t;
                              input_chunk_index := input_chunk_index chunk |}
                     end) l = inr valid
             /\ Forall2 (fun c v =>
                  input_chunk_index v = input_chunk_index c
                  /\ input_content v = validated (input_content c)) l valid).
  { clear Hlen. induction Hall as [|c l Hc _ [valid [IH1 IH2]]].
    - exists []. split; [done|constructor].
    - unfold notBlank in Hc. apply negb_true_iff in Hc.
      cbn [mapE]. rewrite (validateAndTruncateText_notBlank _ Hc), IH1.
      eexists. split; [reflexivity|]. constructor; [done|exact IH2]. }
  destruct H as [valid [H1 H2]]. exists valid.
  split; [exact H1|]. split; [exact H2|].
  apply Forall2_length in H2. lia.
Qed.

(** X7.  [validateChunks] never throws: it drops the blank chunks and
    hands on the others in order, each with its [chunk_index] and with
    its text validated (trimmed, and cut to 32764 code units). *)
Theorem validateChunks_total chunks :
  exists valid,
    validateChunks chunks = inr valid
    /\ Forall2 (fun c v =>
                  input_chunk_index v = input_chunk_index c
                  /\ input_content v = validated (input_content c))
         (List.filter notBlank chunks) valid
    /\ Forall (fun v => trimmed (input_content v)
                        /\ len (input_content v) <= 32764) valid
    /\ (length valid <= length chunks)%nat.
Proof.
  destruct (validateChunks_run chunks) as [valid [H1 [H2 H3]]].
  exists valid. split; [exact H1|]. split; [exact H2|].
  split; [|exact H3].
  clear H1 H3. induction H2 as [|c v l vs [_ Hv] _ IH]; constructor;
    [|exact IH].
  rewrite Hv. split; [apply trim_idem|apply len_validated].
Qed.

Lemma filter_notBlank_nil chunks :
  forallb (fun c => isBlank (input_content c)) chunks = true ->
  List.filter notBlank chunks = [].
Proof.
  induction chunks as [|c l IH]; simpl; [done|].
  intros H. apply andb_true_iff in H as [H1 H2].
  unfold notBlank at 1. rewrite H1. simpl. by apply IH.
Qed.

(** X8.  Without a chunk that is not blank (in particular without any
    chunk) [generateEmbeddings] throws "No valid chunks provided for
    embedding generation", unwrapped, and does nothing else: the provider
    is not called. *)
Theorem generateEmbeddings_no_valid_chunk provider chunks options w :
  forallb (fun c => isBlank (input_content c)) chunks = true ->
  generateEmbeddings provider chunks options w
  = (Throw (JsError
       (lit "No valid chunks provided for embedding generation")), w).
Proof.
  intros H. unfold generateEmbeddings, validateChunks.
  change (fun chunk => negb (isBlank (input_content chunk))) with notBlank.
  rewrite (filter_notBlank_nil _ H). reflexivity.
Qed.

Lemma generateEmbeddings_no_valid_chunk_witness :
  generateEmbeddings Examples.steady
    [{| input_content := lit "  "; input_chunk_index := 0 |}]
    noOptions Examples.world0
  = (Throw (JsError
       (lit "No valid chunks provided for embedding generation")),
     Examples.world0).
Proof.
  apply generateEmbeddings_no_valid_chunk. vm_compute. reflexivity.
Defined.

Lemma generateQueryEmbedding_blank provider query model w :
  isBlank query = true ->
  generateQueryEmbedding provider query model w
  = (Throw (JsError (lit "Query embedding generation failed: "
                     ++ lit "Text content cannot be empty")), w).
Proof.
  intros Hb.
  unfold generateQueryEmbedding, tryCatch, bind, validateAndTruncateText.
  rewrite Hb. reflexivity.
Qed.

Lemma generateQueryEmbedding_notBlank provider query model w :
  isBlank query = false ->
  generateQueryEmbedding provider query model w
  = (match provider (providerCalls w) model [validated query] with
     | ProviderOk (v :: _) _ => Ok v
     | ProviderOk [] _ =>
       Throw (JsError (lit "Query embedding generation failed: "
         ++ lit "Cannot read properties of undefined (reading 'embedding')"))
     | ProviderFail msg =>
       Throw (JsError (lit "Query embedding generation failed: " ++ msg))
     end,
     addTrace w [ProviderCall model [validated query]]).
Proof.
  intros Hb. unfold generateQueryEmbedding, tryCatch, bind.
  rewrite (validateAndTruncateText_notBlank _ Hb).
  cbn [liftE ret]. unfold embeddings_create, addTrace.
  destruct (provider (providerCalls w) model [validated query])
    as [[|v vs] total|msg]; reflexivity.
Qed.

Lemma generateQueryEmbedding_ends provider query model w :
  fst (generateQueryEmbedding provider query model w) <> Diverge.
Proof.
  destruct (isBlank query) eqn:Hb.
  - by rewrite generateQueryEmbedding_blank.
  - rewrite generateQueryEmbedding_notBlank by exact Hb.
    cbn [fst].
    by destruct (provider (providerCalls w) model [validated query])
      as [[|v vs] total|msg].
Qed.

(** X9.  [generateQueryEmbedding] on a blank query throws without
    calling the provider.  On any other query it calls the provider
    exactly once, with the validated query as the only input, and leaves
    the store alone; it returns the first vector of the answer, and
    throws, with its prefix, when the provider fails or answers without
    a vector. *)
Theorem generateQueryEmbedding_contract provider query model w :
  (isBlank query = true ->
   generateQueryEmbedding provider query model w
   = (Throw (JsError (lit "Query embedding generation failed: "
                      ++ lit "Text content cannot be empty")), w))
  /\ (isBlank query = false ->
      generateQueryEmbedding provider query model w
      = (match provider (providerCalls w) model [validated query] with
         | ProviderOk (v :: _) _ => Ok v
         | ProviderOk [] _ =>
           Throw (JsError (lit "Query embedding generation failed: "
             ++ lit
             "Cannot read properties of undefined (reading 'embedding')"))
         | ProviderFail msg =>
           Throw (JsError (lit "Query embedding generation failed: "
                           ++ msg))
         end,
         addTrace w [ProviderCall model [validated query]])).
Proof.
  split.
  - apply generateQueryEmbedding_blank.
  - apply generateQueryEmbedding_notBlank.
Qed.

Lemma generateQueryEmbedding_contract_witness :
  generateQueryEmbedding Examples.axisProvider (lit " ") defaultModel
    Examples.world0
  = (Throw (JsError (lit "Query embedding generation failed: "
                     ++ lit "Text content cannot be empty")),
     Examples.world0)
  /\ generateQueryEmbedding Examples.axisProvider (lit " reader ")
       defaultModel Examples.world0
     = (Ok [Q2Qc 1; Q2Qc 0],
        addTrace Examples.world0
          [ProviderCall defaultModel [lit "reader"]]).
Proof.
  split.
  - apply (proj1 (generateQueryEmbedding_contract Examples.axisProvider
                    (lit " ") defaultModel Examples.world0)).
    vm_compute. reflexivity.
  - rewrite (proj2 (generateQueryEmbedding_contract Examples.axisProvider
                      (lit " reader ") defaultModel Examples.world0))
      by (vm_compute; reflexivity).
    vm_compute. reflexivity.
Defined.

Lemma chunkRows_same_length documentId chunks embeddings :
  length chunks = length embeddings ->
  chunkRows documentId chunks embeddings
  = inr (zip_with (embeddedRow documentId) chunks embeddings).
Proof.
  revert embeddings.
  induction chunks as [|c chunks IH]; intros [|e embeddings] H;
    simpl in *; try done.
  rewrite (IH embeddings) by lia. reflexivity.
Qed.

Lemma storeEmbeddings_mismatch documentId chunks embeddings w :
  length chunks <> length embeddings ->
  storeEmbeddings documentId chunks embeddings w
  = (Throw (JsError (lit
       "Chunks and embeddings arrays must have the same length")), w).
Proof.
  intros H. unfold storeEmbeddings.
  destruct (length chunks =? length embeddings)%nat eqn:E; [|done].
  apply Nat.eqb_eq in E. done.
Qed.

(** The rows of [storeEmbeddings] carry their embeddings as arrays. *)
Lemma embeddedRows_arrays documentId chunks embeddings :
  Forall (fun row => Db.embedding row <> None)
    (zip_with (embeddedRow documentId) chunks embeddings).
Proof.
  revert embeddings.
  induction chunks as [|c chunks IH]; intros [|e embeddings];
    simpl; constructor; [done|apply IH].
Qed.

Lemma storeEmbeddings_refused documentId chunks embeddings w :
  length chunks = length embeddings -> chunks <> [] ->
  exists msg,
    storeEmbeddings documentId chunks embeddings w
    = (Throw (JsError (lit "Failed to store embeddings: " ++ msg)), w).
Proof.
  intros H Hne. unfold storeEmbeddings. rewrite H, Nat.eqb_refl.
  unfold tryCatch, bind.
  rewrite (chunkRows_same_length _ _ _ H). cbn [liftE ret negb].
  destruct (DocumentFacts.batchInsertChunks_refused
              (zip_with (embeddedRow documentId) chunks embeddings) w)
    as [msg ->].
  - destruct chunks as [|c chunks], embeddings as [|e embeddings];
      try done.
  - apply embeddedRows_arrays.
  - exists msg. reflexivity.
Qed.

(** With a chunk to store, [storeEmbeddings] throws and leaves the world
    as it was. *)
Lemma storeEmbeddings_throws documentId chunks embeddings w :
  chunks <> [] ->
  exists e, storeEmbeddings documentId chunks embeddings w = (Throw e, w).
Proof.
  intros Hne.
  destruct (Nat.eq_dec (length chunks) (length embeddings)) as [E|E].
  - destruct (storeEmbeddings_refused documentId _ _ w E Hne) as [msg ->].
    by eexists.
  - rewrite (storeEmbeddings_mismatch _ _ _ _ E). by eexists.
Qed.

(** X10.  [storeEmbeddings] stores nothing.  With a number of
    embeddings other than the number of chunks it throws at once.  With
    the same number, and at least one chunk, the database refuses the
    insert, for the embeddings are bound as JavaScript arrays: the call
    throws an error whose message starts with "Failed to store
    embeddings: ".  Only the call without any chunk returns; and in
    every case the world stays as it was. *)
Theorem storeEmbeddings_stores_nothing documentId chunks embeddings w :
  (length chunks <> length embeddings ->
   storeEmbeddings documentId chunks embeddings w
   = (Throw (JsError (lit
        "Chunks and embeddings arrays must have the same length")), w))
  /\ (length chunks = length embeddings -> chunks <> [] ->
      exists msg,
        storeEmbeddings documentId chunks embeddings w
        = (Throw (JsError (lit "Failed to store embeddings: " ++ msg)), w))
  /\ storeEmbeddings documentId [] [] w = (Ok tt, w)
  /\ snd (storeEmbeddings documentId chunks embeddings w) = w.
Proof.
  assert (Hnil : storeEmbeddings documentId [] [] w = (Ok tt, w))
    by (by destruct w).
  split; [apply storeEmbeddings_mismatch|].
  split; [apply storeEmbeddings_refused|]. split; [exact Hnil|].
  destruct chunks as [|c chunks].
  - destruct embeddings as [|e embeddings]; [by rewrite Hnil|].
    by rewrite storeEmbeddings_mismatch.
  - destruct (storeEmbeddings_throws documentId (c :: chunks) embeddings w)
      as [e ->]; done.
Qed.

(** One chunk: without an embedding for it the call throws at once; with
    one, the database refuses the row. *)
Lemma storeEmbeddings_stores_nothing_witness :
  storeEmbeddings 1
    [{| store_content := lit "hello world"; store_chunk_index := 0;
        store_content_tokens := 3; store_metadata := None |}]
    [] Examples.world0
  = (Throw (JsError (lit
       "Chunks and embeddings arrays must have the same length")),
     Examples.world0)
  /\ exists msg,
       storeEmbeddings 1
         [{| store_content := lit "hello world"; store_chunk_index := 0;
             store_content_tokens := 3; store_metadata := None |}]
         [{| embedding := [Q2Qc 1; Q2Qc 0]; tokens := 3; index := 0 |}]
         Examples.world0
       = (Throw (JsError (lit "Failed to store embeddings: " ++ msg)),
          Examples.world0).
Proof.
  split.
  - apply (proj1 (storeEmbeddings_stores_nothing 1 _ [] Examples.world0)).
    simpl. lia.
  - apply (proj1 (proj2 (storeEmbeddings_stores_nothing 1
                 [{| store_content := lit "hello world";
                     store_chunk_index := 0; store_content_tokens := 3;
                     store_metadata := None |}]
                 [{| embedding := [Q2Qc 1; Q2Qc 0]; tokens := 3;
                     index := 0 |}] Examples.world0)));
      [reflexivity|discriminate].
Defined.

(** *** A batch size that is not positive *)

Lemma batches_loop_stuck provider validChunks size mdl ra rd fuel :
  size <= 0 ->
  forall i acc total w r,
    i < Z.of_nat (length validChunks) ->
    fst (batches_loop provider fuel validChunks size mdl ra rd i acc total w)
    <> Ok r.
Proof.
  intros Hsize.
  induction fuel as [|fuel IH]; intros i acc total w r Hi;
    cbn [batches_loop];
    destruct (i <? Z.of_nat (length validChunks)) eqn:E;
    try (apply Z.ltb_ge in E; lia).
  - discriminate.
  - unfold bind at 1.
    destruct (processBatch provider _ mdl ra rd w) as [[b|e|] w1];
      [|discriminate|discriminate].
    unfold bind at 1.
    destruct ((if i + size <? Z.of_nat (length validChunks)
               then delay 100 else ret tt) w1) as [[u|e|] w2] eqn:Ed;
      [|discriminate|discriminate].
    apply IH. lia.
Qed.

(** X11.  With a batch size of zero or less [generateEmbeddings] never
    returns a result: the loop over the batches does not advance, so the
    call ends by an exception or not at all.  The same holds of the loop
    itself, however many turns it is given. *)
Theorem generateEmbeddings_nonpositive_batch_size provider chunks options w :
  default 50 (batchSize options) <= 0 ->
  (forall r, fst (generateEmbeddings provider chunks options w) <> Ok r)
  /\ (forall fuel valid i acc total w0 r,
        i < Z.of_nat (length valid) ->
        fst (batches_loop provider fuel valid
               (Z.min (default 50 (batchSize options)) maxBatchSize)
               (default defaultModel (model options))
               (default 3 (retryAttempts options))
               (default 1000 (retryDelay options)) i acc total w0)
        <> Ok r).
Proof.
  intros Hsize.
  assert (Hmin : Z.min (default 50 (batchSize options)) maxBatchSize <= 0)
    by lia.
  split.
  - intros r. unfold generateEmbeddings. cbv zeta. unfold bind at 1.
    destruct (validateChunks chunks) as [e|[|c valid]];
      cbn [liftE throw ret fst]; try discriminate.
    unfold tryCatch, bind.
    pose proof (batches_loop_stuck provider (c :: valid) _
                  (default defaultModel (model options))
                  (default 3 (retryAttempts options))
                  (default 1000 (retryDelay options))
                  (length (c :: valid)) Hmin 0 [] 0 w) as Hloop.
    destruct (batches_loop provider (length (c :: valid)) (c :: valid) _ _ _
                _ 0 [] 0 w) as [[b|e|] w1]; cbn [fst throw] in *.
    + exfalso. apply (Hloop b); [cbn [length]; lia|done].
    + discriminate.
    + discriminate.
  - intros fuel valid i acc total w0 r Hi.
    by apply batches_loop_stuck.
Qed.

(** Two chunks, a provider that always answers, and a batch size of
    zero: the call does not end. *)
Lemma generateEmbeddings_nonpositive_batch_size_witness :
  fst (generateEmbeddings Examples.steady Examples.twoChunks
         (batchOptions 0) Examples.world0) = Diverge
  /\ forall r,
       fst (generateEmbeddings Examples.steady Examples.twoChunks
              (batchOptions 0) Examples.world0) <> Ok r.
Proof.
  split; [vm_compute; reflexivity|].
  apply (generateEmbeddings_nonpositive_batch_size Examples.steady
           Examples.twoChunks (batchOptions 0) Examples.world0).
  simpl. lia.
Defined.

(** *** A provider that answers *)

Lemma mapE_length {A B} (f : A -> Thrown + B) l l' :
  mapE f l = inr l' -> length l' = length l.
Proof.
  revert l'. induction l as [|x l IH]; intros l'; simpl.
  - by intros [= <-].
  - destruct (f x); [discriminate|].
    destruct (mapE f l); [discriminate|].
    intros [= <-]. simpl. by rewrite (IH _ eq_refl).
Qed.

Lemma mapE_notBlank batch :
  Forall (fun c => isBlank (input_content c) = false) batch ->
  mapE (fun c => validateAndTruncateText (input_content c)) batch
  = inr (map (fun c => validated (input_content c)) batch).
Proof.
  induction 1 as [|c l Hc _ IH]; simpl; [done|].
  by rewrite (validateAndTruncateText_notBlank _ Hc), IH.
Qed.

Lemma zipEmbeddings_same_length data batch perChunk :
  length data = length batch ->
  exists es,
    zipEmbeddings data batch perChunk = inr es
    /\ map index es = map input_chunk_index batch.
Proof.
  revert batch. induction data as [|v data IH]; intros [|c batch] H;
    simpl in *; try done.
  - by exists [].
  - destruct (IH batch ltac:(lia)) as [es [-> Hes]].
    eexists. split; [reflexivity|]. simpl. by rewrite Hes.
Qed.

(** With a provider that answers, a batch of texts that are not blank
    succeeds at the first attempt. *)
Lemma processBatch_first_attempt provider batch mdl ra rd w :
  answersAll provider -> 1 <= ra ->
  Forall (fun c => isBlank (input_content c) = false) batch ->
  exists es total,
    processBatch provider batch mdl ra rd w
    = (Ok (es, total),
       addTrace w
         [ProviderCall mdl
            (map (fun c => validated (input_content c)) batch)])
    /\ map index es = map input_chunk_index batch.
Proof.
  intros Hp Hra Hb.
  set (inputs := map (fun c => validated (input_content c)) batch).
  destruct (Hp (providerCalls w) mdl inputs) as [data [total [Hcall Hlen]]].
  destruct (zipEmbeddings_same_length data batch
              (roundDiv total (Z.of_nat (length batch))))
    as [es [Hzip Hidx]].
  { rewrite Hlen. unfold inputs. by rewrite length_map. }
  exists es, total. split; [|exact Hidx].
  rewrite (processBatch_success provider batch mdl inputs ra rd
             (mapE_notBlank batch Hb) 0 w (es, total)).
  - reflexivity.
  - lia.
  - intros j Hj. lia.
  - unfold attemptAt. rewrite Nat.add_0_r, Hcall, Hzip. reflexivity.
Qed.

Lemma slice_inside {A} (l : list A) i size :
  0 <= i < Z.of_nat (length l) -> 0 <= size ->
  slice l i (i + size)
  = take (Z.to_nat size) (drop (Z.to_nat i) l).
Proof.
  intros Hi Hs. unfold slice, relIndex. cbv zeta.
  destruct (i <? 0) eqn:E1; [apply Z.ltb_lt in E1; lia|].
  destruct (i + size <? 0) eqn:E2; [apply Z.ltb_lt in E2; lia|].
  replace (Z.min i (Z.of_nat (length l))) with i by lia.
  destruct (Z.le_gt_cases (i + size) (Z.of_nat (length l))).
  - replace (Z.min (i + size) (Z.of_nat (length l))) with (i + size) by lia.
    f_equal. lia.
  - replace (Z.min (i + size) (Z.of_nat (length l)))
      with (Z.of_nat (length l)) by lia.
    rewrite !take_ge; [done| |]; rewrite length_drop; lia.
Qed.

Lemma batchCount_step n size :
  1 <= size -> batchCount n size = 1 + batchCount (n - size) size.
Proof.
  intros Hs. unfold batchCount.
  replace (n + size - 1) with (n - size + size - 1 + 1 * size) by lia.
  rewrite Z.div_add by lia. lia.
Qed.

Lemma batchCount_done n size :
  1 <= size -> - size < n <= 0 -> batchCount n size = 0.
Proof.
  intros Hs Hn. unfold batchCount. apply Z.div_small. lia.
Qed.

Lemma batches_loop_answers provider valid size mdl ra rd :
  answersAll provider -> 1 <= ra -> 1 <= size ->
  Forall (fun c => isBlank (input_content c) = false) valid ->
  forall fuel i acc total w,
    0 <= i -> - size < Z.of_nat (length valid) - i ->
    Z.of_nat (length valid) - i <= Z.of_nat fuel ->
    exists es total' w',
      batches_loop provider fuel valid size mdl ra rd i acc total w
      = (Ok (es, total'), w')
      /\ map index es
         = map index acc
           ++ map input_chunk_index (drop (Z.to_nat i) valid)
      /\ store w' = store w
      /\ Z.of_nat (providerCalls w')
         = Z.of_nat (providerCalls w)
           + batchCount (Z.of_nat (length valid) - i) size.
Proof.
  intros Hp Hra Hsize Hvalid.
  induction fuel as [|fuel IH]; intros i acc total w Hi Hlow Hfuel.
  - cbn [batches_loop].
    destruct (i <? Z.of_nat (length valid)) eqn:E;
      [apply Z.ltb_lt in E; lia|].
    apply Z.ltb_ge in E.
    exists acc, total, w. split; [reflexivity|].
    rewrite drop_ge by lia. rewrite app_nil_r.
    rewrite batchCount_done by lia.
    repeat split; lia.
  - cbn [batches_loop].
    destruct (i <? Z.of_nat (length valid)) eqn:E.
    2:{ apply Z.ltb_ge in E.
        exists acc, total, w. split; [reflexivity|].
        rewrite drop_ge by lia. rewrite app_nil_r.
        rewrite batchCount_done by lia.
        repeat split; lia. }
    apply Z.ltb_lt in E.
    rewrite (slice_inside valid i size) by lia.
    set (batch := take (Z.to_nat size) (drop (Z.to_nat i) valid)).
    assert (Hbatch : Forall (fun c => isBlank (input_content c) = false)
                       batch).
    { unfold batch. apply Forall_take, Forall_drop, Hvalid. }
    destruct (processBatch_first_attempt provider batch mdl ra rd w
                Hp Hra Hbatch) as [es [tot [Hrun Hidx]]].
    unfold bind at 1. rewrite Hrun.
    set (w1 := addTrace w _).
    set (w2 := if i + size <? Z.of_nat (length valid)
               then addTrace w1 [Delay 100] else w1).
    assert (Hdelay : (if i + size <? Z.of_nat (length valid)
                      then delay 100 else ret tt) w1 = (Ok tt, w2)).
    { unfold w2. destruct (i + size <? Z.of_nat (length valid));
        reflexivity. }
    unfold bind at 1. rewrite Hdelay. cbn [fst snd].
    destruct (IH (i + size) (acc ++ es) (total + tot) w2
                ltac:(lia) ltac:(lia) ltac:(lia))
      as [es' [total' [w' [Hloop [Hes [Hst Hcalls]]]]]].
    exists es', total', w'. split; [exact Hloop|].
    assert (Hw2s : store w2 = store w).
    { unfold w2. by destruct (i + size <? Z.of_nat (length valid)). }
    assert (Hw2c : providerCalls w2 = S (providerCalls w)).
    { unfold w2, w1.
      destruct (i + size <? Z.of_nat (length valid));
        rewrite ?addTrace_app, providerCalls_addTrace; simpl; lia. }
    split; [|split].
    + rewrite Hes, map_app, Hidx, <- app_assoc. f_equal.
      rewrite <- map_app. f_equal. unfold batch.
      replace (Z.to_nat (i + size)) with (Z.to_nat i + Z.to_nat size)%nat
        by lia.
      rewrite <- drop_drop. by rewrite take_drop.
    + by rewrite Hst.
    + rewrite Hcalls, Hw2c.
      rewrite (batchCount_step (Z.of_nat (length valid) - i) size Hsize).
      replace (Z.of_nat (length valid) - (i + size))
        with (Z.of_nat (length valid) - i - size) by lia.
      lia.
Qed.

Lemma isBlank_trim text : isBlank text = false -> isBlank (trim text) = false.
Proof.
  unfold isBlank. intros H. apply orb_false_iff in H as [_ H].
  rewrite trim_idem, H. by rewrite orb_diag.
Qed.

(** X12.  With a provider that answers every call with one vector per
    input, at least one attempt and a positive batch size,
    [generateEmbeddings] on chunks of at most 32764 code units, one of
    them not blank, returns one embedding per chunk that is not blank, in
    order and tagged with the chunk's index; it leaves the store alone
    and calls the provider once per batch. *)
Theorem generateEmbeddings_answers provider chunks options w :
  answersAll provider ->
  1 <= default 50 (batchSize options) ->
  1 <= default 3 (retryAttempts options) ->
  Forall (fun c => len (input_content c) <= 32764) chunks ->
  List.filter notBlank chunks <> [] ->
  exists r w',
    generateEmbeddings provider chunks options w = (Ok r, w')
    /\ map index (embeddings r)
       = map input_chunk_index (List.filter notBlank chunks)
    /\ cost r = calculateCost (totalTokens r)
    /\ store w' = store w
    /\ Z.of_nat (providerCalls w')
       = Z.of_nat (providerCalls w)
         + batchCount (Z.of_nat (length (List.filter notBlank chunks)))
             (Z.min (default 50 (batchSize options)) maxBatchSize).
Proof.
  intros Hp Hsize Hra Hshort Hsome.
  destruct (validateChunks_run chunks) as [valid [Hv [Hf2 _]]].
  assert (Hidx : map input_chunk_index valid
                 = map input_chunk_index (List.filter notBlank chunks)).
  { clear -Hf2. induction Hf2 as [|c v l vs [H _] _ IH]; simpl; [done|].
    by rewrite H, IH. }
  assert (Hvalid : Forall (fun c => isBlank (input_content c) = false)
                     valid).
  { assert (Hsrc : Forall (fun c => notBlank c = true
                                    /\ len (input_content c) <= 32764)
                     (List.filter notBlank chunks)).
    { apply List.Forall_forall. intros c Hc.
      apply List.filter_In in Hc as [Hin Hc]. split; [exact Hc|].
      rewrite List.Forall_forall in Hshort. by apply Hshort. }
    clear -Hf2 Hsrc.
    induction Hf2 as [|c v l vs [_ Hc] _ IH]; [constructor|].
    inversion Hsrc as [|? ? [Hnb Hlen] Hrest]; subst.
    constructor; [|by apply IH].
    rewrite Hc. unfold validated.
    rewrite substring_all by (unfold maxInputLength; lia).
    apply isBlank_trim. unfold notBlank in Hnb.
    by apply negb_true_iff in Hnb. }
  assert (Hlen : length valid = length (List.filter notBlank chunks))
    by (symmetry; by apply Forall2_length in Hf2).
  assert (Hne : valid <> []).
  { intros ->. destruct (List.filter notBlank chunks); [done|].
    discriminate. }
  destruct (batches_loop_answers provider valid
              (Z.min (default 50 (batchSize options)) maxBatchSize)
              (default defaultModel (model options))
              (default 3 (retryAttempts options))
              (default 1000 (retryDelay options)) Hp Hra
              ltac:(unfold maxBatchSize; lia) Hvalid
              (length valid) 0 [] 0 w ltac:(lia)
              ltac:(unfold maxBatchSize; lia) ltac:(lia))
    as [es [total [w' [Hloop [Hes [Hst Hcalls]]]]]].
  unfold generateEmbeddings. cbv zeta. unfold bind at 1.
  rewrite Hv. cbn [liftE ret].
  destruct valid as [|c0 valid0]; [done|].
  unfold tryCatch, bind. rewrite Hloop. cbn [fst snd ret].
  eexists. exists w'. split; [reflexivity|].
  cbn [embeddings cost totalTokens].
  split; [by rewrite Hes, <- Hidx|]. split; [done|]. split; [exact Hst|].
  rewrite Hcalls, <- Hlen, Z.sub_0_r. reflexivity.
Qed.

(** Two chunks, one at a time: two calls to the provider. *)
Lemma generateEmbeddings_answers_witness :
  exists r w',
    generateEmbeddings Examples.steady Examples.twoChunks (batchOptions 1)
      Examples.world0 = (Ok r, w')
    /\ map index (embeddings r) = [0; 1]%nat
    /\ providerCalls w' = 2%nat.
Proof.
  destruct (generateEmbeddings_answers Examples.steady Examples.twoChunks
              (batchOptions 1) Examples.world0)
    as [r [w' [H1 [H2 [_ [_ H5]]]]]].
  - intros n mdl input. unfold Examples.steady, Examples.scripted.
    eexists. eexists. split; [reflexivity|]. by rewrite length_map.
  - simpl. lia.
  - simpl. lia.
  - repeat constructor; vm_compute; discriminate.
  - vm_compute. discriminate.
  - exists r, w'. split; [exact H1|]. split; [exact H2|].
    change (Z.of_nat (providerCalls w') = 2) in H5. lia.
Defined.

(** *** The health check *)

Section Health.
Import EmbeddingHealth.

(** X13.  The health check of the embedder never throws.  It calls the
    provider once, with the text "test" and the default model, leaves the
    store alone, and reports [healthy] exactly when the provider answers
    with at least one vector. *)
Theorem healthCheck_reports provider w :
  exists status,
    healthCheck provider w
    = (Ok (status, defaultModel),
       addTrace w [ProviderCall defaultModel [lit "test"]])
    /\ (status = healthy
        <-> exists v vs total,
              provider (providerCalls w) defaultModel [lit "test"]
              = ProviderOk (v :: vs) total).
Proof.
  unfold healthCheck, tryCatch, bind.
  assert (Hnb : isBlank (lit "test") = false) by (vm_compute; reflexivity).
  assert (Hval : validated (lit "test") = lit "test")
    by (vm_compute; reflexivity).
  unfold generateQueryEmbedding, tryCatch, bind.
  rewrite (validateAndTruncateText_notBlank _ Hnb), Hval.
  cbn [liftE ret]. unfold embeddings_create, addTrace.
  destruct (provider (providerCalls w) defaultModel [lit "test"])
    as [[|v vs] total|msg] eqn:E; cbn [fst snd throw ret].
  - exists unhealthy. split; [reflexivity|].
    split; [discriminate|]. intros [v [vs [t H]]]. discriminate.
  - exists healthy. split; [reflexivity|].
    split; [|done]. intros _. by exists v, vs, total.
  - exists unhealthy. split; [reflexivity|].
    split; [discriminate|]. intros [v [vs [t H]]]. discriminate.
Qed.

End Health.

End EmbedderFacts.

(** ** Documents: reading, renaming, deleting *)

Module DocumentQueryFacts.
Import Db DbOps DocumentService DocumentQueries DocumentSpec IngestionSpec.
Import EmbeddingSpec.

Lemma ownedBy_spec docId userId d :
  ownedBy docId userId d = true <-> id d = docId /\ user_id d = userId.
Proof.
  unfold ownedBy.
  rewrite andb_true_iff, Nat.eqb_eq, DocumentFacts.jsstring_eqb_eq.
  done.
Qed.

Lemma orderByIndex_sorted l :
  StronglySorted (fun a b => (chunk_index a <= chunk_index b)%nat)
    (orderByIndex l).
Proof.
  induction l as [|c l IH]; simpl; [constructor|].
  revert IH. generalize (orderByIndex l) as s. clear l.
  induction s as [|d s IHs]; intros Hs; simpl.
  - repeat constructor.
  - destruct (chunk_index c <=? chunk_index d)%nat eqn:E.
    + apply Nat.leb_le in E. constructor; [exact Hs|].
      constructor; [exact E|].
      apply StronglySorted_inv in Hs as [_ Hd].
      eapply Forall_impl; [exact Hd|]. simpl. intros x Hx. lia.
    + apply Nat.leb_gt in E.
      apply StronglySorted_inv in Hs as [Hs Hd].
      constructor; [by apply IHs|].
      assert (Hin : forall x, In x (insertByIndex c s) -> x = c \/ In x s).
      { clear. induction s as [|y s IH]; simpl; intros x.
        - intros [<-|[]]. by left.
        - destruct (chunk_index c <=? chunk_index y)%nat; simpl.
          + intros [<-|[<-|H]]; auto.
          + intros [<-|H]; auto. destruct (IH _ H); auto. }
      apply List.Forall_forall. intros x Hx.
      destruct (Hin x Hx) as [->|Hx']; [lia|].
      rewrite List.Forall_forall in Hd. by apply Hd.
Qed.

Lemma bind_Ok {A B} (m : M A) (k : A -> M B) w a w' :
  m w = (Ok a, w') -> bind m k w = k a w'.
Proof. unfold bind. by intros ->. Qed.

Lemma bind_Throw {A B} (m : M A) (k : A -> M B) w e w' :
  m w = (Throw e, w') -> bind m k w = (Throw e, w').
Proof. unfold bind. by intros ->. Qed.

Lemma tryCatch_Ok {A} (m : M A) h w a w' :
  m w = (Ok a, w') -> tryCatch m h w = (Ok a, w').
Proof. unfold tryCatch. by intros ->. Qed.

Lemma tryCatch_Throw {A} (m : M A) h w e w' :
  m w = (Throw e, w') -> tryCatch m h w = h e w'.
Proof. unfold tryCatch. by intros ->. Qed.

Lemma selectDocumentOfUser_run docId userId w :
  selectDocumentOfUser docId userId w
  = (Ok (List.filter (ownedBy docId userId) (documents (store w))), w).
Proof. reflexivity. Qed.

Lemma selectChunksOfDocument_run docId w :
  selectChunksOfDocument docId w
  = (Ok (orderByIndex (chunksOf (store w) docId)), w).
Proof. reflexivity. Qed.

Lemma updateDocuments_run docId f w :
  updateDocuments docId f w
  = (Ok tt,
     withStore w
       {| documents :=
            map (fun d => if (id d =? docId)%nat then f d else d)
              (documents (store w));
          document_chunks := document_chunks (store w);
          next_id := next_id (store w) |}).
Proof. reflexivity. Qed.

Lemma findDocumentById_run docId w :
  findDocumentById docId w = (Ok (documentAt (store w) docId), w).
Proof. reflexivity. Qed.

Lemma deleteDocumentRow_run docId w :
  deleteDocumentRow docId w
  = (Ok tt,
     withStore w
       {| documents :=
            List.filter (fun d => negb (id d =? docId)%nat)
              (documents (store w));
          document_chunks :=
            List.filter (fun c => negb (document_id c =? docId)%nat)
              (document_chunks (store w));
          next_id := next_id (store w) |}).
Proof. reflexivity. Qed.

(** X14.  [getDocumentById] only ever hands out a document of the asking
    user: it returns [null] unless a row has the key and the owner asked
    for, and otherwise that row with the chunk rows of the document,
    ordered by [chunk_index].  It never writes. *)
Theorem getDocumentById_owner_only documentId userId w :
  exists result,
    getDocumentById documentId userId w = (Ok result, w)
    /\ match result with
       | None =>
         forall d, In d (documents (store w)) ->
                   ~ (id d = documentId /\ user_id d = userId)
       | Some (d, chunks) =>
         In d (documents (store w))
         /\ id d = documentId /\ user_id d = userId
         /\ (forall c, In c chunks <->
                       In c (document_chunks (store w))
                       /\ document_id c = documentId)
         /\ StronglySorted
              (fun a b => (chunk_index a <= chunk_index b)%nat) chunks
       end.
Proof.
  unfold getDocumentById.
  destruct (List.filter (ownedBy documentId userId) (documents (store w)))
    as [|d rest] eqn:E.
  - exists None. split.
    { erewrite tryCatch_Ok; [reflexivity|].
      erewrite bind_Ok by apply selectDocumentOfUser_run.
      by rewrite E. }
    intros d Hd Hown.
    apply ownedBy_spec in Hown.
    assert (Hin : In d (List.filter (ownedBy documentId userId)
                          (documents (store w))))
      by (apply List.filter_In; done).
    rewrite E in Hin. destruct Hin.
  - exists (Some (d, orderByIndex (chunksOf (store w) documentId))).
    split.
    { erewrite tryCatch_Ok; [reflexivity|].
      erewrite bind_Ok by apply selectDocumentOfUser_run.
      rewrite E. unfold getDocumentChunks.
      erewrite bind_Ok by apply selectChunksOfDocument_run.
      reflexivity. }
    assert (Hin : In d (List.filter (ownedBy documentId userId)
                          (documents (store w))))
      by (rewrite E; by left).
    apply List.filter_In in Hin as [Hin Hown].
    apply ownedBy_spec in Hown as [Hid Hu].
    split; [exact Hin|]. split; [exact Hid|]. split; [exact Hu|].
    split; [|apply orderByIndex_sorted].
    intros c. rewrite ReprocessFacts.In_orderByIndex. unfold chunksOf.
    rewrite List.filter_In, Nat.eqb_eq. done.
Qed.

Lemma head_map {A B} (f : A -> B) l : head (map f l) = f <$> head l.
Proof. by destruct l. Qed.

(** With keys that are unique, the first row with the key of [d] is
    [d]. *)
Lemma documentAt_unique s d :
  NoDup (map id (documents s)) ->
  In d (documents s) ->
  documentAt s (id d) = Some d.
Proof.
  intros Hnd Hin. unfold documentAt.
  destruct (List.filter (fun x => (id x =? id d)%nat) (documents s))
    as [|x l] eqn:E.
  - assert (H : In d (List.filter (fun x => (id x =? id d)%nat)
                        (documents s)))
      by (apply List.filter_In; split; [done|apply Nat.eqb_refl]).
    rewrite E in H. destruct H.
  - simpl. f_equal.
    assert (H : In x (List.filter (fun x => (id x =? id d)%nat)
                        (documents s))) by (rewrite E; by left).
    apply List.filter_In in H as [Hx Hid]. apply Nat.eqb_eq in Hid.
    by apply (ReprocessFacts.NoDup_map_inj id (documents s)).
Qed.

Lemma Forall2_map_In {A B} (R : A -> B -> Prop) (f : A -> B) l :
  (forall x, In x l -> R x (f x)) -> Forall2 R l (map f l).
Proof.
  induction l as [|x l IH]; intros H; simpl; constructor.
  - apply H. by left.
  - apply IH. intros y Hy. apply H. by right.
Qed.

(** X15.  [updateDocument] renames a document only for its owner.  For
    anybody else it returns [null] and writes nothing.  For the owner it
    sets the title of the row with that key, leaves every other row, the
    chunk rows and the trace as they were, and returns the renamed
    row. *)
Theorem updateDocument_owner_only documentId userId title w :
  (List.filter (ownedBy documentId userId) (documents (store w)) = [] ->
   updateDocument documentId userId title w = (Ok None, w))
  /\ (forall d,
        NoDup (map id (documents (store w))) ->
        In d (documents (store w)) ->
        id d = documentId -> user_id d = userId ->
        exists w',
          updateDocument documentId userId title w
          = (Ok (Some (setTitle d title)), w')
          /\ trace w' = trace w
          /\ documents (store w')
             = map (fun x => if (id x =? documentId)%nat
                             then setTitle x title else x)
                 (documents (store w))
          /\ Forall2 (fun x x' => x = d /\ x' = setTitle d title
                                   \/ x <> d /\ x' = x)
               (documents (store w)) (documents (store w'))
          /\ document_chunks (store w') = document_chunks (store w)
          /\ next_id (store w') = next_id (store w)).
Proof.
  split.
  - intros E. unfold updateDocument.
    erewrite tryCatch_Ok; [reflexivity|].
    erewrite bind_Ok by apply selectDocumentOfUser_run.
    by rewrite E.
  - intros d Hnd Hin Hid Hu.
    assert (Hown : In d (List.filter (ownedBy documentId userId)
                           (documents (store w)))).
    { apply List.filter_In. split; [exact Hin|].
      by apply ownedBy_spec. }
    set (g := fun x => if (id x =? documentId)%nat
                       then setTitle x title else x).
    set (w' := withStore w
                 {| documents := map g (documents (store w));
                    document_chunks := document_chunks (store w);
                    next_id := next_id (store w) |}).
    assert (Hg : forall x, id (g x) = id x).
    { intros x. unfold g. by destruct (id x =? documentId)%nat. }
    assert (Hat : documentAt (store w') documentId
                  = Some (setTitle d title)).
    { unfold documentAt, w'. cbn [withStore store documents].
      rewrite (DocumentFacts.filter_map_commute
                 (fun x => (id x =? documentId)%nat) g)
        by (intros x; by rewrite Hg).
      rewrite head_map.
      pose proof (documentAt_unique (store w) d Hnd Hin) as Hd.
      unfold documentAt in Hd. rewrite Hid in Hd. rewrite Hd. simpl.
      unfold g. by rewrite Hid, Nat.eqb_refl. }
    exists w'. split.
    { unfold updateDocument.
      erewrite tryCatch_Ok; [reflexivity|].
      erewrite bind_Ok by apply selectDocumentOfUser_run.
      destruct (List.filter (ownedBy documentId userId)
                  (documents (store w))) as [|x l]; [destruct Hown|].
      unfold updateReturning.
      assert (Hrun : updateDocuments documentId
                       (fun x => setTitle x title) w = (Ok tt, w'))
        by reflexivity.
      rewrite (bind_Ok _ _ _ _ _ Hrun), findDocumentById_run.
      by rewrite Hat. }
    split; [done|]. split; [done|]. split; [|done].
    unfold w'. cbn [withStore store documents].
    apply Forall2_map_In. intros x Hx.
    unfold g. destruct (id x =? documentId)%nat eqn:E.
    + apply Nat.eqb_eq in E. left.
      assert (x = d) as ->; [|done].
      apply (ReprocessFacts.NoDup_map_inj id (documents (store w)));
        [exact Hnd|exact Hx|exact Hin|congruence].
    + apply Nat.eqb_neq in E. right. split; [congruence|done].
Qed.

(** The manual of the samples, renamed by its owner and by somebody
    else. *)
Lemma updateDocument_owner_only_witness :
  updateDocument 1 bob (lit "Guide") Examples.searchWorld
  = (Ok None, Examples.searchWorld)
  /\ exists d w',
       updateDocument 1 Examples.alice (lit "Guide") Examples.searchWorld
       = (Ok (Some d), w')
       /\ title d = lit "Guide"
       /\ document_chunks (store w')
          = document_chunks Examples.searchStore.
Proof.
  split.
  - apply (proj1 (updateDocument_owner_only 1 bob (lit "Guide")
                    Examples.searchWorld)).
    vm_compute. reflexivity.
  - edestruct (proj2 (updateDocument_owner_only 1 Examples.alice
                        (lit "Guide") Examples.searchWorld))
      as [w' [H1 [_ [_ [_ [H2 _]]]]]].
    + apply NoDup_singleton.
    + left. reflexivity.
    + reflexivity.
    + reflexivity.
    + eexists. exists w'. split; [exact H1|]. split; [reflexivity|exact H2].
Defined.

(** X16.  [deleteDocument] deletes a document only for its owner.  For
    anybody else it returns [false] and writes nothing.  For the owner it
    returns [true]; the rows with that key are gone from [documents], the
    chunk rows of the document are gone with them, every other row stays,
    in order, and afterwards [getDocumentById] finds nothing under that
    key, whoever asks. *)
Theorem deleteDocument_owner_only documentId userId w :
  (List.filter (ownedBy documentId userId) (documents (store w)) = [] ->
   deleteDocument documentId userId w = (Ok false, w))
  /\ (List.filter (ownedBy documentId userId) (documents (store w)) <> [] ->
      exists w',
        deleteDocument documentId userId w = (Ok true, w')
        /\ trace w' = trace w
        /\ next_id (store w') = next_id (store w)
        /\ documents (store w')
           = List.filter (fun d => negb (id d =? documentId)%nat)
               (documents (store w))
        /\ document_chunks (store w')
           = List.filter (fun c => negb (document_id c =? documentId)%nat)
               (document_chunks (store w))
        /\ chunksOf (store w') documentId = []
        /\ (forall anyone,
              getDocumentById documentId anyone w' = (Ok None, w'))).
Proof.
  split; intros E; unfold deleteDocument.
  - erewrite tryCatch_Ok; [reflexivity|].
    erewrite bind_Ok by apply selectDocumentOfUser_run.
    by rewrite E.
  - eexists. split.
    { erewrite tryCatch_Ok; [reflexivity|].
      erewrite bind_Ok by apply selectDocumentOfUser_run.
      destruct (List.filter (ownedBy documentId userId)
                  (documents (store w))) as [|x l]; [done|].
      erewrite bind_Ok by apply deleteDocumentRow_run.
      reflexivity. }
    cbn [withStore store trace documents document_chunks next_id].
    split; [done|]. split; [done|]. split; [done|]. split; [done|].
    split.
    + unfold chunksOf. cbn [document_chunks].
      apply ReprocessFacts.filter_none. intros c Hc.
      apply List.filter_In in Hc as [_ Hc].
      by apply negb_true_iff in Hc.
    + intros anyone. unfold getDocumentById.
      erewrite tryCatch_Ok; [reflexivity|].
      erewrite bind_Ok by apply selectDocumentOfUser_run.
      cbn [withStore store documents].
      rewrite (ReprocessFacts.filter_none (ownedBy documentId anyone));
        [reflexivity|].
      intros d Hd. apply List.filter_In in Hd as [_ Hd].
      apply negb_true_iff in Hd. unfold ownedBy. by rewrite Hd.
Qed.

(** The manual of the samples, deleted by somebody else and by its
    owner. *)
Lemma deleteDocument_owner_only_witness :
  deleteDocument 1 bob Examples.searchWorld
  = (Ok false, Examples.searchWorld)
  /\ exists w',
       deleteDocument 1 Examples.alice Examples.searchWorld = (Ok true, w')
       /\ documents (store w') = []
       /\ document_chunks (store w') = [].
Proof.
  split.
  - apply (proj1 (deleteDocument_owner_only 1 bob Examples.searchWorld)).
    vm_compute. reflexivity.
  - destruct (proj2 (deleteDocument_owner_only 1 Examples.alice
                       Examples.searchWorld))
      as [w' [H1 [_ [_ [H2 [H3 _]]]]]]; [vm_compute; discriminate|].
    exists w'. split; [exact H1|]. rewrite H2, H3.
    split; vm_compute; reflexivity.
Defined.

End DocumentQueryFacts.

(** ** Ingestion, continued *)

Module IngestionFacts.
Import Db DbOps DocumentService DocumentSpec IngestionSpec EmbeddingSpec.
Import DocumentQueryFacts.

Section WithCollaborators.

Variable provider : EmbeddingService.Provider.
Variable readFile : jsstring -> option (list Byte.byte).
Variable sha256 : list Byte.byte -> jsstring.
Variable extractText :
  jsstring -> jsstring -> ExtractionOptions -> Thrown + ExtractionResult.
Variable pathName : jsstring -> jsstring.

Local Abbreviation processDocument :=
  (processDocument provider readFile sha256 extractText pathName).
Local Abbreviation pipeline := (pipeline provider extractText).

(** X17.  Ingestion without embeddings.  With [generateEmbeddings] off,
    a new file whose text gives chunks is ingested without any call to
    the provider: one chunk row per chunk is appended, in order, with a
    NULL embedding, and the call succeeds without an embedding result. *)
Theorem processDocument_without_embeddings filePath originalName userId
    mimeType fileSize title options w bytes ex c cs :
  readFile filePath = Some bytes ->
  List.filter (sameContent (sha256 bytes) userId) (documents (store w))
  = [] ->
  generateEmbeddings options = Some false ->
  extractText filePath mimeType (optionsOf options).2 = inr ex ->
  EmbeddingService.isBlank (extracted_content ex) = false ->
  TextChunker.chunkText (extracted_content ex)
    (pipelineChunkOptions (optionsOf options).1.2) = c :: cs ->
  exists r w',
    processDocument filePath originalName userId mimeType fileSize title
      options w = (Ok r, w')
    /\ success r = true
    /\ error r = None
    /\ embedding_result r = None
    /\ trace w' = trace w
    /\ document_chunks (store w')
       = document_chunks (store w)
         ++ imap (fun i row => withChunkId row (S (next_id (store w)) + i))
              (map (plainRow (next_id (store w))) (c :: cs))
    /\ next_id (store w')
       = (S (next_id (store w)) + length (c :: cs))%nat.
Proof.
  intros Hread Hfind Hge Hex Hblank Hchunks.
  rewrite (DocumentFacts.processDocument_new provider readFile sha256
             extractText pathName filePath originalName userId mimeType
             fileSize title options w bytes Hread Hfind).
  cbv zeta.
  set (doc := created sha256 pathName filePath originalName userId
                mimeType fileSize title bytes (store w)).
  assert (Hge' : (optionsOf options).1.1 = false)
    by (unfold optionsOf; cbn [fst]; by rewrite Hge).
  rewrite Hge'.
  unfold DocumentService.pipeline.
  erewrite bind_Ok
    by (unfold updateDocumentStatus; apply updateDocuments_run).
  rewrite Hex. cbn [liftE].
  erewrite bind_Ok by reflexivity.
  rewrite Hblank, Hchunks.
  erewrite bind_Ok.
  2:{ erewrite bind_Ok; [reflexivity|].
      unfold storeChunksWithoutEmbeddings.
      apply DocumentFacts.batchInsertChunks_run, List.Forall_forall.
      intros row Hrow. apply in_map_iff in Hrow as [t [<- _]].
      reflexivity. }
  erewrite bind_Ok
    by (unfold updateDocumentProcessing; apply updateDocuments_run).
  erewrite bind_Ok by apply findDocumentById_run.
  erewrite bind_Ok
    by (unfold getDocumentChunks; apply selectChunksOfDocument_run).
  eexists. eexists. split; [reflexivity|].
  cbn [success error embedding_result withStore store trace afterCreate
       document_chunks next_id id doc created].
  repeat split.
  rewrite length_map. reflexivity.
Qed.

Lemma documentAt_new s docs doc f :
  documents s = map f (docs ++ [doc]) ->
  (forall d, id (f d) = id d) ->
  Forall (fun d => (id d < id doc)%nat) docs ->
  documentAt s (id doc) = Some (f doc).
Proof.
  intros Hd Hf Hfresh. unfold documentAt. rewrite Hd.
  rewrite (DocumentFacts.filter_map_commute
             (fun d => (id d =? id doc)%nat) f)
    by (intros x; by rewrite Hf).
  rewrite List.filter_app.
  rewrite (ReprocessFacts.filter_none _ docs).
  - simpl. by rewrite Nat.eqb_refl.
  - intros d Hd'. rewrite List.Forall_forall in Hfresh.
    specialize (Hfresh d Hd'). apply Nat.eqb_neq. lia.
Qed.

(** X18.  What a run of [processDocument] on new content leaves behind.
    The call returns, and the row it created is in one of two states.
    After a success the returned document is the stored row, it is
    [completed], and its [chunk_count] is the number of chunk rows stored
    for it.  After a failure the stored row is [failed] and has no chunk
    row, while the returned document is the row as it was inserted,
    still [pending]. *)
Theorem processDocument_new_document_state filePath originalName userId
    mimeType fileSize title options w bytes :
  readFile filePath = Some bytes ->
  List.filter (sameContent (sha256 bytes) userId) (documents (store w))
  = [] ->
  freshKeys (store w) ->
  wfStore (store w) ->
  exists r w' returned stored,
    processDocument filePath originalName userId mimeType fileSize title
      options w = (Ok r, w')
    /\ document r = Some returned
    /\ id returned = next_id (store w)
    /\ user_id returned = userId
    /\ documentAt (store w') (next_id (store w)) = Some stored
    /\ if success r
       then returned = stored
            /\ processing_status stored = completed
            /\ chunk_count stored
               = Z.of_nat (length (chunksOf (store w')
                                     (next_id (store w))))
       else processing_status returned = pending
            /\ processing_status stored = failed
            /\ chunksOf (store w') (next_id (store w)) = []
            /\ document_chunks (store w') = document_chunks (store w).
Proof.
  intros Hread Hfind Hfresh Hwf.
  rewrite (DocumentFacts.processDocument_new provider readFile sha256
             extractText pathName filePath originalName userId mimeType
             fileSize title options w bytes Hread Hfind).
  cbv zeta.
  set (doc := created sha256 pathName filePath originalName userId
                mimeType fileSize title bytes (store w)).
  assert (Hid : id doc = next_id (store w)) by reflexivity.
  pose proof (DocumentFacts.pipeline_cases provider extractText doc
                filePath mimeType (optionsOf options).1.1
                (optionsOf options).1.2 (optionsOf options).2
                (afterCreate w doc)) as Hcases.
  pose proof (DocumentFacts.terminates_pipeline provider extractText doc
                filePath mimeType (optionsOf options).1.1
                (optionsOf options).1.2 (optionsOf options).2
                (afterCreate w doc)) as Hterm.
  cbv zeta in Hcases.
  cbn [afterCreate store documents document_chunks next_id] in Hcases.
  destruct (pipeline doc filePath mimeType _ _ _ (afterCreate w doc))
    as [[r|e|] w2]; [| |by destruct Hterm].
  - destruct Hcases as [ex [rows [_ [Hrows [Hst [Hdoc Hsucc]]]]]].
    set (g := fun d => if (id d =? id doc)%nat
                       then setChunkCount (setStatus d completed)
                              (Z.of_nat (length (TextChunker.chunkText
                                 (extracted_content ex)
                                 (pipelineChunkOptions
                                    (optionsOf options).1.2))))
                       else d) in *.
    set (h := fun d => if (id d =? id doc)%nat
                       then setStatus d processing else d).
    assert (Hdocs : documents (store w2)
                    = map (fun d => g (h d)) (documents (store w) ++ [doc])).
    { rewrite Hst. unfold completedStore. cbn [documents].
      unfold markStatus. by rewrite map_map. }
    assert (Hat : documentAt (store w2) (id doc) = Some (g (h doc))).
    { apply (documentAt_new _ (documents (store w)) doc
               (fun d => g (h d))); [exact Hdocs| |].
      - intros d. unfold g, h.
        destruct (id d =? id doc)%nat eqn:E;
          repeat (cbn [setStatus setChunkCount id]; rewrite ?E);
          reflexivity.
      - exact Hfresh. }
    exists r, w2, (g (h doc)), (g (h doc)).
    split; [reflexivity|].
    split; [by rewrite Hdoc; exact Hat|].
    assert (Hgh : g (h doc)
                  = setChunkCount (setStatus (setStatus doc processing)
                                     completed)
                      (Z.of_nat (length (TextChunker.chunkText
                         (extracted_content ex)
                         (pipelineChunkOptions (optionsOf options).1.2))))).
    { unfold g, h. rewrite Nat.eqb_refl. simpl. by rewrite Nat.eqb_refl. }
    rewrite Hgh. split; [done|]. split; [done|].
    split; [by rewrite <- Hid, Hat, Hgh|].
    rewrite Hsucc. split; [done|]. split; [done|].
    cbn [setChunkCount chunk_count].
    destruct (DocumentFacts.rowOf_indices _ _ _ Hrows) as [_ Hdocid].
    unfold chunksOf. rewrite Hst. unfold completedStore.
    cbn [document_chunks next_id]. rewrite List.filter_app.
    rewrite (ReprocessFacts.filter_none _ (document_chunks (store w))).
    2:{ intros c0 Hc0. unfold wfStore in Hwf.
        rewrite List.Forall_forall in Hwf. specialize (Hwf c0 Hc0).
        apply Nat.eqb_neq. lia. }
    rewrite (DocumentFacts.filter_new_rows _ (id doc) _ rows Hdocid).
    rewrite Hid, Nat.eqb_refl. cbn [app]. rewrite length_imap.
    f_equal. by apply Forall2_length in Hrows.
  - unfold onFailure.
    erewrite bind_Ok
      by (unfold updateDocumentStatus; apply updateDocuments_run).
    set (h := fun d => if (id d =? id doc)%nat
                       then setStatus d failed else d).
    set (h0 := fun d => if (id d =? id doc)%nat
                        then setStatus d processing else d).
    assert (Hat : documentAt
                    {| documents := map h (documents (store w2));
                       document_chunks := document_chunks (store w2);
                       next_id := next_id (store w2) |} (id doc)
                  = Some (h (h0 doc))).
    { apply (documentAt_new _ (documents (store w)) doc
               (fun d => h (h0 d))).
      - cbn [documents]. rewrite Hcases. cbn [documents].
        unfold markStatus. by rewrite map_map.
      - intros d. unfold h, h0.
        destruct (id d =? id doc)%nat eqn:E;
          repeat (cbn [setStatus setChunkCount id]; rewrite ?E);
          reflexivity.
      - exact Hfresh. }
    exists (failure (Some doc) (errorMessage e)).
    eexists. exists doc, (h (h0 doc)).
    split; [reflexivity|].
    cbn [failure document success withStore store].
    split; [done|]. split; [done|]. split; [done|].
    split; [by rewrite <- Hid|].
    split; [done|].
    split; [unfold h, h0; rewrite Nat.eqb_refl; simpl;
            by rewrite Nat.eqb_refl|].
    rewrite Hcases. cbn [document_chunks]. split; [|done].
    unfold chunksOf. cbn [document_chunks].
    apply ReprocessFacts.filter_none.
    intros c0 Hc0. unfold wfStore in Hwf.
    rewrite List.Forall_forall in Hwf. specialize (Hwf c0 Hc0).
    apply Nat.eqb_neq. lia.
Qed.

End WithCollaborators.

(** The sample manual, ingested without embeddings by a provider that is
    down: one chunk row, no call. *)
Lemma processDocument_without_embeddings_witness :
  exists r w',
    DocumentService.processDocument Examples.down Examples.sampleReadFile
      Examples.sampleDigest Examples.sampleExtract Examples.samplePathName
      Examples.manualPath (lit "manual.txt") Examples.alice
      Examples.textPlain 289 None Examples.withoutEmbeddings Examples.world0
    = (Ok r, w')
    /\ success r = true
    /\ trace w' = []
    /\ map embedding (document_chunks (store w')) = [None].
Proof.
  edestruct (processDocument_without_embeddings Examples.down
               Examples.sampleReadFile Examples.sampleDigest
               Examples.sampleExtract Examples.samplePathName
               Examples.manualPath (lit "manual.txt") Examples.alice
               Examples.textPlain 289 None Examples.withoutEmbeddings
               Examples.world0)
    as [r [w' [H1 [H2 [_ [_ [H3 [H4 _]]]]]]]].
  - vm_compute. reflexivity.
  - vm_compute. reflexivity.
  - reflexivity.
  - vm_compute. reflexivity.
  - vm_compute. reflexivity.
  - vm_compute. reflexivity.
  - exists r, w'. split; [exact H1|]. split; [exact H2|].
    split; [exact H3|]. rewrite H4. vm_compute. reflexivity.
Defined.

(** The sample report, ingested without embeddings into the empty
    store. *)
Lemma processDocument_new_document_state_witness :
  exists r w' stored,
    DocumentService.processDocument Examples.steady Examples.sampleReadFile
      Examples.sampleDigest Examples.sampleExtract Examples.samplePathName
      Examples.reportPath (lit "report.txt") Examples.alice
      Examples.textPlain 152 None Examples.withoutEmbeddings
      Examples.world0 = (Ok r, w')
    /\ success r = true
    /\ documentAt (store w') 1 = Some stored
    /\ processing_status stored = completed
    /\ chunk_count stored = Z.of_nat (length (chunksOf (store w') 1)).
Proof.
  destruct (processDocument_new_document_state Examples.steady
              Examples.sampleReadFile Examples.sampleDigest
              Examples.sampleExtract Examples.samplePathName
              Examples.reportPath (lit "report.txt") Examples.alice
              Examples.textPlain 152 None Examples.withoutEmbeddings
              Examples.world0 (Examples.bytesOf Examples.reportText))
    as [r [w' [returned [stored [H1 [_ [_ [_ [H2 H3]]]]]]]]].
  - vm_compute. reflexivity.
  - vm_compute. reflexivity.
  - constructor.
  - constructor.
  - exists r, w', stored. split; [exact H1|].
    assert (Hs : success r = true).
    { vm_compute in H1. injection H1 as <- _. reflexivity. }
    rewrite Hs in H3. destruct H3 as [_ [H4 H5]].
    split; [exact Hs|]. split; [exact H2|]. split; [exact H4|exact H5].
Defined.

End IngestionFacts.

(** ** Retrieval, continued *)

Module RetrievalFacts.
Import Db DbOps VectorSearchService VectorSearchQueries SearchSpec.
Import EmbeddingSpec DocumentSpec DocumentQueryFacts SearchFacts.

Lemma status_eqb_eq a b : status_eqb a b = true <-> a = b.
Proof. destruct a, b; simpl; split; intros H; try done. Qed.

Lemma In_joinChunksDocuments s c d :
  In (c, d) (joinChunksDocuments s)
  <-> In c (document_chunks s) /\ In d (documents s)
      /\ Db.document_id c = id d.
Proof.
  unfold joinChunksDocuments. rewrite in_flat_map. split.
  - intros [dc [Hdc H]]. apply in_map_iff in H as [d' [[= <- <-] Hd]].
    apply List.filter_In in Hd as [Hd E]. apply Nat.eqb_eq in E. done.
  - intros [Hc [Hd E]]. exists c. split; [exact Hc|].
    apply in_map_iff. exists d. split; [done|].
    apply List.filter_In. split; [exact Hd|]. by apply Nat.eqb_eq.
Qed.

Lemma In_withEmbedding rows row v :
  In (row, v) (withEmbedding rows)
  <-> In row rows /\ embedding (fst row) = Some v.
Proof.
  unfold withEmbedding. rewrite in_flat_map. split.
  - intros [r [Hr H]]. destruct (embedding (fst r)) eqn:E; [|destruct H].
    destruct H as [[= <- <-]|[]]. done.
  - intros [Hr E]. exists row. split; [exact Hr|]. rewrite E. by left.
Qed.

Lemma In_take {A} n (l : list A) x : In x (take n l) -> In x l.
Proof.
  revert n. induction l as [|y l IH]; intros [|n]; simpl; try done.
  intros [<-|H]; [by left|right; by apply (IH n)].
Qed.

Lemma ownedCompleted_spec userId row :
  ownedCompleted userId row = true
  <-> user_id (snd row) = userId /\ processing_status (snd row) = completed.
Proof.
  unfold ownedCompleted.
  rewrite andb_true_iff, DocumentFacts.jsstring_eqb_eq, status_eqb_eq.
  done.
Qed.

(** The rows the query of [semanticSearch] returns. *)
Lemma semanticQuery_rows distance qe userId incl filt excl threshold lim s r :
  In r (semanticQuery distance qe userId incl filt excl threshold lim s) ->
  exists c d,
    searchable s userId c d /\ shows r c d
    /\ passesFilter filt (document_id r) = true
    /\ passesExclude excl (document_id r) = true.
Proof.
  unfold semanticQuery. cbv zeta. intros H.
  apply in_map_iff in H as [[[c d] v] [<- H]].
  apply In_take, In_orderBy, List.filter_In in H as [H Hp].
  apply In_withEmbedding in H as [H Hv].
  apply In_joinChunksDocuments in H as [Hc [Hd Hjoin]].
  cbn [fst snd] in *.
  apply andb_true_iff in Hp as [Hp _].
  apply andb_true_iff in Hp as [Hp Hexcl].
  apply andb_true_iff in Hp as [Hown Hfilt].
  apply ownedCompleted_spec in Hown as [Hu Hst]. cbn [snd] in *.
  exists c, d. split; [|split; [|split]].
  - unfold searchable. rewrite Hv. repeat split; try done.
  - unfold shows, selectRow. cbn. repeat split; done.
  - exact Hfilt.
  - exact Hexcl.
Qed.

Lemma formatSearchResult_shows r c d :
  shows r c d -> shows (formatSearchResult r) c d.
Proof. unfold shows, formatSearchResult. cbn. done. Qed.

Lemma semanticSearch_rows provider distance query userId options w resp w' r :
  semanticSearch provider distance query userId options w = (Ok resp, w') ->
  In r (results resp) ->
  store w' = store w
  /\ exists c d,
       searchable (store w) userId c d /\ shows r c d
       /\ passesFilter (filter_document_ids options) (document_id r) = true
       /\ passesExclude (exclude_document_ids options) (document_id r)
          = true.
Proof.
  intros Hrun Hr.
  assert (Hst : store w' = store w).
  { revert Hrun. unfold semanticSearch, tryCatch, bind.
    pose proof (Frames.generateQueryEmbedding_store provider query
                  EmbeddingService.defaultModel w) as Hq.
    destruct (EmbeddingService.generateQueryEmbedding provider query _ w)
      as [[qe|e|] w1]; [|discriminate|discriminate].
    unfold getStore, ret. intros [= _ <-]. exact Hq. }
  split; [exact Hst|].
  destruct (semanticSearch_results provider distance query userId options
              w resp w' Hrun) as [qe Hres].
  rewrite Hres in Hr. apply in_map_iff in Hr as [r0 [<- Hr0]].
  rewrite Hst in Hr0.
  destruct (semanticQuery_rows _ _ _ _ _ _ _ _ _ _ Hr0)
    as [c [d [H1 [H2 [H3 H4]]]]].
  exists c, d. split; [exact H1|].
  split; [by apply formatSearchResult_shows|]. done.
Qed.

(** X19.  Semantic search keeps the users apart and never writes.  Every
    result shows a chunk that has an embedding and belongs to a completed
    document of the asking user; it passes the list of documents to
    search in and the list of documents to leave out, when these are
    given and not empty. *)
Theorem semanticSearch_isolation provider distance query userId options
    w resp w' :
  semanticSearch provider distance query userId options w = (Ok resp, w') ->
  store w' = store w
  /\ Forall (fun r =>
       exists c d,
         searchable (store w) userId c d /\ shows r c d
         /\ (forall i ids, filter_document_ids options = Some (i :: ids) ->
                           In (document_id r) (i :: ids))
         /\ (forall i ids, exclude_document_ids options = Some (i :: ids) ->
                           ~ In (document_id r) (i :: ids)))
       (results resp).
Proof.
  intros Hrun. split.
  - revert Hrun. unfold semanticSearch, tryCatch, bind.
    pose proof (Frames.generateQueryEmbedding_store provider query
                  EmbeddingService.defaultModel w) as Hq.
    destruct (EmbeddingService.generateQueryEmbedding provider query _ w)
      as [[qe|e|] w1]; [|discriminate|discriminate].
    unfold getStore, ret. intros [= _ <-]. exact Hq.
  - apply List.Forall_forall. intros r Hr.
    destruct (semanticSearch_rows _ _ _ _ _ _ _ _ _ Hrun Hr)
      as [_ [c [d [H1 [H2 [H3 H4]]]]]].
    exists c, d. split; [exact H1|]. split; [exact H2|]. split.
    + intros i ids E. rewrite E in H3. unfold passesFilter in H3.
      apply existsb_exists in H3 as [x [Hx Hxeq]].
      apply Nat.eqb_eq in Hxeq. by subst x.
    + intros i ids E Hin. rewrite E in H4. unfold passesExclude in H4.
      apply negb_true_iff in H4.
      assert (Ht : existsb (Nat.eqb (document_id r)) (i :: ids) = true).
      { apply existsb_exists. exists (document_id r).
        split; [exact Hin|apply Nat.eqb_refl]. }
      congruence.
Qed.

(** The manual of the samples, searched by its owner. *)
Lemma semanticSearch_isolation_witness :
  exists resp w',
    semanticSearch Examples.axisProvider Examples.cosineDistance
      (lit "install the reader") Examples.alice
      (Examples.searchOptions (Q2Qc (3 # 10))) Examples.searchWorld
    = (Ok resp, w')
    /\ length (results resp) = 2%nat
    /\ store w' = Examples.searchStore
    /\ Forall (fun r => exists c d,
                 searchable Examples.searchStore Examples.alice c d
                 /\ shows r c d) (results resp).
Proof.
  destruct (semanticSearch Examples.axisProvider Examples.cosineDistance
              (lit "install the reader") Examples.alice
              (Examples.searchOptions (Q2Qc (3 # 10)))
              Examples.searchWorld) as [[resp| |] w'] eqn:E.
  - destruct (semanticSearch_isolation _ _ _ _ _ _ _ _ E) as [Hst Hall].
    exists resp, w'. split; [reflexivity|].
    split; [vm_compute in E; injection E as <- _; reflexivity|].
    split; [exact Hst|].
    eapply Forall_impl; [exact Hall|]. simpl.
    intros r [c [d [H1 [H2 _]]]]. exists c, d. done.
  - vm_compute in E. discriminate.
  - vm_compute in E. discriminate.
Defined.

(** *** Hybrid search *)

Lemma leftJoin_rows ss ks x :
  In x (leftJoin ss ks) ->
  In (fst x) ss
  /\ ((snd x = None /\ forall k, In k ks -> fst k <> chunk_id (fst x))
      \/ exists k, In k ks /\ fst k = chunk_id (fst x)
                   /\ snd x = Some (snd k)).
Proof.
  unfold leftJoin. rewrite in_flat_map. intros [srow [Hs H]].
  destruct (List.filter (fun k => (chunk_id srow =? fst k)%nat) ks)
    as [|k0 m] eqn:E.
  - destruct H as [<-|[]]. split; [done|]. left. split; [done|].
    intros k Hk Hfst. cbn [fst] in Hfst.
    assert (Hin : In k (List.filter
                          (fun k => (chunk_id srow =? fst k)%nat) ks)).
    { apply List.filter_In. split; [done|]. by apply Nat.eqb_eq. }
    by rewrite E in Hin.
  - apply in_map_iff in H as [k [<- Hk]]. rewrite <- E in Hk.
    apply List.filter_In in Hk as [Hk Heq]. apply Nat.eqb_eq in Heq.
    split; [done|]. right. by exists k.
Qed.

Lemma In_keyword_scores ts_rank_cd ts_match tsQuery userId boost s k :
  In k (keyword_scores ts_rank_cd ts_match tsQuery userId boost s)
  <-> exists c d,
        In (c, d) (joinChunksDocuments s)
        /\ ownedCompleted userId (c, d) = true
        /\ ts_match (Db.content c) tsQuery = true
        /\ k = (Db.chunk_id c,
                (ts_rank_cd (Db.content c) tsQuery * boost)%Qc).
Proof.
  unfold keyword_scores. rewrite in_map_iff. split.
  - intros [[c d] [<- H]]. apply List.filter_In in H as [H Hp].
    apply andb_true_iff in Hp as [Hown Hm]. by exists c, d.
  - intros [c [d [H [Hown [Hm ->]]]]]. exists (c, d). split; [done|].
    apply List.filter_In. split; [done|]. by apply andb_true_iff.
Qed.

(** The rows the query of [hybridSearch] returns, and their scores. *)
Lemma hybridQuery_rows distance ts_rank_cd ts_match qe userId tsQuery
    boost semanticWeight keywordWeight incl filt excl threshold lim s r :
  NoDup (map Db.chunk_id (document_chunks s)) ->
  In r (hybridQuery distance ts_rank_cd ts_match qe userId tsQuery boost
          semanticWeight keywordWeight incl filt excl threshold lim s) ->
  exists c d v,
    searchable s userId c d /\ Db.embedding c = Some v /\ shows r c d
    /\ (threshold <= 1 - distance v qe)%Qc
    /\ similarity_score r
       = ((1 - distance v qe) * semanticWeight
          + keywordScore ts_rank_cd ts_match tsQuery boost c
            * keywordWeight)%Qc.
Proof.
  intros Hnd. unfold hybridQuery. cbv zeta. intros H.
  apply In_take, In_orderBy in H.
  apply in_map_iff in H as [x [<- H]].
  apply List.filter_In in H as [H Hp].
  apply andb_true_iff in Hp as [Hp _].
  apply andb_true_iff in Hp as [Hthr _]. apply Qc_leb_le in Hthr.
  apply leftJoin_rows in H as [Hs Hk].
  unfold semantic_scores in Hs.
  apply in_map_iff in Hs as [[[c d] v] [Hx Hrow]].
  apply List.filter_In in Hrow as [Hrow Hown].
  pose proof Hown as Hown'.
  apply In_withEmbedding in Hrow as [Hjoin Hv].
  pose proof Hjoin as Hjoin'.
  apply In_joinChunksDocuments in Hjoin as [Hc [Hd Hcd]].
  cbn [fst snd] in *.
  apply ownedCompleted_spec in Hown as [Hu Hst]. cbn [snd] in *.
  rewrite <- Hx in Hthr, Hk |- *.
  cbn [selectRow similarity_score chunk_id setScore] in *.
  exists c, d, v.
  split; [unfold searchable; rewrite Hv; repeat split; done|].
  split; [exact Hv|].
  split; [unfold shows; cbn; repeat split; done|].
  split; [exact Hthr|].
  f_equal. f_equal. unfold keywordScore.
  destruct Hk as [[-> Hnone]|[k [Hk [Hfst ->]]]]; cbn [default from_option].
  - destruct (ts_match (Db.content c) tsQuery) eqn:Hm; [|done].
    exfalso.
    apply (Hnone (Db.chunk_id c,
                  (ts_rank_cd (Db.content c) tsQuery * boost)%Qc));
      [|done].
    apply In_keyword_scores. by exists c, d.
  - apply In_keyword_scores in Hk as [c' [d' [Hj' [_ [Hm ->]]]]].
    cbn [fst snd] in *.
    apply In_joinChunksDocuments in Hj' as [Hc' _].
    assert (c' = c)
      by (apply (ReprocessFacts.NoDup_map_inj Db.chunk_id _ c' c Hnd);
          done).
    subst c'. by rewrite Hm.
Qed.

(** X20.  The results of [hybridSearch] are never more than [limit] and
    stand in the order of decreasing score.  With unique chunk keys,
    each result shows a chunk with an embedding of a completed document
    of the asking user; the semantic similarity of that chunk, one minus
    its distance from the query embedding, is at or above the threshold;
    and the score is the sum of that similarity times the semantic
    weight and the keyword score times the keyword weight, rounded to
    four decimals, where the keyword score is the boosted rank of the
    chunk when its text matches the keywords and zero when it does not.
    The threshold bounds the semantic similarity alone. *)
Theorem hybridSearch_results_ranked provider distance ts_rank_cd ts_match
    query userId options w resp w' :
  hybridSearch provider distance ts_rank_cd ts_match query userId options w
  = (Ok resp, w') ->
  let threshold :=
    default (Q2Qc (1 # 2)) (similarity_threshold (search options)) in
  let semanticWeight := default (Q2Qc (7 # 10)) (semantic_weight options) in
  let keywordWeight := default (Q2Qc (3 # 10)) (keyword_weight options) in
  let keywordBoost := default (Q2Qc (12 # 10)) (keyword_boost options) in
  let tsQuery := buildTsQuery (extractKeywords query) in
  (length (results resp) <= default 10 (limit (search options)))%nat
  /\ total_results resp = length (results resp)
  /\ StronglySorted
       (fun a b => (similarity_score b <= similarity_score a)%Qc)
       (results resp)
  /\ (NoDup (map Db.chunk_id (document_chunks (store w))) ->
      exists qe,
        fst (EmbeddingService.generateQueryEmbedding provider query
               EmbeddingService.defaultModel w) = Ok qe
        /\ Forall (fun r =>
             exists c d v,
               searchable (store w) userId c d
               /\ Db.embedding c = Some v
               /\ shows r c d
               /\ (threshold <= 1 - distance v qe)%Qc
               /\ similarity_score r
                  = round4 ((1 - distance v qe) * semanticWeight
                            + keywordScore ts_rank_cd ts_match tsQuery
                                keywordBoost c * keywordWeight)%Qc)
             (results resp)).
Proof.
  intros Hrun threshold semanticWeight keywordWeight keywordBoost tsQuery.
  assert (Hshape : exists qe w1,
            EmbeddingService.generateQueryEmbedding provider query
              EmbeddingService.defaultModel w = (Ok qe, w1)
            /\ store w1 = store w
            /\ total_results resp = length (results resp)
            /\ results resp
               = map formatSearchResult
                   (hybridQuery distance ts_rank_cd ts_match qe userId
                      tsQuery keywordBoost semanticWeight keywordWeight
                      (default true (include_metadata (search options)))
                      (filter_document_ids (search options))
                      (exclude_document_ids (search options))
                      threshold (default 10%nat (limit (search options)))
                      (store w))).
  { revert Hrun. unfold hybridSearch, tryCatch, bind.
    pose proof (Frames.generateQueryEmbedding_store provider query
                  EmbeddingService.defaultModel w) as Hq.
    destruct (EmbeddingService.generateQueryEmbedding provider query _ w)
      as [[qe|e|] w1]; [|discriminate|discriminate].
    unfold getStore, ret. intros [= <- _]. cbn [snd] in Hq.
    exists qe, w1. cbn [total_results results].
    rewrite length_map, Hq. done. }
  destruct Hshape as [qe [w1 [Hqe [Hst [Htotal Hres]]]]].
  split; [|split; [exact Htotal|split]].
  - rewrite Hres. unfold hybridQuery. cbv zeta.
    rewrite length_map, length_take. lia.
  - rewrite Hres. unfold hybridQuery. cbv zeta.
    set (desc := fun a b : SearchResult =>
                   Qc_leb (similarity_score b) (similarity_score a)).
    eapply StronglySorted_map;
      [|apply StronglySorted_take, (orderBy_sorted desc)].
    + intros a b Hab. cbn [formatSearchResult similarity_score].
      apply round4_mono. apply Qc_leb_le. exact Hab.
    + intros x y. apply Qc_leb_total.
    + intros x y z Hxy Hyz. unfold desc in *.
      by apply (Qc_leb_trans _ (similarity_score y)).
  - intros Hnd. exists qe. split; [by rewrite Hqe|].
    apply List.Forall_forall. intros r Hr.
    rewrite Hres in Hr. apply in_map_iff in Hr as [r0 [<- Hr0]].
    destruct (hybridQuery_rows _ _ _ _ _ _ _ _ _ _ _ _ _ _ _ _ Hnd Hr0)
      as [c [d [v [H1 [H2 [H3 [H4 H5]]]]]]].
    exists c, d, v. split; [exact H1|]. split; [exact H2|].
    split; [by apply formatSearchResult_shows|]. split; [exact H4|].
    cbn [formatSearchResult similarity_score]. by rewrite H5.
Qed.

(** The manual of the samples: the chunk that names the reader matches
    the keywords, the other does not; both pass the threshold 0.3. *)
Lemma hybridSearch_results_ranked_witness :
  exists resp w',
    hybridSearch Examples.axisProvider Examples.cosineDistance
      Examples.sampleRank Examples.sampleMatch
      (lit "install the reader") Examples.alice
      (hybridOptions (Q2Qc (3 # 10))) Examples.searchWorld = (Ok resp, w')
    /\ length (results resp) = 2%nat
    /\ StronglySorted
         (fun a b => (similarity_score b <= similarity_score a)%Qc)
         (results resp)
    /\ Forall (fun r =>
         exists c v,
           In c (document_chunks Examples.searchStore)
           /\ Db.embedding c = Some v
           /\ chunk_id r = Db.chunk_id c
           /\ (Q2Qc (3 # 10)
               <= 1 - Examples.cosineDistance v [Q2Qc 1; Q2Qc 0])%Qc)
         (results resp).
Proof.
  destruct (hybridSearch Examples.axisProvider Examples.cosineDistance
              Examples.sampleRank Examples.sampleMatch
              (lit "install the reader") Examples.alice
              (hybridOptions (Q2Qc (3 # 10))) Examples.searchWorld)
    as [[resp| |] w'] eqn:E.
  - destruct (hybridSearch_results_ranked _ _ _ _ _ _ _ _ _ _ E)
      as [_ [_ [Hsorted Hrows]]].
    exists resp, w'. split; [reflexivity|].
    split; [vm_compute in E; injection E as <- _; reflexivity|].
    split; [exact Hsorted|].
    destruct Hrows as [qe [Hqe Hall]].
    { vm_compute. repeat constructor; intros Hin; inversion Hin; subst;
        try discriminate;
        match goal with Hx : _ ∈ [] |- _ => inversion Hx end. }
    assert (qe = [Q2Qc 1; Q2Qc 0])
      by (vm_compute in Hqe; by injection Hqe as <-).
    subst qe.
    eapply Forall_impl; [exact Hall|]. cbv beta.
    intros r [c [d [v [[Hc _] [Hv [[Hid _] [Hthr _]]]]]]].
    exists c, v. done.
  - vm_compute in E. discriminate.
  - vm_compute in E. discriminate.
Defined.

(** *** Keywords *)

Lemma split_go_words (P : N -> Prop) s :
  forall skip cur,
    Forall P s ->
    Forall (fun c => P c /\ isWhiteSpace c = false) cur ->
    Forall (Forall (fun c => P c /\ isWhiteSpace c = false))
      (split_go re_spaces s skip cur).
Proof.
  induction s as [|c s IH]; intros skip cur Hs Hcur; simpl.
  - constructor; [|constructor]. by apply Forall_rev.
  - inversion Hs as [|? ? Hc Hs']; subst.
    destruct skip as [|k]; [|by apply IH].
    unfold re_spaces. cbn [takeWhile].
    destruct (isWhiteSpace c) eqn:E; cbn [length].
    + constructor; [by apply Forall_rev|]. apply IH; [exact Hs'|constructor].
    + apply IH; [exact Hs'|]. constructor; [done|exact Hcur].
Qed.

Lemma asciiLower_not_upper c : isUpper (asciiLower c) = false.
Proof.
  unfold asciiLower. destruct (isUpper c) eqn:E; [|exact E].
  unfold isUpper in *.
  apply andb_true_iff in E as [E1 E2].
  apply N.leb_le in E1. apply N.leb_le in E2.
  apply andb_false_iff. right. apply N.leb_gt. lia.
Qed.

(** X21.  Every keyword [extractKeywords] hands to the text search is
    at least three code units long, is no stop word, and consists of
    letters, digits and underscores only, none of them an upper-case
    letter. *)
Theorem extractKeywords_words query k :
  In k (extractKeywords query) ->
  3 <= len k
  /\ isStopWord k = false
  /\ Forall (fun c => isWordChar c = true /\ isUpper c = false) k.
Proof.
  unfold extractKeywords. intros H.
  apply List.filter_In in H as [H Hstop].
  apply List.filter_In in H as [H Hlen].
  apply Z.ltb_lt in Hlen. apply negb_true_iff in Hstop.
  split; [lia|]. split; [exact Hstop|].
  set (s := map (fun c => if isWordChar c || isWhiteSpace c then c
                          else 32%N) (map asciiLower query)) in H.
  assert (Hs : Forall (fun c => (isWordChar c || isWhiteSpace c) = true
                               /\ isUpper c = false) s).
  { unfold s. apply List.Forall_forall. intros c Hc.
    apply in_map_iff in Hc as [c1 [<- Hc1]].
    apply in_map_iff in Hc1 as [c0 [<- _]].
    pose proof (asciiLower_not_upper c0) as Hup.
    destruct (isWordChar (asciiLower c0) || isWhiteSpace (asciiLower c0))
      eqn:E; [done|]. split; reflexivity. }
  pose proof (split_go_words _ s O [] Hs ltac:(constructor)) as Hall.
  rewrite List.Forall_forall in Hall. specialize (Hall k H).
  eapply Forall_impl; [exact Hall|]. simpl.
  intros c [[Hc Hup] Hws]. rewrite Hws, orb_false_r in Hc. done.
Qed.

Lemma extractKeywords_words_witness :
  In (lit "reader") (extractKeywords (lit "Install the READER, please!"))
  /\ 3 <= len (lit "reader")
  /\ isStopWord (lit "reader") = false.
Proof.
  assert (H : In (lit "reader")
                (extractKeywords (lit "Install the READER, please!")))
    by (vm_compute; right; left; reflexivity).
  split; [exact H|].
  destruct (extractKeywords_words _ _ H) as [H1 [H2 _]].
  split; [exact H1|exact H2].
Defined.

(** *** Searching in given documents *)

(** X22.  [searchInDocuments] searches in the documents named: every
    result belongs to one of them, whatever filter the options carried.
    With an empty list of documents it does not search in nothing: it is
    the search over all documents of the user. *)
Theorem searchInDocuments_scope provider distance query documentIds
    userId options w :
  (forall resp w' i ids,
      documentIds = i :: ids ->
      searchInDocuments provider distance query documentIds userId options w
      = (Ok resp, w') ->
      Forall (fun r => In (document_id r) documentIds) (results resp))
  /\ searchInDocuments provider distance query [] userId options w
     = semanticSearch provider distance query userId
         {| limit := limit options;
            similarity_threshold := similarity_threshold options;
            include_metadata := include_metadata options;
            filter_document_ids := None;
            exclude_document_ids := exclude_document_ids options |} w.
Proof.
  split; [|reflexivity].
  intros resp w' i ids -> Hrun. unfold searchInDocuments in Hrun.
  apply List.Forall_forall. intros r Hr.
  destruct (semanticSearch_rows _ _ _ _ _ _ _ _ _ Hrun Hr)
    as [_ [c [d [_ [_ [H3 _]]]]]].
  cbn [filter_document_ids passesFilter] in H3.
  apply existsb_exists in H3 as [x [Hx Hxeq]].
  apply Nat.eqb_eq in Hxeq. by subst x.
Qed.

Lemma searchInDocuments_scope_witness :
  exists resp w',
    searchInDocuments Examples.axisProvider Examples.cosineDistance
      (lit "install the reader") [1%nat] Examples.alice
      (Examples.searchOptions (Q2Qc (3 # 10))) Examples.searchWorld
    = (Ok resp, w')
    /\ Forall (fun r => In (document_id r) [1%nat]) (results resp).
Proof.
  destruct (searchInDocuments Examples.axisProvider Examples.cosineDistance
              (lit "install the reader") [1%nat] Examples.alice
              (Examples.searchOptions (Q2Qc (3 # 10))) Examples.searchWorld)
    as [[resp| |] w'] eqn:E.
  - exists resp, w'. split; [reflexivity|].
    apply (proj1 (searchInDocuments_scope Examples.axisProvider
                    Examples.cosineDistance (lit "install the reader")
                    [1%nat] Examples.alice
                    (Examples.searchOptions (Q2Qc (3 # 10)))
                    Examples.searchWorld) resp w' 1%nat [] eq_refl E).
  - vm_compute in E. discriminate.
  - vm_compute in E. discriminate.
Defined.

(** *** The context for the language model *)

Lemma fold_left_len (l : list jsstring) a :
  fold_left (fun sum text => sum + len text) l a
  = a + ChunkingStats.sum (map len l).
Proof.
  revert a. induction l as [|x l IH]; intros a; simpl.
  - unfold ChunkingStats.sum. simpl. lia.
  - rewrite IH, ChunkerFacts.sum_cons. lia.
Qed.

(** X23.  [getDocumentContext] returns at most [max_chunks] texts (five
    by default), one source entry per text, and the total of their
    lengths.  Each text is the content of a chunk of a completed
    document of the asking user, named by its source entry.  The call
    leaves the store alone, and throws what the search throws. *)
Theorem getDocumentContext_contract provider distance query userId options
    w :
  match getDocumentContext provider distance query userId options w with
  | (Ok ctx, w') =>
    (length (context ctx) <= default 5 (max_chunks options))%nat
    /\ total_characters ctx = ChunkingStats.sum (map len (context ctx))
    /\ store w' = store w
    /\ Forall2 (fun text source =>
         exists c d,
           searchable (store w) userId c d
           /\ text = Db.content c
           /\ source_document_id source = id d
           /\ source_document_title source = title d
           /\ source_chunk_index source = Db.chunk_index c)
         (context ctx) (source_chunks ctx)
  | (Throw e, w') =>
    exists options',
      semanticSearch provider distance query userId options' w
      = (Throw e, w')
  | (Diverge, _) => False
  end.
Proof.
  unfold getDocumentContext. cbv zeta. unfold bind.
  set (opts := {| limit := Some (default 5%nat (max_chunks options));
                  similarity_threshold := _; include_metadata := _;
                  filter_document_ids := _; exclude_document_ids := _ |}).
  destruct (semanticSearch provider distance query userId opts w)
    as [[resp|e|] w'] eqn:E.
  - cbn [ret context total_characters source_chunks].
    pose proof (semanticSearch_length provider distance _ _ _ _ _ _ E)
      as Hlen.
    split; [by rewrite length_map|].
    split; [by rewrite fold_left_len|].
    assert (Hrows : forall r, In r (results resp) ->
              store w' = store w
              /\ exists c d, searchable (store w) userId c d /\ shows r c d).
    { intros r Hr.
      destruct (semanticSearch_rows _ _ _ _ _ _ _ _ _ E Hr)
        as [Hst [c [d [H1 [H2 _]]]]]. split; [exact Hst|]. by exists c, d. }
    split.
    + revert E. unfold semanticSearch, tryCatch, bind.
      pose proof (Frames.generateQueryEmbedding_store provider query
                    EmbeddingService.defaultModel w) as Hq.
      destruct (EmbeddingService.generateQueryEmbedding provider query _ w)
        as [[qe|e|] w1]; [|discriminate|discriminate].
      unfold getStore, ret. intros [= _ <-]. exact Hq.
    + clear E Hlen. induction (results resp) as [|r l IH]; simpl;
        constructor.
      * destruct (Hrows r ltac:(by left)) as [_ [c [d [H1 H2]]]].
        exists c, d. unfold shows in H2.
        destruct H2 as [_ [Hd [Hi [Hc [Ht _]]]]].
        cbn. done.
      * apply IH. intros r' Hr'. apply Hrows. by right.
  - exists opts. exact E.
  - revert E. unfold semanticSearch, tryCatch, bind.
    pose proof (EmbedderFacts.generateQueryEmbedding_ends provider query
                  EmbeddingService.defaultModel w) as Hq.
    destruct (EmbeddingService.generateQueryEmbedding provider query _ w)
      as [[qe|e|] w1]; try discriminate. done.
Qed.

(** *** Listing the chunks of a document *)

(** X24.  A search that cannot embed its query throws, and says so
    twice: the message of the embedder, with its own prefix, is wrapped
    again by the search.  For a blank query nothing else happens; when
    the provider fails, its one call is all that happens. *)
Theorem search_embedding_failure provider distance ts_rank_cd ts_match
    query userId options hybridOptions w :
  (EmbeddingService.isBlank query = true ->
   semanticSearch provider distance query userId options w
   = (Throw (JsError (lit "Semantic search failed: "
        ++ lit "Query embedding generation failed: "
        ++ lit "Text content cannot be empty")), w)
   /\ hybridSearch provider distance ts_rank_cd ts_match query userId
        hybridOptions w
      = (Throw (JsError (lit "Hybrid search failed: "
           ++ lit "Query embedding generation failed: "
           ++ lit "Text content cannot be empty")), w))
  /\ (forall msg,
        EmbeddingService.isBlank query = false ->
        provider (providerCalls w) EmbeddingService.defaultModel
          [EmbedderSpec.validated query]
        = EmbeddingService.ProviderFail msg ->
        let w' := addTrace w
                    [ProviderCall EmbeddingService.defaultModel
                       [EmbedderSpec.validated query]] in
        semanticSearch provider distance query userId options w
        = (Throw (JsError (lit "Semantic search failed: "
             ++ lit "Query embedding generation failed: " ++ msg)), w')
        /\ hybridSearch provider distance ts_rank_cd ts_match query userId
             hybridOptions w
           = (Throw (JsError (lit "Hybrid search failed: "
                ++ lit "Query embedding generation failed: " ++ msg)), w')).
Proof.
  split.
  - intros Hb. unfold semanticSearch, hybridSearch. cbv zeta.
    split.
    + rewrite (tryCatch_Throw _ _ _
                 (JsError (lit "Query embedding generation failed: "
                           ++ lit "Text content cannot be empty")) w);
        [reflexivity|].
      apply bind_Throw.
      by apply EmbedderFacts.generateQueryEmbedding_blank.
    + rewrite (tryCatch_Throw _ _ _
                 (JsError (lit "Query embedding generation failed: "
                           ++ lit "Text content cannot be empty")) w);
        [reflexivity|].
      apply bind_Throw.
      by apply EmbedderFacts.generateQueryEmbedding_blank.
  - intros msg Hb Hfail. cbv zeta.
    assert (Hq : EmbeddingService.generateQueryEmbedding provider query
                   EmbeddingService.defaultModel w
                 = (Throw (JsError
                      (lit "Query embedding generation failed: " ++ msg)),
                    addTrace w
                      [ProviderCall EmbeddingService.defaultModel
                         [EmbedderSpec.validated query]])).
    { rewrite EmbedderFacts.generateQueryEmbedding_notBlank by exact Hb.
      by rewrite Hfail. }
    unfold semanticSearch, hybridSearch. cbv zeta. split.
    + rewrite (tryCatch_Throw _ _ _ _ _ (bind_Throw _ _ _ _ _ Hq)).
      reflexivity.
    + rewrite (tryCatch_Throw _ _ _ _ _ (bind_Throw _ _ _ _ _ Hq)).
      reflexivity.
Qed.

Lemma search_embedding_failure_witness :
  semanticSearch Examples.down Examples.cosineDistance (lit " ")
    Examples.alice (Examples.searchOptions (Q2Qc (3 # 10)))
    Examples.searchWorld
  = (Throw (JsError (lit "Semantic search failed: "
       ++ lit "Query embedding generation failed: "
       ++ lit "Text content cannot be empty")), Examples.searchWorld)
  /\ fst (hybridSearch Examples.down Examples.cosineDistance
            Examples.sampleRank Examples.sampleMatch (lit "reader")
            Examples.alice (hybridOptions (Q2Qc (3 # 10)))
            Examples.searchWorld)
     = Throw (JsError (lit "Hybrid search failed: "
         ++ lit "Query embedding generation failed: "
         ++ lit "rate limit exceeded")).
Proof.
  split.
  - apply (proj1 (search_embedding_failure Examples.down
                    Examples.cosineDistance Examples.sampleRank
                    Examples.sampleMatch (lit " ") Examples.alice
                    (Examples.searchOptions (Q2Qc (3 # 10)))
                    (hybridOptions (Q2Qc (3 # 10)))
                    Examples.searchWorld)).
    vm_compute. reflexivity.
  - rewrite (proj2 (proj2 (search_embedding_failure Examples.down
                      Examples.cosineDistance Examples.sampleRank
                      Examples.sampleMatch (lit "reader") Examples.alice
                      (Examples.searchOptions (Q2Qc (3 # 10)))
                      (hybridOptions (Q2Qc (3 # 10)))
                      Examples.searchWorld)
                    (lit "rate limit exceeded") eq_refl eq_refl)).
    reflexivity.
Defined.

End RetrievalFacts.

(** ** Text extraction *)

Module ExtractionFacts.
Import DocumentService TextExtractionService ExtractionSpec ChunkerSpec.
Import JSFacts ChunkerFacts.

Lemma collapse_whitespace_collapsed s r :
  whitespaceCollapsed (collapse_whitespace s r) r = true.
Proof.
  revert r. induction s as [|c s IH]; intros r; simpl; [done|].
  destruct (isWhiteSpace c) eqn:E.
  - destruct r; [apply IH|]. simpl. apply IH.
  - simpl. destruct (c =? 32)%N eqn:E32.
    + apply N.eqb_eq in E32. subst c. discriminate.
    + rewrite E. simpl. apply IH.
Qed.

Lemma whitespaceCollapsed_id s r :
  whitespaceCollapsed s r = true -> collapse_whitespace s r = s.
Proof.
  revert r. induction s as [|c s IH]; intros r; simpl; [done|].
  destruct (c =? 32)%N eqn:E32.
  - apply N.eqb_eq in E32. subst c. simpl.
    destruct r; simpl; [discriminate|]. intros H. by rewrite (IH _ H).
  - intros H. apply andb_true_iff in H as [H1 H2].
    apply negb_true_iff in H1. rewrite H1. by rewrite (IH _ H2).
Qed.

Lemma whitespaceCollapsed_weaken s r :
  whitespaceCollapsed s r = true -> whitespaceCollapsed s false = true.
Proof.
  destruct s as [|c s]; simpl; [done|].
  destruct (c =? 32)%N; [|done]. by destruct r.
Qed.

Lemma whitespaceCollapsed_suffix a s r :
  whitespaceCollapsed (a ++ s) r = true ->
  whitespaceCollapsed s false = true.
Proof.
  revert r. induction a as [|c a IH]; intros r H.
  - by apply (whitespaceCollapsed_weaken s r).
  - simpl in H. destruct (c =? 32)%N.
    + apply andb_true_iff in H as [_ H]. by apply (IH true).
    + apply andb_true_iff in H as [_ H]. by apply (IH false).
Qed.

Lemma whitespaceCollapsed_prefix s b r :
  whitespaceCollapsed (s ++ b) r = true -> whitespaceCollapsed s r = true.
Proof.
  revert r. induction s as [|c s IH]; intros r; simpl; [done|].
  destruct (c =? 32)%N.
  - intros H. apply andb_true_iff in H as [H1 H2].
    rewrite H1. simpl. by apply IH.
  - intros H. apply andb_true_iff in H as [H1 H2].
    rewrite H1. simpl. by apply IH.
Qed.

(** In a collapsed string the only white space is the space. *)
Lemma whitespaceCollapsed_spaces s r c :
  whitespaceCollapsed s r = true -> In c s -> isWhiteSpace c = true ->
  c = 32%N.
Proof.
  revert r. induction s as [|d s IH]; intros r; simpl; [done|].
  destruct (d =? 32)%N eqn:E32.
  - apply N.eqb_eq in E32. subst d.
    intros H [<-|Hin] Hws; [done|].
    apply andb_true_iff in H as [_ H]. by apply (IH true).
  - intros H [<-|Hin] Hws.
    + apply andb_true_iff in H as [H _]. apply negb_true_iff in H.
      congruence.
    + apply andb_true_iff in H as [_ H]. by apply (IH false).
Qed.

Lemma cleanText_plain_collapsed text :
  whitespaceCollapsed (cleanText text false) false = true.
Proof.
  unfold cleanText. destruct text as [|c text]; [done|]. cbn [negb].
  set (d := collapse_whitespace (c :: text) false).
  pose proof (collapse_whitespace_collapsed (c :: text) false) as Hd.
  fold d in Hd.
  destruct (trim_split d) as [pre [post E]].
  rewrite E in Hd. apply whitespaceCollapsed_suffix in Hd.
  by apply whitespaceCollapsed_prefix in Hd.
Qed.

Lemma cleanText_plain_no_linebreak text :
  ~ In 10%N (cleanText text false) /\ ~ In 13%N (cleanText text false).
Proof.
  pose proof (cleanText_plain_collapsed text) as H.
  split; intros Hin;
    pose proof (whitespaceCollapsed_spaces _ _ _ H Hin eq_refl);
    discriminate.
Qed.

(** X25.  [cleanText] is a normalisation in both of its modes.  Without
    [preserveFormatting] the result has no white space at either end,
    its only white space is the single space between words (so it has no
    line break), and cleaning it again changes nothing.  With
    [preserveFormatting] the result has no carriage return and no run of
    more than two line feeds, and cleaning it again changes nothing. *)
Theorem cleanText_normal_form text :
  (trimmed (cleanText text false)
   /\ whitespaceCollapsed (cleanText text false) false = true
   /\ (forall c, In c (cleanText text false) -> isWhiteSpace c = true ->
                 c = 32%N)
   /\ cleanText (cleanText text false) false = cleanText text false)
  /\ (~ In 13%N (cleanText text true)
      /\ newlinesCollapsed (cleanText text true) O = true
      /\ cleanText (cleanText text true) true = cleanText text true).
Proof.
  split.
  - pose proof (cleanText_plain_collapsed text) as Hc.
    assert (Ht : trimmed (cleanText text false)).
    { unfold cleanText, trimmed. destruct text; [done|]. apply trim_idem. }
    split; [exact Ht|]. split; [exact Hc|]. split.
    + intros c. apply (whitespaceCollapsed_spaces _ _ _ Hc).
    + destruct (cleanText text false) as [|c t] eqn:E; [done|].
      unfold cleanText at 1. cbn [negb].
      rewrite whitespaceCollapsed_id by exact Hc. exact Ht.
  - unfold cleanText. destruct text as [|c text];
      [split; [intros []|split; reflexivity]|].
    cbn [negb].
    set (b := replace_cr (replace_crlf (c :: text))).
    assert (HnoCR : ~ In 13%N (collapse_newlines b O)).
    { intros H. apply collapse_newlines_In in H.
      by apply (replace_cr_noCR (replace_crlf (c :: text))). }
    pose proof (newlinesCollapsed_collapse b O) as Hn.
    split; [exact HnoCR|]. split; [exact Hn|].
    destruct (collapse_newlines b O) as [|x t] eqn:E; [done|].
    rewrite (replace_crlf_noCR _ HnoCR), (replace_cr_id _ HnoCR).
    by apply newlinesCollapsed_id.
Qed.

(** *** [extractText] *)

Lemma ownExtractor_supported mimeType extractor :
  ownExtractor mimeType = Some extractor -> In mimeType getSupportedTypes.
Proof.
  unfold ownExtractor, getSupportedTypes.
  repeat match goal with
  | |- context [TextChunker.jsstring_eqb mimeType ?m] =>
    let E := fresh "E" in
    destruct (TextChunker.jsstring_eqb mimeType m) eqn:E;
      [apply DocumentFacts.jsstring_eqb_eq in E; subst mimeType;
       intros _; simpl; tauto|]
  end.
  discriminate.
Qed.

Lemma ownExtractor_markdown mimeType :
  ownExtractor mimeType = Some extractMarkdown -> mimeType = mimeMarkdown.
Proof.
  unfold ownExtractor.
  repeat match goal with
  | |- context [TextChunker.jsstring_eqb mimeType ?m] =>
    let E := fresh "E" in
    destruct (TextChunker.jsstring_eqb mimeType m) eqn:E;
      [apply DocumentFacts.jsstring_eqb_eq in E; subst mimeType;
       try discriminate; done|]
  end.
  discriminate.
Qed.

Lemma In_drop {A} n (l : list A) x : In x (drop n l) -> In x l.
Proof.
  revert n. induction l as [|y l IH]; intros [|n]; simpl; try done.
  intros H. right. by apply (IH n).
Qed.

Lemma applyMaxLength_bounds result options :
  characterCount result = len (extracted_content result) ->
  let r := applyMaxLength result options in
  (forall m, maxLength options = Some m -> 0 < m ->
             len (extracted_content r) <= m)
  /\ (forall m, maxLength options = Some m -> 0 <= m ->
                characterCount r = len (extracted_content r))
  /\ (maxLength options = None ->
      characterCount r = len (extracted_content r))
  /\ (forall c, In c (extracted_content r) ->
                In c (extracted_content result)).
Proof.
  intros Hcc. cbv zeta. unfold applyMaxLength.
  destruct (maxLength options) as [m|]; [|by repeat split].
  destruct (negb (m =? 0) && (m <? len (extracted_content result))) eqn:E.
  - apply andb_true_iff in E as [E1 E2].
    apply negb_true_iff, Z.eqb_neq in E1. apply Z.ltb_lt in E2.
    cbn [extracted_content characterCount].
    assert (Hlen : 0 < m ->
              len (substring (extracted_content result) 0 m) = m).
    { intros Hm. unfold substring, clamp. cbv zeta.
      pose proof (len_nonneg (extracted_content result)).
      replace (Z.max 0 (Z.min 0 (len (extracted_content result))))
        with 0 by lia.
      replace (Z.max 0 (Z.min m (len (extracted_content result))))
        with m by lia.
      replace (Z.min 0 m) with 0 by lia.
      replace (Z.max 0 m) with m by lia.
      simpl. rewrite drop_0. unfold len in *. rewrite length_take. lia. }
    repeat split.
    + intros m' [= <-] Hm. rewrite Hlen; lia.
    + intros m' [= <-] Hm. rewrite Hlen; lia.
    + discriminate.
    + intros c Hc. unfold substring in Hc. cbv zeta in Hc.
      apply RetrievalFacts.In_take in Hc.
      by apply In_drop in Hc.
  - apply andb_false_iff in E.
    repeat split; try done.
    intros m' [= <-] Hm. destruct E as [E|E].
    + apply negb_false_iff, Z.eqb_eq in E. lia.
    + apply Z.ltb_ge in E. lia.
Qed.

(** *** A text without line breaks is one paragraph *)

Lemma re_blank_line_head c s : c <> 10%N -> re_blank_line (c :: s) = None.
Proof.
  intros Hc. unfold re_blank_line.
  destruct c as [|p]; [done|].
  do 4 (destruct p as [p|p|]; try done).
Qed.

Lemma split_no_linefeed s cur :
  ~ In 10%N s -> split_go re_blank_line s O cur = [rev cur ++ s].
Proof.
  revert cur. induction s as [|c s IH]; intros cur H; cbn [split_go].
  - by rewrite app_nil_r.
  - rewrite re_blank_line_head by (intros ->; apply H; by left).
    rewrite IH by (intros Hin; apply H; by right).
    simpl. by rewrite <- app_assoc.
Qed.

Lemma chunkByParagraphs_no_linefeed text o :
  ~ In 10%N text ->
  (length (TextChunker.chunkByParagraphs text o) <= 1)%nat.
Proof.
  intros H. unfold TextChunker.chunkByParagraphs, split.
  rewrite (split_no_linefeed text [] H). cbn [rev app List.filter].
  destruct (0 <? len (trim text)); cbn [fold_left].
  - unfold TextChunker.packStep, TextChunker.packing0.
    cbn [TextChunker.currentChunk TextChunker.chunks len length].
    cbn [Z.of_nat Z.ltb Z.compare andb].
    unfold TextChunker.packFinish. cbn [TextChunker.chunks].
    destruct (TextChunker.minChunkSize o <=? _); simpl; lia.
  - unfold TextChunker.packFinish, TextChunker.packing0.
    cbn [TextChunker.chunks].
    destruct (TextChunker.minChunkSize o <=? _); simpl; lia.
Qed.

Lemma preprocessText_no_linefeed text :
  ~ In 10%N text -> ~ In 13%N text ->
  ~ In 10%N (TextChunker.preprocessText text).
Proof.
  intros H10 H13 H. unfold TextChunker.preprocessText in H.
  apply trim_In, collapse_newlines_In, collapse_blanks_In in H
    as [H|H]; [discriminate|].
  rewrite (replace_crlf_noCR _ H13), (replace_cr_id _ H13) in H. done.
Qed.

Lemma chunkText_no_linebreak text options :
  ~ In 10%N text -> ~ In 13%N text ->
  TextChunker.preserveParagraphs
    (TextChunker.spread TextChunker.defaultOptions options) = true ->
  (length (TextChunker.chunkText text options) <= 1)%nat.
Proof.
  intros H10 H13 Hp. unfold TextChunker.chunkText.
  destruct ((len text =? 0) || (len (trim text) =? 0)); [simpl; lia|].
  cbv zeta. rewrite Hp. rewrite length_imap.
  unfold TextChunker.postProcessChunks. rewrite length_imap.
  pose proof (chunkByParagraphs_no_linefeed
                (TextChunker.preprocessText text)
                (TextChunker.spread TextChunker.defaultOptions options)
                (preprocessText_no_linefeed text H10 H13)) as Hlen.
  pose proof (List.filter_length_le
                (fun c => TextChunker.minChunkSize
                            (TextChunker.spread TextChunker.defaultOptions
                               options)
                          <=? len (trim (TextChunker.content c)))
                (TextChunker.chunkByParagraphs
                   (TextChunker.preprocessText text)
                   (TextChunker.spread TextChunker.defaultOptions options)))
    as Hf.
  lia.
Qed.

Lemma pipelineChunkOptions_paragraphs copts :
  TextChunker.preserveParagraphs_opt copts <> Some false ->
  TextChunker.preserveParagraphs
    (TextChunker.spread TextChunker.defaultOptions
       (pipelineChunkOptions copts)) = true.
Proof.
  intros H. unfold pipelineChunkOptions, TextChunker.spread.
  cbn [TextChunker.preserveParagraphs TextChunker.preserveParagraphs_opt].
  by destruct (TextChunker.preserveParagraphs_opt copts) as [[|]|].
Qed.

Section Extract.

Variable readFile : jsstring -> option (list Byte.byte).
Variable utf8 : list Byte.byte -> jsstring.
Variable pdfParse : list Byte.byte -> Thrown + jsstring.
Variable extractRawText : list Byte.byte -> Thrown + jsstring.
Variable fileTypeFromBuffer : list Byte.byte -> option jsstring.
Variable typeErrorMessage : jsstring -> jsstring.

Local Abbreviation extractText :=
  (extractText readFile utf8 pdfParse extractRawText fileTypeFromBuffer
     typeErrorMessage).
Local Abbreviation runExtractor :=
  (runExtractor utf8 pdfParse extractRawText).

Lemma runExtractor_counts extractor buffer options result :
  runExtractor extractor buffer options = inr result ->
  characterCount result = len (extracted_content result).
Proof.
  destruct extractor; simpl;
    try destruct (pdfParse buffer); try destruct (extractRawText buffer);
    try discriminate; by intros [= <-].
Qed.

Lemma runExtractor_plain extractor buffer options result :
  runExtractor extractor buffer options = inr result ->
  extractor <> extractMarkdown ->
  preserveFormatting options <> Some true ->
  exists text, extracted_content result = cleanText text false.
Proof.
  intros Hrun Hmd Hpf.
  assert (Hdef : default false (preserveFormatting options) = false).
  { destruct (preserveFormatting options) as [[|]|]; done. }
  destruct extractor; try (exfalso; by apply Hmd);
    cbn [TextExtractionService.runExtractor] in Hrun;
    rewrite Hdef in Hrun.
  - destruct (pdfParse buffer) as [e|text]; [discriminate|].
    injection Hrun as <-. by eexists.
  - injection Hrun as <-. by eexists.
  - destruct (extractRawText buffer) as [e|text]; [discriminate|].
    injection Hrun as <-. by eexists.
  - injection Hrun as <-. by eexists.
Qed.

(** What [extractText] returns, in terms of the extractor it ran. *)
Lemma extractText_inr filePath mimeType options result :
  extractText filePath mimeType options = inr result ->
  exists buffer effective extractor raw,
    readFile filePath = Some buffer
    /\ (mimeType <> [] -> effective = mimeType)
    /\ ownExtractor effective = Some extractor
    /\ runExtractor extractor buffer options = inr raw
    /\ result = applyMaxLength raw options.
Proof.
  unfold TextExtractionService.extractText. cbv zeta.
  destruct (readFile filePath) as [buffer|]; [|discriminate].
  set (effective := match mimeType with
                    | [] => _
                    | _ => mimeType
                    end).
  destruct (ownExtractor effective) as [extractor|] eqn:Eown.
  - destruct (runExtractor extractor buffer options) as [e|raw] eqn:Erun;
      [discriminate|].
    intros [= <-]. exists buffer, effective, extractor, raw.
    split; [done|]. split; [|done].
    intros Hne. unfold effective. by destruct mimeType.
  - by destruct (inherited effective).
Qed.

(** X26.  [extractText] either throws an error whose message starts
    with "Failed to extract text from file: ", or returns a result for
    one of the six supported types (or for a type it detected itself).
    In a result the content is not longer than a positive [maxLength],
    and [characterCount] is the length of the content unless [maxLength]
    is negative.  A type that is given and not supported is refused by
    name. *)
Theorem extractText_contract filePath mimeType options :
  match extractText filePath mimeType options with
  | inl error =>
    exists msg,
      error = JsError (lit "Failed to extract text from file: " ++ msg)
  | inr result =>
    (mimeType = [] \/ In mimeType getSupportedTypes)
    /\ (forall m, maxLength options = Some m -> 0 < m ->
                  len (extracted_content result) <= m)
    /\ (forall m, maxLength options = Some m -> 0 <= m ->
                  characterCount result = len (extracted_content result))
    /\ (maxLength options = None ->
        characterCount result = len (extracted_content result))
  end
  /\ (forall buffer,
        readFile filePath = Some buffer ->
        mimeType <> [] ->
        ownExtractor mimeType = None ->
        inherited mimeType = false ->
        extractText filePath mimeType options
        = inl (JsError (lit "Failed to extract text from file: "
                        ++ lit "Unsupported file type: " ++ mimeType))).
Proof.
  split.
  - destruct (extractText filePath mimeType options) as [e|result] eqn:E.
    + revert E. unfold TextExtractionService.extractText. cbv zeta.
      match goal with
      | |- match ?a with _ => _ end = _ -> _ => destruct a as [e0|r0]
      end; [|discriminate].
      intros [= <-]. by exists (errorMessage e0).
    + destruct (extractText_inr _ _ _ _ E)
        as [buffer [effective [extractor [raw [_ [Heff [Hown [Hrun ->]]]]]]]].
      destruct (applyMaxLength_bounds raw options
                  (runExtractor_counts _ _ _ _ Hrun)) as [H1 [H2 [H3 _]]].
      split; [|by repeat split].
      destruct mimeType as [|c m]; [by left|]. right.
      rewrite <- (Heff ltac:(done)).
      by apply (ownExtractor_supported _ extractor).
  - intros buffer Hread Hne Hown Hinh.
    unfold TextExtractionService.extractText. cbv zeta. rewrite Hread.
    destruct mimeType as [|c m]; [done|].
    by rewrite Hown, Hinh.
Qed.

(** What [extractText] returns for a type other than Markdown, when the
    formatting is not to be preserved, has no line break. *)
Lemma extractText_no_linebreak filePath mimeType options result :
  extractText filePath mimeType options = inr result ->
  mimeType <> [] -> mimeType <> mimeMarkdown ->
  preserveFormatting options <> Some true ->
  ~ In 10%N (extracted_content result)
  /\ ~ In 13%N (extracted_content result).
Proof.
  intros Hrun Hne Hmd Hpf.
  destruct (extractText_inr _ _ _ _ Hrun)
    as [buffer [effective [extractor [raw [_ [Heff [Hown [Hraw ->]]]]]]]].
  rewrite (Heff Hne) in Hown.
  assert (Hext : extractor <> extractMarkdown).
  { intros ->. by apply Hmd, ownExtractor_markdown. }
  destruct (runExtractor_plain _ _ _ _ Hraw Hext Hpf) as [text Htext].
  destruct (applyMaxLength_bounds raw options
              (runExtractor_counts _ _ _ _ Hraw)) as [_ [_ [_ Hin]]].
  destruct (cleanText_plain_no_linebreak text) as [H10 H13].
  rewrite <- Htext in H10, H13.
  split; intros H; apply Hin in H; done.
Qed.

(** X27.  Extraction defeats the chunker.  For every supported type but
    Markdown, and unless [preserveFormatting] is asked for, [extractText]
    turns every line break into a space; the chunker, which by default
    cuts at blank lines only, then sees one paragraph: however long the
    text is, it comes back as at most one chunk. *)
Theorem extracted_text_single_chunk filePath mimeType options result
    chunkOptions :
  extractText filePath mimeType options = inr result ->
  mimeType <> [] -> mimeType <> mimeMarkdown ->
  preserveFormatting options <> Some true ->
  TextChunker.preserveParagraphs_opt chunkOptions <> Some false ->
  (forall c, In c (extracted_content result) -> isWhiteSpace c = true ->
             c = 32%N)
  /\ (length (TextChunker.chunkText (extracted_content result)
                (pipelineChunkOptions chunkOptions)) <= 1)%nat.
Proof.
  intros Hrun Hne Hmd Hpf Hpar. split.
  - destruct (extractText_inr _ _ _ _ Hrun)
      as [buffer [effective [extractor [raw [_ [Heff [Hown [Hraw ->]]]]]]]].
    rewrite (Heff Hne) in Hown.
    assert (Hext : extractor <> extractMarkdown).
    { intros ->. by apply Hmd, ownExtractor_markdown. }
    destruct (runExtractor_plain _ _ _ _ Hraw Hext Hpf) as [text Htext].
    destruct (applyMaxLength_bounds raw options
                (runExtractor_counts _ _ _ _ Hraw)) as [_ [_ [_ Hin]]].
    intros c Hc Hws. apply Hin in Hc. rewrite Htext in Hc.
    by apply (whitespaceCollapsed_spaces _ _ _
                (cleanText_plain_collapsed text) Hc).
  - destruct (extractText_no_linebreak _ _ _ _ Hrun Hne Hmd Hpf)
      as [H10 H13].
    apply chunkText_no_linebreak; [exact H10|exact H13|].
    by apply pipelineChunkOptions_paragraphs.
Qed.

End Extract.

(** The sample manual as plain text, cut to 40 code units, and as a
    picture. *)
Lemma extractText_contract_witness :
  (exists result,
     sampleExtractText Examples.manualPath mimeTXT
       {| preserveFormatting := None; maxLength := Some 40 |} = inr result
     /\ len (extracted_content result) <= 40
     /\ characterCount result = len (extracted_content result))
  /\ sampleExtractText Examples.manualPath (lit "image/png")
       defaultExtraction
     = inl (JsError (lit "Failed to extract text from file: "
                     ++ lit "Unsupported file type: " ++ lit "image/png")).
Proof.
  split.
  - destruct (sampleExtractText Examples.manualPath mimeTXT
                {| preserveFormatting := None; maxLength := Some 40 |})
      as [e|result] eqn:E; [vm_compute in E; discriminate|].
    destruct (extractText_contract Examples.sampleReadFile
                sampleUtf8 noParser noParser noDetection
                sampleTypeError Examples.manualPath mimeTXT
                {| preserveFormatting := None; maxLength := Some 40 |})
      as [H _].
    unfold sampleExtractText in E. rewrite E in H.
    destruct H as [_ [H1 [H2 _]]].
    exists result. split; [reflexivity|].
    split; [apply (H1 40); [reflexivity|lia]|].
    apply (H2 40); [reflexivity|lia].
  - apply (proj2 (extractText_contract Examples.sampleReadFile
                    sampleUtf8 noParser noParser noDetection
                    sampleTypeError Examples.manualPath (lit "image/png")
                    defaultExtraction)
             (Examples.bytesOf Examples.manualText));
      vm_compute; (reflexivity || discriminate).
Defined.

(** The sample manual has two paragraphs; extracted as plain text it
    has one, and is one chunk of 288 code units, even when chunks of at
    most 100 code units are asked for. *)
Lemma extracted_text_single_chunk_witness :
  exists result,
    sampleExtractText Examples.manualPath mimeTXT defaultExtraction
    = inr result
    /\ len (extracted_content result) = 288
    /\ (length (TextChunker.chunkText (extracted_content result)
                  (pipelineChunkOptions smallChunks))
         <= 1)%nat.
Proof.
  eexists. split; [vm_compute; reflexivity|].
  split; [vm_compute; reflexivity|].
  refine (proj2 (extracted_text_single_chunk Examples.sampleReadFile
                   sampleUtf8 noParser noParser noDetection
                   sampleTypeError Examples.manualPath mimeTXT
                   defaultExtraction _ smallChunks _ _ _ _ _)).
  - vm_compute. reflexivity.
  - discriminate.
  - vm_compute. discriminate.
  - discriminate.
  - discriminate.
Defined.

End ExtractionFacts.

(** ** Extraction and ingestion together *)

Module PipelineFacts.
Import Db DbOps DocumentService DocumentSpec IngestionSpec EmbeddingSpec.
Import TextExtractionService ExtractionSpec DocumentQueryFacts.

Section WithCollaborators.

Variable provider : EmbeddingService.Provider.
Variable readFile : jsstring -> option (list Byte.byte).
Variable sha256 : list Byte.byte -> jsstring.
Variable pathName : jsstring -> jsstring.
Variable utf8 : list Byte.byte -> jsstring.
Variable pdfParse : list Byte.byte -> Thrown + jsstring.
Variable extractRawText : list Byte.byte -> Thrown + jsstring.
Variable fileTypeFromBuffer : list Byte.byte -> option jsstring.
Variable typeErrorMessage : jsstring -> jsstring.

Local Abbreviation extractText :=
  (extractText readFile utf8 pdfParse extractRawText fileTypeFromBuffer
     typeErrorMessage).
Local Abbreviation processDocument :=
  (processDocument provider readFile sha256 extractText pathName).
Local Abbreviation pipeline := (pipeline provider extractText).

(** A pipeline that returns has extracted a text and cut it into at
    least one chunk. *)
Lemma pipeline_Ok_chunked doc filePath mimeType ge copts eopts w r w' :
  pipeline doc filePath mimeType ge copts eopts w = (Ok r, w') ->
  exists ex,
    extractText filePath mimeType eopts = inr ex
    /\ TextChunker.chunkText (extracted_content ex)
         (pipelineChunkOptions copts) <> [].
Proof.
  unfold DocumentService.pipeline.
  erewrite bind_Ok
    by (unfold updateDocumentStatus; apply updateDocuments_run).
  destruct (extractText filePath mimeType eopts) as [e|ex]; cbn [liftE].
  - erewrite bind_Throw by reflexivity. discriminate.
  - erewrite bind_Ok by reflexivity.
    destruct (EmbeddingService.isBlank (extracted_content ex));
      [discriminate|].
    destruct (TextChunker.chunkText (extracted_content ex)
                (pipelineChunkOptions copts)) eqn:E; [discriminate|].
    intros _. exists ex. split; [reflexivity|]. rewrite E. discriminate.
Qed.

(** X28.  Ingestion through the text extractor.  A new file of any type
    but Markdown, ingested with the default options (no
    [preserveFormatting], paragraphs not switched off), gets at most one
    chunk row, whatever its length: exactly one when the call succeeds,
    none when it fails.  No other chunk row is touched. *)
Theorem processDocument_at_most_one_chunk filePath originalName userId
    mimeType fileSize title options w bytes :
  readFile filePath = Some bytes ->
  List.filter (sameContent (sha256 bytes) userId) (documents (store w))
  = [] ->
  mimeType <> [] -> mimeType <> mimeMarkdown ->
  preserveFormatting (optionsOf options).2 <> Some true ->
  TextChunker.preserveParagraphs_opt (optionsOf options).1.2
  <> Some false ->
  exists r w' rows,
    processDocument filePath originalName userId mimeType fileSize title
      options w = (Ok r, w')
    /\ document_chunks (store w') = document_chunks (store w) ++ rows
    /\ length rows = (if success r then 1 else 0)%nat
    /\ Forall (fun row => document_id row = next_id (store w)) rows.
Proof.
  intros Hread Hfind Hne Hmd Hpf Hpar.
  rewrite (DocumentFacts.processDocument_new provider readFile sha256
             extractText pathName filePath originalName userId mimeType
             fileSize title options w bytes Hread Hfind).
  cbv zeta.
  set (doc := created sha256 pathName filePath originalName userId
                mimeType fileSize title bytes (store w)).
  pose proof (DocumentFacts.pipeline_cases provider extractText doc
                filePath mimeType (optionsOf options).1.1
                (optionsOf options).1.2 (optionsOf options).2
                (afterCreate w doc)) as Hcases.
  pose proof (DocumentFacts.terminates_pipeline provider extractText doc
                filePath mimeType (optionsOf options).1.1
                (optionsOf options).1.2 (optionsOf options).2
                (afterCreate w doc)) as Hterm.
  pose proof (pipeline_Ok_chunked doc filePath mimeType
                (optionsOf options).1.1 (optionsOf options).1.2
                (optionsOf options).2 (afterCreate w doc)) as Hok.
  cbv zeta in Hcases.
  cbn [afterCreate store documents document_chunks next_id] in Hcases.
  destruct (pipeline doc filePath mimeType _ _ _ (afterCreate w doc))
    as [[r|e|] w2]; [| |by destruct Hterm].
  - destruct Hcases as [ex [rows [Hex [Hrows [Hst [_ Hsucc]]]]]].
    destruct (Hok r w2 eq_refl) as [ex' [Hex' Hchunks]].
    rewrite Hex in Hex'. injection Hex' as <-.
    destruct (ExtractionFacts.extractText_no_linebreak readFile utf8
                pdfParse extractRawText fileTypeFromBuffer
                typeErrorMessage _ _ _ _ Hex Hne Hmd Hpf) as [H10 H13].
    pose proof (ExtractionFacts.chunkText_no_linebreak
                  (extracted_content ex)
                  (pipelineChunkOptions (optionsOf options).1.2)
                  H10 H13
                  (ExtractionFacts.pipelineChunkOptions_paragraphs
                     _ Hpar)) as Hle.
    exists r, w2.
    exists (imap (fun i c => withChunkId c (S (next_id (store w)) + i))
              rows).
    split; [reflexivity|].
    split; [by rewrite Hst|].
    rewrite Hsucc, length_imap.
    destruct (DocumentFacts.rowOf_indices _ _ _ Hrows) as [_ Hdocid].
    apply Forall2_length in Hrows.
    split.
    + destruct (TextChunker.chunkText (extracted_content ex)
                  (pipelineChunkOptions (optionsOf options).1.2))
        as [|c [|c' cs]]; simpl in *; [done|lia|lia].
    + apply List.Forall_forall. intros row Hin.
      apply ChunkerFacts.In_imap in Hin as [i [c [-> Hin]]].
      rewrite List.Forall_forall in Hdocid. by apply Hdocid in Hin.
  - unfold onFailure.
    erewrite bind_Ok
      by (unfold updateDocumentStatus; apply updateDocuments_run).
    eexists. eexists. exists [].
    split; [reflexivity|].
    cbn [failure success withStore store document_chunks length].
    rewrite Hcases. cbn [document_chunks]. rewrite app_nil_r.
    split; [done|]. split; [done|constructor].
Qed.

End WithCollaborators.

(** The sample manual, two paragraphs of 288 code units, ingested as
    plain text with chunks of at most 100 code units asked for and
    without embeddings: one chunk row. *)
Lemma processDocument_at_most_one_chunk_witness :
  exists r w',
    DocumentService.processDocument Examples.down Examples.sampleReadFile
      Examples.sampleDigest
      (TextExtractionService.extractText Examples.sampleReadFile
         sampleUtf8 noParser noParser noDetection sampleTypeError)
      Examples.samplePathName
      Examples.manualPath (lit "manual.txt") Examples.alice
      Examples.textPlain 289 None smallChunksOnly Examples.world0
    = (Ok r, w')
    /\ success r = true
    /\ length (document_chunks (store w')) = 1%nat.
Proof.
  edestruct (processDocument_at_most_one_chunk Examples.down
               Examples.sampleReadFile Examples.sampleDigest
               Examples.samplePathName sampleUtf8 noParser noParser
               noDetection sampleTypeError
               Examples.manualPath (lit "manual.txt") Examples.alice
               Examples.textPlain 289 None smallChunksOnly
               Examples.world0)
    as [r [w' [rows [H1 [H2 [H3 _]]]]]].
  - vm_compute. reflexivity.
  - vm_compute. reflexivity.
  - discriminate.
  - vm_compute. discriminate.
  - discriminate.
  - discriminate.
  - exists r, w'. split; [exact H1|].
    assert (Hs : success r = true).
    { vm_compute in H1. injection H1 as <- _. reflexivity. }
    split; [exact Hs|].
    rewrite H2, Hs in *. cbn [Examples.world0 store document_chunks app].
    exact H3.
Defined.

End PipelineFacts.

(** ** The embeddings and the store *)

Module VectorStoreFacts.
Import Db DbOps DocumentService DocumentSpec EmbeddingSpec.
Import DocumentQueryFacts.

Lemma bind_Diverge {A B} (m : M A) (k : A -> M B) w w' :
  m w = (Diverge, w') -> bind m k w = (Diverge, w').
Proof. unfold bind. by intros ->. Qed.

Section WithCollaborators.

Variable provider : EmbeddingService.Provider.
Variable readFile : jsstring -> option (list Byte.byte).
Variable sha256 : list Byte.byte -> jsstring.
Variable extractText :
  jsstring -> jsstring -> ExtractionOptions -> Thrown + ExtractionResult.
Variable pathName : jsstring -> jsstring.

Local Abbreviation processDocument :=
  (processDocument provider readFile sha256 extractText pathName).
Local Abbreviation pipeline := (pipeline provider extractText).

(** With embeddings asked for, the steps after the creation of the row
    never reach their end: the chunks are there, and [storeEmbeddings]
    throws for them. *)
Lemma pipeline_embeddings_not_Ok doc filePath mimeType copts eopts w :
  forall r, fst (pipeline doc filePath mimeType true copts eopts w) <> Ok r.
Proof.
  intros r. unfold DocumentService.pipeline.
  erewrite bind_Ok
    by (unfold updateDocumentStatus; apply updateDocuments_run).
  destruct (extractText filePath mimeType eopts) as [e|ex]; cbn [liftE].
  { erewrite bind_Throw by reflexivity. discriminate. }
  erewrite bind_Ok by reflexivity.
  destruct (EmbeddingService.isBlank (extracted_content ex));
    [discriminate|].
  destruct (TextChunker.chunkText (extracted_content ex)
              (pipelineChunkOptions copts)) as [|c cs] eqn:E;
    [discriminate|].
  match goal with
  | |- context [EmbeddingService.generateEmbeddings provider ?inputs
                  EmbeddingService.noOptions] =>
    set (ins := inputs)
  end.
  match goal with
  | |- fst (bind _ _ ?W) <> _ =>
    destruct (EmbeddingService.generateEmbeddings provider ins
                EmbeddingService.noOptions W) as [[r0|e|] w2] eqn:Hg
  end.
  - match goal with
    | |- context [EmbeddingService.storeEmbeddings ?n ?chs] =>
      destruct (EmbedderFacts.storeEmbeddings_throws n chs
                  (EmbeddingService.embeddings r0) w2) as [e He];
        [discriminate|]
    end.
    erewrite bind_Throw; [discriminate|].
    erewrite bind_Ok by exact Hg.
    erewrite bind_Throw by exact He. reflexivity.
  - erewrite bind_Throw; [discriminate|].
    erewrite bind_Throw by exact Hg. reflexivity.
  - erewrite bind_Diverge; [discriminate|].
    erewrite bind_Diverge by exact Hg. reflexivity.
Qed.

(** X29.  With embeddings asked for, which is the default, no new
    content is ever ingested: [processDocument] returns with [success]
    false and an error message, the row it created ends in [failed],
    and no chunk row is written, whatever the provider and the extractor
    do.  Chunk rows come into the store without embeddings only. *)
Theorem processDocument_embeddings_never_stored filePath originalName
    userId mimeType fileSize title options w bytes :
  readFile filePath = Some bytes ->
  List.filter (sameContent (sha256 bytes) userId) (documents (store w))
  = [] ->
  default true (generateEmbeddings options) = true ->
  let doc := created sha256 pathName filePath originalName userId
               mimeType fileSize title bytes (store w) in
  exists r w' msg,
    processDocument filePath originalName userId mimeType fileSize title
      options w = (Ok r, w')
    /\ success r = false
    /\ error r = Some msg
    /\ document r = Some doc
    /\ documents (store w')
       = markStatus (id doc) failed (documents (store w) ++ [doc])
    /\ document_chunks (store w') = document_chunks (store w).
Proof.
  intros Hread Hfind Hge doc.
  rewrite (DocumentFacts.processDocument_new provider readFile sha256
             extractText pathName filePath originalName userId mimeType
             fileSize title options w bytes Hread Hfind).
  cbv zeta. fold doc.
  assert (Hge' : (optionsOf options).1.1 = true) by exact Hge.
  rewrite Hge'.
  pose proof (DocumentFacts.pipeline_cases provider extractText doc
                filePath mimeType true
                (optionsOf options).1.2 (optionsOf options).2
                (afterCreate w doc)) as Hcases.
  pose proof (DocumentFacts.terminates_pipeline provider extractText doc
                filePath mimeType true
                (optionsOf options).1.2 (optionsOf options).2
                (afterCreate w doc)) as Hterm.
  pose proof (pipeline_embeddings_not_Ok doc filePath mimeType
                (optionsOf options).1.2 (optionsOf options).2
                (afterCreate w doc)) as Hno.
  cbv zeta in Hcases.
  cbn [afterCreate store documents document_chunks next_id] in Hcases.
  destruct (pipeline doc filePath mimeType true _ _ (afterCreate w doc))
    as [[r|e|] w2]; [by destruct (Hno r)| |by destruct Hterm].
  unfold onFailure.
  erewrite bind_Ok
    by (unfold updateDocumentStatus; apply updateDocuments_run).
  eexists. eexists. exists (errorMessage e).
  split; [reflexivity|].
  cbn [failure success error document withStore store documents
       document_chunks].
  rewrite Hcases. cbn [documents document_chunks].
  fold (markStatus (id doc) failed
          (markStatus (id doc) processing (documents (store w) ++ [doc]))).
  rewrite DocumentFacts.markStatus_twice. done.
Qed.

End WithCollaborators.

(** The report of the samples, ingested with the default options by a
    provider that works: the provider is called, and nothing is
    stored. *)
Lemma processDocument_embeddings_never_stored_witness :
  exists r w',
    DocumentService.processDocument Examples.steady Examples.sampleReadFile
      Examples.sampleDigest Examples.sampleExtract Examples.samplePathName
      Examples.reportPath (lit "report.txt") Examples.alice
      Examples.textPlain 152 None Examples.defaultProcessing
      Examples.world0 = (Ok r, w')
    /\ success r = false
    /\ document_chunks (store w') = []
    /\ providerCalls w' = 1%nat.
Proof.
  destruct (processDocument_embeddings_never_stored Examples.steady
              Examples.sampleReadFile Examples.sampleDigest
              Examples.sampleExtract Examples.samplePathName
              Examples.reportPath (lit "report.txt") Examples.alice
              Examples.textPlain 152 None Examples.defaultProcessing
              Examples.world0 (Examples.bytesOf Examples.reportText))
    as [r [w' [msg [H1 [H2 [_ [_ [_ H3]]]]]]]].
  - vm_compute. reflexivity.
  - vm_compute. reflexivity.
  - reflexivity.
  - exists r, w'. split; [exact H1|]. split; [exact H2|].
    split; [exact H3|].
    vm_compute in H1. injection H1 as _ <-. reflexivity.
Defined.

Section Reprocess.

Variable provider : EmbeddingService.Provider.

(** With a row to update, the loop of [updateEmbeddings] throws at its
    first turn. *)
Lemma updateRows_throws L es w :
  L <> [] ->
  exists e, EmbeddingService.updateRows L es w = (Throw e, w).
Proof.
  intros Hne. destruct L as [|x L]; [done|].
  destruct es as [|e es]; [by eexists|].
  destruct (ReprocessFacts.updateRows_refused x L e es w) as [msg ->].
  by eexists.
Qed.

Lemma updateEmbeddings_cases docId force w :
  match EmbeddingService.updateEmbeddings provider docId force w with
  | (Ok res, w') =>
    res = (0%nat, Q2Qc 0) /\ w' = w
    /\ selectedChunks (store w) docId force = []
  | (Throw _, w') => store w' = store w
  | (Diverge, _) => False
  end.
Proof.
  unfold EmbeddingService.updateEmbeddings, tryCatch.
  unfold bind at 1. unfold selectChunksOfDocument, bind, getStore, ret.
  fold (selectedChunks (store w) docId force).
  unfold selectedChunks at 1.
  destruct (orderByIndex (chunksOf (store w) docId)) as [|c0 cs0] eqn:Hsel.
  { split; [done|]. split; [done|]. unfold selectedChunks.
    rewrite Hsel. by destruct force. }
  rewrite <- Hsel. clear Hsel.
  fold (selectedChunks (store w) docId force).
  destruct (selectedChunks (store w) docId force) as [|x L] eqn:HL; [done|].
  rewrite <- HL. set (sel := selectedChunks (store w) docId force) in *.
  pose proof (Frames.generateEmbeddings_store provider
    (map (fun chunk => {| EmbeddingService.input_content := content chunk;
                          EmbeddingService.input_chunk_index :=
                            chunk_index chunk |}) sel)
    EmbeddingService.noOptions w) as Hst.
  pose proof (Frames.terminates_generateEmbeddings provider
    (map (fun chunk => {| EmbeddingService.input_content := content chunk;
                          EmbeddingService.input_chunk_index :=
                            chunk_index chunk |}) sel)
    EmbeddingService.noOptions ltac:(simpl; lia) w) as Hterm.
  destruct (EmbeddingService.generateEmbeddings provider _ _ w)
    as [[r|e|] w2]; cbn [fst snd throw] in *; [|exact Hst|done].
  destruct (updateRows_throws sel (EmbeddingService.embeddings r) w2)
    as [e ->]; [by rewrite HL|].
  exact Hst.
Qed.

(** X30.  Reprocessing never changes the store.  [reprocessDocument]
    leaves the documents and the chunk rows as they were, whatever the
    provider answers, for the embedding of an update is bound as an
    array and the database refuses it.  When the call returns, there
    was no chunk to embed: it reports zero chunks and zero cost, and the
    provider was not called.  With a chunk to embed, it throws. *)
Theorem reprocessDocument_never_updates docId userId force w :
  store (snd (reprocessDocument provider docId userId force w)) = store w
  /\ (forall res w',
        reprocessDocument provider docId userId force w = (Ok res, w') ->
        w' = w /\ chunks_updated res = 0%nat
        /\ reprocess_cost res = Q2Qc 0
        /\ selectedChunks (store w) docId force = [])
  /\ (selectedChunks (store w) docId force <> [] ->
      exists e w',
        reprocessDocument provider docId userId force w = (Throw e, w')
        /\ store w' = store w).
Proof.
  assert (Hcases :
    match reprocessDocument provider docId userId force w with
    | (Ok res, w') =>
      w' = w /\ chunks_updated res = 0%nat /\ reprocess_cost res = Q2Qc 0
      /\ selectedChunks (store w) docId force = []
    | (Throw _, w') => store w' = store w
    | (Diverge, _) => False
    end).
  { unfold reprocessDocument, tryCatch.
    unfold bind at 1. unfold selectDocumentOfUser, bind, getStore, ret.
    destruct (List.filter _ (documents (store w))) as [|d rest]; [done|].
    destruct (negb (status_eqb (processing_status d) completed)
              && negb force); [done|].
    pose proof (updateEmbeddings_cases docId force w) as Hu.
    destruct (EmbeddingService.updateEmbeddings provider docId force w)
      as [[res|e|] w2]; cbn [fst snd throw] in *;
      [|exact Hu|exact Hu].
    destruct Hu as [-> [-> Hsel]]. done. }
  destruct (reprocessDocument provider docId userId force w)
    as [[res|e|] w1]; [| |destruct Hcases].
  - destruct Hcases as [-> [Hn [Hc Hsel]]].
    split; [done|]. split; [by intros res' w' [= <- <-]|].
    intros Hne. by destruct Hne.
  - split; [exact Hcases|]. split; [discriminate|].
    intros _. by exists e, w1.
Qed.

End Reprocess.

(** The ingested report of the samples, whose chunk has an embedding:
    forced reprocessing calls the provider and throws, and the store is
    as before. *)
Lemma reprocessDocument_never_updates_witness :
  exists e w',
    reprocessDocument Examples.steady 1 Examples.alice true
      Examples.ingestedWorld = (Throw e, w')
    /\ store w' = store Examples.ingestedWorld
    /\ providerCalls w' = 1%nat.
Proof.
  destruct (reprocessDocument_never_updates Examples.steady 1
              Examples.alice true Examples.ingestedWorld)
    as [_ [_ H]].
  destruct H as [e [w' [H1 H2]]]; [vm_compute; discriminate|].
  exists e, w'. split; [exact H1|]. split; [exact H2|].
  vm_compute in H1. injection H1 as _ <-. reflexivity.
Defined.

End VectorStoreFacts.
